(** * gotfiles: the path reconciler and the recursive copy, over a model of
    the file system.

    The program ([src/unnamed/part_000], and its older variant
    [src/main.go]) moves tracked dotfiles from the home directory into a
    repository directory and leaves symbolic links behind.  Everything it
    does is a sequence of calls into Go's [os], [io], [ioutil] and
    [filepath] packages, so the development has two layers:

    - a model of the file system and of the library calls the program
      makes ([os_Lstat], [os_Stat], [os_MkdirAll], [os_Create], ...);
    - the program's own functions ([copyFile], [copyDir], [processPath],
      [runGitCommand], [initCmd], [syncCmd], and [processFile], [initCmd],
      [syncCmd] of the older variant), transcribed statement by statement
      over that model.  So are [loadConfig] and [main] of
      [src/unnamed/part_000] (the older variant has the same two, over
      its own commands); the JSON decoder of Go's library, which
      [loadConfig] calls, is a parameter of the development.

    Scope of the file-system model.  There are three kinds of objects:
    regular files, directories and symbolic links (no devices, sockets or
    named pipes, no hard links).  Path resolution follows symbolic links
    in every position the kernel follows them, with the kernel's bound of
    40 links per resolution.  New files and directories get the mode asked
    for less the process's mask.  Otherwise permission bits are stored and
    reported but not enforced (the process may read, search and write
    everywhere, as a privileged user may), names are assumed short enough
    for the kernel's limits, and the disk never fills up.  The home
    directory and the working directory are absolute paths.  The [git]
    child processes are recorded in the output; what they do to the tree
    is outside the model.  Of an error, the output shows the error number
    only, not the operation and the path that [%v] prints with it. *)

From stdpp Require Import gmap strings list fin_maps sorting.
From Stdlib Require Import ZArith Lia Ascii.

Local Open Scope Z_scope.
Local Open Scope string_scope.
Local Open Scope list_scope.

(** ** Errors *)

(** The [syscall.Errno] values the modelled calls can produce. *)
Inductive errno :=
| ENOENT | ENOTDIR | EEXIST | EISDIR | ELOOP | ENOTEMPTY | EBUSY | EINVAL
| EBADF | ENAMETOOLONG.

Global Instance errno_eq_dec : EqDecision errno.
Proof. solve_decision. Defined.

(** A Go [error] value: [errno] for errors of the operating system,
    [errorString] for [fmt.Errorf]. *)
Inductive error :=
| Errno (e : errno)
| errorString (s : string).

(** [os.IsNotExist]: only ENOENT qualifies (ENOTDIR and ELOOP do not). *)
Definition os_IsNotExist (e : option error) : bool :=
  match e with
  | Some (Errno ENOENT) => true
  | _ => false
  end.

(** A pair (value, error) as Go functions return it. *)
Inductive result (A : Type) :=
| Ok (a : A)
| Err (e : errno).
Arguments Ok {A} a.
Arguments Err {A} e.

Definition result_error {A} (r : result A) : option error :=
  match r with
  | Ok _ => None
  | Err e => Some (Errno e)
  end.

(** A pair (value, error) whose error need not come from the operating
    system. *)
Abbreviation result' A := (A * option error)%type.

(** ** Paths *)

(** A path is the list of its components; every path the program builds is
    absolute (it starts from [os.UserHomeDir] or [os.Getwd]).  A tracked
    item is a relative path, the list of the components of the
    configuration string. *)
Abbreviation path := (list string).

(** Components that are not names of directory entries. *)
Definition special (c : string) : bool :=
  bool_decide (c = "") || bool_decide (c = ".") || bool_decide (c = "..").

(** A component that names a directory entry. *)
Definition proper (c : string) : Prop := special c = false.

Global Instance proper_dec (c : string) : Decision (proper c).
Proof. unfold proper. apply _. Defined.

(** [filepath.Clean] on an absolute path, on components: empty and [.]
    components are dropped, [..] removes the component before it (and is
    dropped at the root).  [acc] is the cleaned prefix, reversed. *)
Fixpoint clean_go (acc : list string) (p : list string) : list string :=
  match p with
  | [] => rev acc
  | c :: p' =>
      if bool_decide (c = "") || bool_decide (c = ".") then clean_go acc p'
      else if bool_decide (c = "..") then clean_go (tail acc) p'
      else clean_go (c :: acc) p'
  end.

Definition filepath_Clean (p : path) : path := clean_go [] p.

(** [filepath.Join(dir, rest)]: concatenate, then clean. *)
Definition filepath_Join (dir rest : path) : path := filepath_Clean (dir ++ rest).

(** [filepath.Dir] of a cleaned absolute path: all but the last component. *)
Definition filepath_Dir (p : path) : path := removelast p.

(** ** The file system *)

(** Go's [os.FileMode] bits that the program tests. *)
Definition ModeDir : Z := Z.shiftl 1 31.
Definition ModeSymlink : Z := Z.shiftl 1 27.
Definition ModePerm : Z := 511.   (* 0777 *)

Inductive node :=
| File (perm : Z) (data : list Byte.byte)
| Dir (perm : Z)
| Symlink (absolute : bool) (target : list string).

Global Instance byte_eq_dec : EqDecision Byte.byte := Byte.byte_eq_dec.

Global Instance node_eq_dec : EqDecision node.
Proof. solve_decision. Defined.

(** The tree is a finite map from the canonical path of an object (the path
    from the root that crosses no symbolic link) to the object.  The root
    directory is the key [[]]; it is implicit, never stored. *)
Abbreviation FS := (gmap (list string) node).

Definition root_perm : Z := 493.   (* 0755 *)

Definition node_at (fs : FS) (k : list string) : option node :=
  match k with
  | [] => Some (Dir root_perm)
  | _ => fs !! k
  end.

Definition is_symlink (n : node) : bool :=
  match n with Symlink _ _ => true | _ => false end.

Definition is_dir (n : node) : bool :=
  match n with Dir _ => true | _ => false end.

(** The file system is a tree: every stored object has a proper name and
    sits in a directory (the root is not stored). *)
Definition wf_entry (fs : FS) (k : list string) (n : node) : Prop :=
  k ≠ [] ∧ Forall proper k ∧
  match node_at fs (removelast k) with
  | Some (Dir _) => True
  | _ => False
  end.

Global Instance wf_entry_dec (fs : FS) (k : list string) (n : node) :
  Decision (wf_entry fs k n).
Proof.
  unfold wf_entry. destruct (node_at fs (removelast k)) as [[| |]|]; apply _.
Defined.

Definition wf (fs : FS) : Prop := map_Forall (wf_entry fs) fs.

Global Instance wf_dec (fs : FS) : Decision (wf fs).
Proof. unfold wf. apply _. Defined.

(** *** Path resolution *)

(** The outcome of resolving a path: the object and its canonical path; or
    the directory in which the last component is missing; or an error. *)
Inductive lookup_result :=
| Found (k : list string) (n : node)
| Missing (parent : list string) (name : string)
| Fail (e : errno).

(** One stretch of a resolution, up to the next symbolic link to follow. *)
Inductive stretch :=
| Done (r : lookup_result)
| Jump (cur : list string) (n : node) (rest : list string).

(** [walk1 fs follow cur n rest]: resolve [rest] from the directory [cur]
    (whose node is [n]).  [follow] tells whether a symbolic link in the last
    position is followed ([stat]) or returned ([lstat]). *)
Fixpoint walk1 (fs : FS) (follow : bool) (cur : list string) (n : node)
    (rest : list string) : stretch :=
  match rest with
  | [] => Done (Found cur n)
  | c :: rest' =>
      if bool_decide (c = "") || bool_decide (c = ".") then
        walk1 fs follow cur n rest'
      else if bool_decide (c = "..") then
        match node_at fs (removelast cur) with
        | Some (Dir p) => walk1 fs follow (removelast cur) (Dir p) rest'
        | _ => Done (Fail ENOENT)
        end
      else
        match fs !! (cur ++ [c]) with
        | None =>
            match rest' with
            | [] => Done (Missing cur c)
            | _ => Done (Fail ENOENT)
            end
        | Some (Dir p) => walk1 fs follow (cur ++ [c]) (Dir p) rest'
        | Some (File p d) =>
            match rest' with
            | [] => Done (Found (cur ++ [c]) (File p d))
            | _ => Done (Fail ENOTDIR)
            end
        | Some (Symlink a t) =>
            match rest', follow with
            | [], false => Done (Found (cur ++ [c]) (Symlink a t))
            | _, _ =>
                if a then Jump [] (Dir root_perm) (t ++ rest')
                else Jump cur n (t ++ rest')
            end
        end
  end.

(** Resolution with a budget of symbolic links. *)
Fixpoint walk (fs : FS) (budget : nat) (follow : bool) (cur : list string)
    (n : node) (rest : list string) : lookup_result :=
  match walk1 fs follow cur n rest with
  | Done r => r
  | Jump cur' n' rest' =>
      match budget with
      | O => Fail ELOOP
      | S b => walk fs b follow cur' n' rest'
      end
  end.

(** The kernel's bound on the symbolic links of one resolution. *)
Definition MAXSYMLINKS : nat := 40.

Definition resolve (fs : FS) (follow : bool) (p : path) : lookup_result :=
  walk fs MAXSYMLINKS follow [] (Dir root_perm) p.

(** *** File information *)

(** What the program reads from an [os.FileInfo]. *)
Record FileInfo := { Name : string; Mode : Z }.

Definition mode_of (n : node) : Z :=
  match n with
  | File p _ => Z.land p ModePerm
  | Dir p => Z.lor ModeDir (Z.land p ModePerm)
  | Symlink _ _ => Z.lor ModeSymlink ModePerm
  end.

Definition IsDir (fi : FileInfo) : bool :=
  negb (Z.eqb (Z.land (Mode fi) ModeDir) 0).

Definition lookup_info (name : string) (r : lookup_result) : result FileInfo :=
  match r with
  | Found _ n => Ok {| Name := name; Mode := mode_of n |}
  | Missing _ _ => Err ENOENT
  | Fail e => Err e
  end.

(** *** Directory entries *)

(** The entry that the object [kv] is in the directory [k], if it is one. *)
Definition entry_of (k : list string) (kv : list string * node)
    : option (string * node) :=
  if decide (take (length k) kv.1 = k) then
    match drop (length k) kv.1 with
    | [c] => Some (c, kv.2)
    | _ => None
    end
  else None.

Definition entry_le (a b : string * node) : Prop := String.le a.1 b.1.

Global Instance entry_le_dec : RelDecision entry_le.
Proof. intros a b. unfold entry_le. apply _. Defined.

(** The entries of the directory [k], sorted by name. *)
Definition children (fs : FS) (k : list string) : list (string * node) :=
  merge_sort entry_le (omap (entry_of k) (map_to_list fs)).

(** Removal of the whole subtree at [k]. *)
Definition remove_tree (fs : FS) (k : list string) : FS :=
  filter (λ kv, ¬ (k `prefix_of` kv.1)) fs.

(** ** The library calls *)

Section Calls.

(** The file-mode creation mask of the process. *)
Variable umask : Z.

Definition os_Lstat (fs : FS) (p : path) : result FileInfo :=
  lookup_info (List.last p "") (resolve fs false p).

Definition os_Stat (fs : FS) (p : path) : result FileInfo :=
  lookup_info (List.last p "") (resolve fs true p).

(** [os.Mkdir]: the last component must be missing; the new directory
    gets the permission bits of [perm] that the mask lets through. *)
Definition os_Mkdir (fs : FS) (p : path) (perm : Z) : FS * option errno :=
  match resolve fs false p with
  | Found _ _ => (fs, Some EEXIST)
  | Missing kp c =>
      (<[kp ++ [c] := Dir (Z.land (Z.land perm ModePerm) (Z.lnot umask))]> fs,
       None)
  | Fail e => (fs, Some e)
  end.

(** [os.MkdirAll], as the library implements it: succeed at once on an
    existing directory, otherwise make the parent (recursively) and then
    the directory itself.  The path is given reversed, so that the
    recursion on the parent is structural. *)
Fixpoint MkdirAll_rev (fs : FS) (rp : list string) (perm : Z)
    : FS * option errno :=
  match os_Stat fs (rev rp) with
  | Ok dir => if IsDir dir then (fs, None) else (fs, Some ENOTDIR)
  | Err _ =>
      let '(fs1, err) :=
        match rp with
        | [] => (fs, None)
        | _ :: rparent => MkdirAll_rev fs rparent perm
        end in
      match err with
      | Some e => (fs1, Some e)
      | None =>
          match os_Mkdir fs1 (rev rp) perm with
          | (fs2, None) => (fs2, None)
          | (fs2, Some e) =>
              match os_Lstat fs2 (rev rp) with
              | Ok dir => if IsDir dir then (fs2, None) else (fs2, Some e)
              | Err _ => (fs2, Some e)
              end
          end
      end
  end.

Definition os_MkdirAll (fs : FS) (p : path) (perm : Z) : FS * option errno :=
  MkdirAll_rev fs (rev p) perm.

(** [os.Open] (read only).  An open file is identified by the canonical
    path of its object.  Directories can be opened too; reading from them
    fails later. *)
Definition os_Open (fs : FS) (p : path) : result (list string) :=
  match resolve fs true p with
  | Found k _ => Ok k
  | Missing _ _ => Err ENOENT
  | Fail e => Err e
  end.

(** [os.Create]: open for writing, create with mode 0666 (before the
    mask) if missing, truncate if present.  A dangling symbolic link in
    the last position is followed and its target created. *)
Definition os_Create (fs : FS) (p : path) : FS * result (list string) :=
  match resolve fs true p with
  | Found k (File perm _) => (<[k := File perm []]> fs, Ok k)
  | Found _ (Dir _) => (fs, Err EISDIR)
  | Found _ (Symlink _ _) => (fs, Err ELOOP)
  | Missing kp c =>
      (<[kp ++ [c] := File (Z.land 438 (Z.lnot umask)) []]> fs, Ok (kp ++ [c]))
  | Fail e => (fs, Err e)
  end.

(** [io.Copy(output, input)] on two open files: read the input to its end
    and write it to the (just truncated) output. *)
Definition io_Copy (fs : FS) (output input : list string)
    : FS * option errno :=
  match node_at fs input with
  | Some (File _ d) =>
      match fs !! output with
      | Some (File perm old) => (<[output := File perm (old ++ d)]> fs, None)
      | _ => (fs, Some EBADF)
      end
  | Some (Dir _) => (fs, Some EISDIR)
  | _ => (fs, Some EBADF)
  end.

(** [os.Remove]: unlink a file or a symbolic link, remove an empty
    directory. *)
Definition os_Remove (fs : FS) (p : path) : FS * option errno :=
  match resolve fs false p with
  | Found [] _ => (fs, Some EBUSY)
  | Found k (Dir _) =>
      match children fs k with
      | [] => (delete k fs, None)
      | _ => (fs, Some ENOTEMPTY)
      end
  | Found k _ => (delete k fs, None)
  | Missing _ _ => (fs, Some ENOENT)
  | Fail e => (fs, Some e)
  end.

(** [os.RemoveAll]: remove the path and everything below it; a path that
    does not exist is no error. *)
Definition os_RemoveAll (fs : FS) (p : path) : FS * option errno :=
  match resolve fs false p with
  | Found [] _ => (remove_tree fs [], Some EBUSY)
  | Found k _ => (remove_tree fs k, None)
  | Missing _ _ => (fs, None)
  | Fail ENOENT => (fs, None)
  | Fail e => (fs, Some e)
  end.

(** [os.Symlink(oldname, newname)]: the link holds [oldname] as written;
    every path of the program is absolute. *)
Definition os_Symlink (fs : FS) (oldname newname : path)
    : FS * option errno :=
  match resolve fs false newname with
  | Found _ _ => (fs, Some EEXIST)
  | Missing kp c => (<[kp ++ [c] := Symlink true oldname]> fs, None)
  | Fail e => (fs, Some e)
  end.

(** [ioutil.ReadDir]: the entries of a directory, sorted by name, each
    described as [lstat] would. *)
Definition ioutil_ReadDir (fs : FS) (p : path) : result (list FileInfo) :=
  match resolve fs true p with
  | Found k (Dir _) =>
      Ok (map (λ e, {| Name := e.1; Mode := mode_of e.2 |}) (children fs k))
  | Found _ _ => Err ENOTDIR
  | Missing _ _ => Err ENOENT
  | Fail e => Err e
  end.

(** [ioutil.ReadFile]. *)
Definition ioutil_ReadFile (fs : FS) (p : path) : result (list Byte.byte) :=
  match resolve fs true p with
  | Found _ (File _ d) => Ok d
  | Found _ _ => Err EISDIR
  | Missing _ _ => Err ENOENT
  | Fail e => Err e
  end.

(** [os.Readlink]. *)
Definition os_Readlink (fs : FS) (p : path) : result (bool * list string) :=
  match resolve fs false p with
  | Found _ (Symlink a t) => Ok (a, t)
  | Found _ _ => Err EINVAL
  | Missing _ _ => Err ENOENT
  | Fail e => Err e
  end.

End Calls.

(** ** The program *)

(** What a run writes and starts: lines on standard output ([fmt.Printf],
    [fmt.Println]), lines of the logger ([log.Printf]) and child
    processes ([exec.Command(...).Run()]). *)
Inductive output :=
| Stdout (line : string)
| Log (line : string)
| Exec (dir : path) (name : string) (args : list string).

(** The process environment: [$HOME], the working directory, the mask, and
    what each [git] child process returns. *)
Record env := {
  env_home : option path;
  env_cwd : option path;
  env_umask : Z;
  env_git : list string → option error
}.

Record state := { fs : FS; out : list output }.

(** Computations of the program: state passing. *)
Definition M (A : Type) : Type := state → A * state.

Global Instance M_ret : MRet M := λ A a s, (a, s).
Global Instance M_bind : MBind M :=
  λ A B f m s, let '(a, s') := m s in f a s'.

(** A call that reads the file system. *)
Definition read {A} (f : FS → A) : M A := λ s, (f (fs s), s).

(** A call that changes the file system. *)
Definition call {A} (f : FS → FS * A) : M A :=
  λ s, let '(fs', a) := f (fs s) in (a, {| fs := fs'; out := out s |}).

Definition emit (o : output) : M unit :=
  λ s, (tt, {| fs := fs s; out := out s ++ [o] |}).

(** [%s] of a path, [%v] of an error. *)
Definition show_path (p : path) : string := String.concat "/" p.

Definition show_errno (e : errno) : string :=
  match e with
  | ENOENT => "no such file or directory"
  | ENOTDIR => "not a directory"
  | EEXIST => "file exists"
  | EISDIR => "is a directory"
  | ELOOP => "too many levels of symbolic links"
  | ENOTEMPTY => "directory not empty"
  | EBUSY => "device or resource busy"
  | EINVAL => "invalid argument"
  | EBADF => "bad file descriptor"
  | ENAMETOOLONG => "file name too long"
  end.

Definition show_error (e : error) : string :=
  match e with
  | Errno e => show_errno e
  | errorString s => s
  end.

Definition wrap (e : option errno) : option error := Errno <$> e.

(** A [for ... range] loop whose body may return an error from the
    enclosing function. *)
Fixpoint range {A} (l : list A) (body : A → M (option error))
    : M (option error) :=
  match l with
  | [] => mret None
  | x :: l' =>
      err ← body x;
      match err with
      | Some e => mret (Some e)
      | None => range l' body
      end
  end.

(** A [for ... range] loop whose body returns nothing. *)
Fixpoint range_ {A} (l : list A) (body : A → M unit) : M unit :=
  match l with
  | [] => mret tt
  | x :: l' => _ ← body x; range_ l' body
  end.

(** No absolute path of more than 4096 bytes reaches the file system, and
    a component with its separator takes two bytes at least: this bounds
    the depth at which [copyDir] can still [Stat] its source. *)
Definition PATH_DEPTH : nat := 2048.

Section Program.

Variable E : env.

(** [copyFile] (both variants of the program have the same one). *)
Definition copyFile (src dst : path) : M (option error) :=
  input ← read (λ fs, os_Open fs src);
  match input with
  | Err e => mret (Some (Errno e))
  | Ok input =>
      let dstDir := filepath_Dir dst in
      err ← call (λ fs, os_MkdirAll (env_umask E) fs dstDir 493);
      match err with
      | Some e => mret (Some (Errno e))
      | None =>
          output ← call (λ fs, os_Create (env_umask E) fs dst);
          match output with
          | Err e => mret (Some (Errno e))
          | Ok output =>
              err ← call (λ fs, io_Copy fs output input);
              mret (wrap err)
          end
      end
  end.

(** [copyDir]; [depth] bounds the nesting (see [PATH_DEPTH]). *)
Fixpoint copyDir_at (depth : nat) (src dst : path) : M (option error) :=
  match depth with
  | O => mret (Some (Errno ENAMETOOLONG))
  | S depth' =>
      srcInfo ← read (λ fs, os_Stat fs src);
      match srcInfo with
      | Err e => mret (Some (Errno e))
      | Ok srcInfo =>
          err ← call (λ fs, os_MkdirAll (env_umask E) fs dst (Mode srcInfo));
          match err with
          | Some e => mret (Some (Errno e))
          | None =>
              entries ← read (λ fs, ioutil_ReadDir fs src);
              match entries with
              | Err e => mret (Some (Errno e))
              | Ok entries =>
                  range entries (λ entry,
                    let srcPath := filepath_Join src [Name entry] in
                    let dstPath := filepath_Join dst [Name entry] in
                    if IsDir entry then copyDir_at depth' srcPath dstPath
                    else copyFile srcPath dstPath)
              end
          end
      end
  end.

Definition copyDir (src dst : path) : M (option error) :=
  copyDir_at PATH_DEPTH src dst.

(** [processPath] of [src/unnamed/part_000]. *)
Definition processPath (item homeDir dotfilesRepoDir : path) (isSync : bool)
    : M unit :=
  let sourcePath := filepath_Join homeDir item in
  let destPath := filepath_Join dotfilesRepoDir item in
  fi ← read (λ fs, os_Lstat fs sourcePath);
  _ ← match fi with
      | Ok fi =>
          if negb (Z.eqb (Z.land (Mode fi) ModeSymlink) 0) then
            emit (Stdout ("Skipping backup for " +:+ show_path item
                          +:+ " as it is already a symlink."))
          else if IsDir fi then
            (* Copy directory recursively. *)
            err ← copyDir sourcePath destPath;
            _ ← match err with
                | Some e =>
                    emit (Log ("Error copying directory " +:+ show_path item
                               +:+ ": " +:+ show_error e))
                | None =>
                    if isSync then
                      emit (Stdout ("Updated directory " +:+ show_path item
                                    +:+ " in repository."))
                    else
                      emit (Stdout ("Copied directory " +:+ show_path item
                                    +:+ " to repository."))
                end;
            (* Remove the original directory. *)
            err ← call (λ fs, os_RemoveAll fs sourcePath);
            match err with
            | Some e =>
                emit (Log ("Error removing original directory "
                           +:+ show_path item +:+ ": " +:+ show_errno e))
            | None => mret tt
            end
          else
            (* Copy file. *)
            err ← copyFile sourcePath destPath;
            _ ← match err with
                | Some e =>
                    emit (Log ("Error copying file " +:+ show_path item
                               +:+ ": " +:+ show_error e))
                | None =>
                    if isSync then
                      emit (Stdout ("Updated file " +:+ show_path item
                                    +:+ " in repository."))
                    else
                      emit (Stdout ("Copied file " +:+ show_path item
                                    +:+ " to repository."))
                end;
            (* Remove the original file. *)
            err ← call (λ fs, os_Remove fs sourcePath);
            match err with
            | Some e =>
                emit (Log ("Error removing original file " +:+ show_path item
                           +:+ ": " +:+ show_errno e))
            | None => mret tt
            end
      | Err e =>
          if negb (os_IsNotExist (Some (Errno e))) then
            emit (Log ("Error accessing " +:+ show_path item +:+ ": "
                       +:+ show_errno e))
          else
            emit (Log (show_path item +:+ " does not exist in home."))
      end;
  (* Create symlink if the source no longer exists. *)
  fi ← read (λ fs, os_Lstat fs sourcePath);
  if os_IsNotExist (result_error fi) then
    st ← read (λ fs, os_Stat fs destPath);
    match st with
    | Ok _ =>
        err ← call (λ fs, os_Symlink fs destPath sourcePath);
        match err with
        | Some e =>
            emit (Log ("Error creating symlink for " +:+ show_path item
                       +:+ ": " +:+ show_errno e))
        | None =>
            emit (Stdout ("Created symlink for " +:+ show_path item +:+ "."))
        end
    | Err _ =>
        emit (Log ("No backup for " +:+ show_path item
                   +:+ " found in repository."))
    end
  else mret tt.

(** [runGitCommand]: the child process is started in [dir]; its result
    comes from the environment. *)
Definition runGitCommand (dir : path) (args : list string)
    : M (option error) :=
  _ ← emit (Exec dir "git" args);
  mret (env_git E args).

Definition os_UserHomeDir : result' path :=
  match env_home E with
  | Some h => (h, None)
  | None => ([], Some (errorString "$HOME is not defined"))
  end.

Definition os_Getwd : result' path :=
  match env_cwd E with
  | Some d => (d, None)
  | None => ([], Some (Errno ENOENT))
  end.

(** [initCmd] of [src/unnamed/part_000]. *)
Definition initCmd (items : list path) : M (option error) :=
  let '(homeDir, err) := os_UserHomeDir in
  match err with
  | Some e => mret (Some e)
  | None =>
      let '(repoDir, err) := os_Getwd in
      match err with
      | Some e => mret (Some e)
      | None =>
          let dotfilesRepoDir := filepath_Join repoDir ["dotfiles"] in
          err ← call (λ fs, os_MkdirAll (env_umask E) fs dotfilesRepoDir 493);
          match err with
          | Some e => mret (Some (Errno e))
          | None =>
              _ ← range_ items (λ item,
                    processPath item homeDir dotfilesRepoDir false);
              err ← runGitCommand repoDir ["add"; "."];
              _ ← match err with
                  | Some e => emit (Log ("Error running git add: " +:+ show_error e))
                  | None => mret tt
                  end;
              err ← runGitCommand repoDir ["commit"; "-m"; "Update dotfiles backup"];
              _ ← match err with
                  | Some e => emit (Log ("Error running git commit: " +:+ show_error e))
                  | None => mret tt
                  end;
              err ← runGitCommand repoDir ["push"];
              _ ← match err with
                  | Some e => emit (Log ("Error running git push: " +:+ show_error e))
                  | None => mret tt
                  end;
              mret None
          end
      end
  end.

(** [syncCmd] of [src/unnamed/part_000]. *)
Definition syncCmd (items : list path) : M (option error) :=
  let '(homeDir, err) := os_UserHomeDir in
  match err with
  | Some e => mret (Some e)
  | None =>
      let '(repoDir, err) := os_Getwd in
      match err with
      | Some e => mret (Some e)
      | None =>
          let dotfilesRepoDir := filepath_Join repoDir ["dotfiles"] in
          st ← read (λ fs, os_Stat fs dotfilesRepoDir);
          if os_IsNotExist (result_error st) then
            mret (Some (errorString
              "dotfiles repository directory does not exist. Run 'gotfiles init' first"))
          else
            _ ← range_ items (λ item,
                  processPath item homeDir dotfilesRepoDir true);
            err ← runGitCommand repoDir ["add"; "."];
            _ ← match err with
                | Some e => emit (Log ("Error running git add: " +:+ show_error e))
                | None => mret tt
                end;
            err ← runGitCommand repoDir ["commit"; "-m"; "Sync dotfiles changes"];
            _ ← match err with
                | Some e => emit (Log ("Error running git commit: " +:+ show_error e))
                | None => mret tt
                end;
            err ← runGitCommand repoDir ["push"];
            _ ← match err with
                | Some e => emit (Log ("Error running git push: " +:+ show_error e))
                | None => mret tt
                end;
            mret None
      end
  end.

End Program.

(** ** Reading the configuration and choosing the command *)

(** [Config]: the list of the tracked items, as the configuration file
    writes them. *)
Record Config := { Dotfiles : list string }.

(** The components of a path written with [/] between them: what an item
    of the configuration is to [filepath.Join]. *)
Fixpoint components (s : string) : list string :=
  match s with
  | EmptyString => [""]
  | String c s' =>
      if Ascii.eqb c "/"%char then "" :: components s'
      else
        match components s' with
        | x :: xs => String c x :: xs
        | [] => [String c ""]
        end
  end.

(** [%s] of an absolute path. *)
Definition show_abs (p : path) : string := "/" +:+ String.concat "/" p.

Section Main.

Variable E : env.

(** [json.Unmarshal(data, &cfg)] for a [Config]: the decoder of Go's
    library, which is no part of the program.  It returns the structure
    it has filled in and the error. *)
Variable json_Unmarshal : list Byte.byte → Config → Config * option error.

(** [loadConfig] (both variants of the program have the same one).  The
    pointer it returns is [nil] with an error. *)
Definition loadConfig (configPath : path) : M (option Config * option error) :=
  data ← read (λ fs, ioutil_ReadFile fs configPath);
  match data with
  | Err e => mret (None, Some (Errno e))
  | Ok data =>
      let cfg := {| Dotfiles := [] |} in
      let '(cfg, err) := json_Unmarshal data cfg in
      match err with
      | Some e => mret (None, Some e)
      | None => mret (Some cfg, None)
      end
  end.

(** [main] of [src/unnamed/part_000]; the value is the exit status of the
    process: 1 after [os.Exit(1)] and after [log.Fatal], which logs the
    error first; 0 when [main] returns; 2 when the run-time system stops
    the process for a [nil] pointer (with no error, [loadConfig] returns
    none). *)
Definition main (Args : list string) : M Z :=
  if (length Args <? 2)%nat then
    _ ← emit (Stdout "Usage: gotfiles <init|sync>");
    mret 1
  else
    let '(repoDir, err) := os_Getwd E in
    match err with
    | Some e => _ ← emit (Log (show_error e)); mret 1
    | None =>
        let configPath := filepath_Join repoDir ["config.json"] in
        '(cfg, err) ← loadConfig configPath;
        match err with
        | Some e =>
            _ ← emit (Log ("Error loading config file ("
                           +:+ show_abs configPath +:+ "): "
                           +:+ show_error e));
            mret 1
        | None =>
            let cmd := nth 1 Args "" in
            if decide (cmd = "init") then
              match cfg with
              | None => mret 2   (* a nil pointer is dereferenced *)
              | Some cfg =>
                  err ← initCmd E (components <$> Dotfiles cfg);
                  match err with
                  | Some e => _ ← emit (Log (show_error e)); mret 1
                  | None => mret 0
                  end
              end
            else if decide (cmd = "sync") then
              match cfg with
              | None => mret 2   (* a nil pointer is dereferenced *)
              | Some cfg =>
                  err ← syncCmd E (components <$> Dotfiles cfg);
                  match err with
                  | Some e => _ ← emit (Log (show_error e)); mret 1
                  | None => mret 0
                  end
              end
            else
              _ ← emit (Stdout ("Unknown command: " +:+ cmd));
              mret 1
        end
    end.

End Main.

(** ** The older variant, [src/main.go] *)

Module MainGo.
Section Program.

Variable E : env.

(** [processFile] of [src/main.go]: every source that is not a symbolic
  link is treated as a file. *)
Definition processFile (file homeDir dotfilesRepoDir : path) (isSync : bool)
  : M unit :=
let sourcePath := filepath_Join homeDir file in
let destPath := filepath_Join dotfilesRepoDir file in
(* Check if the file exists in home. *)
fi ← read (λ fs, os_Lstat fs sourcePath);
_ ← match fi with
    | Ok fi =>
        if negb (Z.eqb (Z.land (Mode fi) ModeSymlink) 0) then
          emit (Stdout ("Skipping backup for " +:+ show_path file
                        +:+ " as it is already a symlink."))
        else
          (* Not a symlink: copy and remove original. *)
          err ← copyFile E sourcePath destPath;
          _ ← match err with
              | Some e =>
                  emit (Log ("Error copying " +:+ show_path file
                             +:+ ": " +:+ show_error e))
              | None =>
                  if isSync then
                    emit (Stdout ("Updated " +:+ show_path file
                                  +:+ " in repository."))
                  else
                    emit (Stdout ("Copied " +:+ show_path file
                                  +:+ " to repository."))
              end;
          err ← call (λ fs, os_Remove fs sourcePath);
          match err with
          | Some e =>
              emit (Log ("Error removing original file " +:+ show_path file
                         +:+ ": " +:+ show_errno e))
          | None => mret tt
          end
    | Err e =>
        if negb (os_IsNotExist (Some (Errno e))) then
          emit (Log ("Error accessing " +:+ show_path file +:+ ": "
                     +:+ show_errno e))
        else
          emit (Log (show_path file +:+ " does not exist in home."))
    end;
(* Ensure the symlink exists. *)
fi ← read (λ fs, os_Lstat fs sourcePath);
if os_IsNotExist (result_error fi) then
  st ← read (λ fs, os_Stat fs destPath);
  match st with
  | Ok _ =>
      err ← call (λ fs, os_Symlink fs destPath sourcePath);
      match err with
      | Some e =>
          emit (Log ("Error creating symlink for " +:+ show_path file
                     +:+ ": " +:+ show_errno e))
      | None =>
          emit (Stdout ("Created symlink for " +:+ show_path file +:+ "."))
      end
  | Err _ =>
      emit (Log ("No backup for " +:+ show_path file
                 +:+ " found in repository."))
  end
else mret tt.

(** [initCmd] of [src/main.go]. *)
Definition initCmd (dotfiles : list path) : M (option error) :=
let '(homeDir, err) := os_UserHomeDir E in
match err with
| Some e => mret (Some e)
| None =>
    let '(repoDir, err) := os_Getwd E in
    match err with
    | Some e => mret (Some e)
    | None =>
        let dotfilesRepoDir := filepath_Join repoDir ["dotfiles"] in
        err ← call (λ fs, os_MkdirAll (env_umask E) fs dotfilesRepoDir 493);
        match err with
        | Some e => mret (Some (Errno e))
        | None =>
            _ ← range_ dotfiles (λ file,
                  processFile file homeDir dotfilesRepoDir false);
            err ← runGitCommand E repoDir ["add"; "."];
            _ ← match err with
                | Some e => emit (Log ("Error running git add: " +:+ show_error e))
                | None => mret tt
                end;
            err ← runGitCommand E repoDir ["commit"; "-m"; "Update dotfiles backup"];
            _ ← match err with
                | Some e => emit (Log ("Error running git commit: " +:+ show_error e))
                | None => mret tt
                end;
            err ← runGitCommand E repoDir ["push"];
            _ ← match err with
                | Some e => emit (Log ("Error running git push: " +:+ show_error e))
                | None => mret tt
                end;
            mret None
        end
    end
end.

(** [syncCmd] of [src/main.go]. *)
Definition syncCmd (dotfiles : list path) : M (option error) :=
let '(homeDir, err) := os_UserHomeDir E in
match err with
| Some e => mret (Some e)
| None =>
    let '(repoDir, err) := os_Getwd E in
    match err with
    | Some e => mret (Some e)
    | None =>
        let dotfilesRepoDir := filepath_Join repoDir ["dotfiles"] in
        st ← read (λ fs, os_Stat fs dotfilesRepoDir);
        if os_IsNotExist (result_error st) then
          mret (Some (errorString
            "dotfiles repository directory does not exist. Run 'gotfiles init' first"))
        else
          _ ← range_ dotfiles (λ file,
                processFile file homeDir dotfilesRepoDir true);
          err ← runGitCommand E repoDir ["add"; "."];
          _ ← match err with
              | Some e => emit (Log ("Error running git add: " +:+ show_error e))
              | None => mret tt
              end;
          err ← runGitCommand E repoDir ["commit"; "-m"; "Sync dotfiles changes"];
          _ ← match err with
              | Some e => emit (Log ("Error running git commit: " +:+ show_error e))
              | None => mret tt
              end;
          err ← runGitCommand E repoDir ["push"];
          _ ← match err with
              | Some e => emit (Log ("Error running git push: " +:+ show_error e))
              | None => mret tt
              end;
          mret None
    end
end.

End Program.
End MainGo.

(** * Notions used in the statements *)

(** ** What [lstat] reports *)

(** Whether [lstat] reports a directory at a path. *)
Definition lstat_dir (fs : FS) (p : path) : bool :=
  match os_Lstat fs p with
  | Ok fi => IsDir fi
  | Err _ => false
  end.

(** Whether [lstat] reports a symbolic link at a path. *)
Definition lstat_symlink (fs : FS) (p : path) : bool :=
  match resolve fs false p with
  | Found _ (Symlink _ _) => true
  | _ => false
  end.

(** ** Output *)

(** The line [processPath] prints for an item it skips. *)
Definition skip_line (item : path) : output :=
  Stdout ("Skipping backup for " +:+ show_path item
          +:+ " as it is already a symlink.").


(** Outputs that differ at most in the wording of the line that reports a
    copy. *)
Definition wording (o o' : output) : Prop :=
  o = o' ∨
  ∃ kind item,
    o = Stdout ("Updated " +:+ kind +:+ item +:+ " in repository.") ∧
    o' = Stdout ("Copied " +:+ kind +:+ item +:+ " to repository.").

(** ** Copies *)

(** The mode of a file that [os.Create] makes. *)
Definition created_perm (E : env) : Z := Z.land 438 (Z.lnot (env_umask E)).

(** What [copyDir] makes of an object of the source tree. *)
Definition copy_node (umask : Z) (n : node) : node :=
  match n with
  | File _ d => File (Z.land 438 (Z.lnot umask)) d
  | Dir p => Dir (Z.land (Z.land p ModePerm) (Z.lnot umask))
  | Symlink a t => Symlink a t
  end.

(** No symbolic link at or below [ks]. *)
Definition plain_tree (fs : FS) (ks : list string) : Prop :=
  map_Forall (λ k n, ks `prefix_of` k → is_symlink n = false) fs.

Global Instance plain_tree_dec (fs : FS) (ks : list string) :
  Decision (plain_tree fs ks).
Proof. unfold plain_tree. apply _. Defined.

(** Everything at or below [ks] is less than [depth] levels from [ks]
    (counting [ks] itself as the first level). *)
Definition shallow (fs : FS) (ks : list string) (depth : nat) : Prop :=
  map_Forall (λ k (_ : node), ks `prefix_of` k →
                (length k < length ks + depth)%nat) fs.

Global Instance shallow_dec (fs : FS) (ks : list string) (depth : nat) :
  Decision (shallow fs ks depth).
Proof. unfold shallow. apply _. Defined.

(** What [copyDir] has to achieve: the tree at [ks] copied to [kd], and
    nothing changed outside [kd]. *)
Definition copied (umask : Z) (fs0 fs' : FS) (ks kd : list string) : Prop :=
  wf fs' ∧
  (∀ r, fs' !! (kd ++ r) = copy_node umask <$> fs0 !! (ks ++ r)) ∧
  (∀ k, ¬ kd `prefix_of` k → fs' !! k = fs0 !! k).

(** What is left at [ks] (and below it, when [deep]) is a link to [target]
    at most. *)
Definition only_link (fs : FS) (ks : list string) (deep : bool)
    (target : path) : Prop :=
  ∀ k n, (if deep then ks `prefix_of` k else k = ks) →
    fs !! k = Some n → n = Symlink true target.

(** ** Child processes, lines and stored objects *)

(** The child processes among the outputs, in the order in which they were
    started. *)
Definition processes (l : list output) : list (path * string * list string) :=
  omap (λ o, match o with
             | Exec dir name args => Some (dir, name, args)
             | _ => None
             end) l.

(** The line of [processPath] that reports a copy; [kind] is ["file "] or
    ["directory "]. *)
Definition copied_line (kind : string) (item : path) (isSync : bool)
    : output :=
  if isSync then
    Stdout ("Updated " +:+ kind +:+ show_path item +:+ " in repository.")
  else
    Stdout ("Copied " +:+ kind +:+ show_path item +:+ " to repository.").

(** A regular file or a directory is stored at [k]. *)
Definition stored (fs : FS) (k : list string) : Prop :=
  match fs !! k with
  | Some nd => is_symlink nd = false
  | None => False
  end.

Global Instance stored_dec (fs : FS) (k : list string) :
  Decision (stored fs k).
Proof. unfold stored. destruct (fs !! k); apply _. Defined.

(** A regular file, or a directory whose tree holds no symbolic link and
    is less than [PATH_DEPTH] levels deep, is stored at [k]. *)
Definition plain_item (fs : FS) (k : list string) : Prop :=
  stored fs k ∧ plain_tree fs k ∧ shallow fs k PATH_DEPTH.

Global Instance plain_item_dec (fs : FS) (k : list string) :
  Decision (plain_item fs k).
Proof. unfold plain_item. apply _. Defined.

(** A directory is stored at [k], or nothing. *)
Definition dir_or_missing (fs : FS) (k : list string) : Prop :=
  match fs !! k with
  | Some (Dir _) | None => True
  | _ => False
  end.

Global Instance dir_or_missing_dec (fs : FS) (k : list string) :
  Decision (dir_or_missing fs k).
Proof. unfold dir_or_missing. destruct (fs !! k) as [[| |]|]; apply _. Defined.


(** A printed line, as opposed to a child process. *)
Definition line (o : output) : Prop :=
  match o with
  | Exec _ _ _ => False
  | _ => True
  end.

(** The three [git] steps of a command. *)
Definition git_steps (repoDir : path) (message : string)
    : list (path * string * list string) :=
  [ (repoDir, "git", ["add"; "."]);
    (repoDir, "git", ["commit"; "-m"; message]);
    (repoDir, "git", ["push"]) ].

(** * Notions used in the proofs *)

(** ** Computations that agree on the file system *)

(** [agree R s s']: the same file system, outputs related by [R]. *)
Definition agree (R : relation (list output)) (s s' : state) : Prop :=
  fs s = fs s' ∧ R (out s) (out s').

(** [sim R m m']: started on states that agree, the computations [m] and
    [m'] return the same value and end in states that agree. *)
Definition sim {A} (R : relation (list output)) (m m' : M A) : Prop :=
  ∀ s s', agree R s s' → (m s).1 = (m' s').1 ∧ agree R (m s).2 (m' s').2.

(** [R] relates the lines [o] and [o'] when they are added. *)
Definition adds (R : relation (list output)) (o o' : output) : Prop :=
  ∀ l l', R l l' → R (l ++ [o]) (l' ++ [o']).

(** Outputs compared not at all. *)
Definition any_output : relation (list output) := λ _ _, True.

(** ** Resolution *)

(** The directory a resolution stands in. *)
Definition stands (fs : FS) (cur : list string) (n : node) : Prop :=
  node_at fs cur = Some n ∧ is_dir n = true.

(** What a resolution's outcome says about the tree. *)
Definition sound_result (fs : FS) (r : lookup_result) : Prop :=
  match r with
  | Found k nd => node_at fs k = Some nd
  | Missing kp c =>
      fs !! (kp ++ [c]) = None ∧ (∃ m, node_at fs kp = Some (Dir m)) ∧ proper c
  | Fail _ => True
  end.

(** What one more component does to a stretch that followed links. *)
Definition snoc_stretch (fs : FS) (f : bool) (c : string) (x : stretch)
    : stretch :=
  match x with
  | Done (Found k (Dir m)) => walk1 fs f k (Dir m) [c]
  | Done (Found _ (File _ _)) => Done (Fail ENOTDIR)
  | Done (Found _ (Symlink _ _)) => Done (Fail ENOENT)
  | Done (Missing _ _) => Done (Fail ENOENT)
  | Done (Fail e) => Done (Fail e)
  | Jump cur n rest => Jump cur n (rest ++ [c])
  end.

(** ** Growing file systems *)

(** [node_le n n']: the same object, except that a file may hold other
    bytes. *)
Definition node_le (n n' : node) : Prop :=
  match n, n' with
  | File p _, File p' _ => p = p'
  | _, _ => n = n'
  end.

(** [fs_le fs fs']: every object of [fs] is still there in [fs'], with the
    same kind; files may have been rewritten and objects added. *)
Definition fs_le (fs fs' : FS) : Prop :=
  ∀ k n, fs !! k = Some n → ∃ n', fs' !! k = Some n' ∧ node_le n n'.

(** ** The loop of [copyDir] *)

Definition entry_info (e : string * node) : FileInfo :=
  {| Name := e.1; Mode := mode_of e.2 |}.

(** The destination while the entries [es] of the source are still to be
    copied: outside the destination nothing has changed, inside it there
    are the copies of the entries already done. *)
Definition copying (umask : Z) (fsA fs : FS) (ks kd : list string)
    (es : list (string * node)) : Prop :=
  wf fs ∧ fsA ⊆ fs ∧
  (∀ k, ¬ kd `prefix_of` k → fs !! k = fsA !! k) ∧
  (∀ c r, fs !! (kd ++ c :: r) =
     if decide (c ∈ es.*1) then None
     else copy_node umask <$> fsA !! (ks ++ c :: r)).

(** The specification of [copyDir_at], for the induction on the depth. *)
Definition copyDir_spec (E : env) (depth : nat) : Prop :=
  ∀ (src dst : path) (s : state) (ks : list string) (ms : Z)
    (kp : list string) (c : string),
    wf (fs s) → Forall proper src → Forall proper dst →
    resolve (fs s) true src = Found ks (Dir ms) →
    plain_tree (fs s) ks → shallow (fs s) ks depth →
    resolve (fs s) false dst = Missing kp c →
    ¬ ks `prefix_of` (kp ++ [c]) →
    ∃ fs', copyDir_at E depth src dst s
             = (None, {| fs := fs'; out := out s |}) ∧
           copied (env_umask E) (fs s) fs' ks (kp ++ [c]).

(** ** What a computation writes *)

(** [writes P m]: all that [m] does to the output is to add to it, and
    what it adds satisfies [P]. *)
Definition writes {A} (P : output → Prop) (m : M A) : Prop :=
  ∀ s, ∃ l, out (m s).2 = out s ++ l ∧ Forall P l.

(** * A home directory and a repository, for the examples *)

Definition home : path := ["home"; "u"].
Definition repo : path := ["home"; "u"; "gotfiles"].
Definition dotfiles : path := ["home"; "u"; "gotfiles"; "dotfiles"].

(** The usual mask 022; every [git] step succeeds. *)
Definition E0 : env :=
  {| env_home := Some home;
     env_cwd := Some repo;
     env_umask := 18;
     env_git := λ _, None |}.

Definition start (tree : FS) : state := {| fs := tree; out := [] |}.

Definition alias_bytes : list Byte.byte :=
  [Byte.x61; Byte.x6c; Byte.x69; Byte.x61; Byte.x73].

(** The home directory and the repository working directory, before any
    run: there is no [dotfiles] directory. *)
Definition tree_bare : FS :=
  list_to_map
    [ (["home"], Dir 493);
      (["home"; "u"], Dir 448);
      (["home"; "u"; "gotfiles"], Dir 493) ].

(** An empty [dotfiles] directory. *)
Definition tree_empty_repo : FS :=
  <[ ["home"; "u"; "gotfiles"; "dotfiles"] := Dir 493 ]> tree_bare.

(** A [.bashrc] in the home directory, not in the repository. *)
Definition tree_fresh : FS :=
  <[ ["home"; "u"; ".bashrc"] := File 420 alias_bytes ]> tree_empty_repo.

(** The same after a successful init: the file is in the repository and
    the home directory has the link. *)
Definition tree_linked : FS :=
  <[ ["home"; "u"; ".bashrc"] :=
       Symlink true ["home"; "u"; "gotfiles"; "dotfiles"; ".bashrc"] ]>
  (<[ ["home"; "u"; "gotfiles"; "dotfiles"; ".bashrc"] :=
        File 420 alias_bytes ]> tree_empty_repo).

(** A new machine: the repository holds [.bashrc] and
    [.config/starship.toml], the home directory holds neither, and has no
    [.config] directory. *)
Definition tree_new_machine : FS :=
  <[ ["home"; "u"; "gotfiles"; "dotfiles"; ".bashrc"] :=
       File 420 alias_bytes ]>
  (<[ ["home"; "u"; "gotfiles"; "dotfiles"; ".config"; "starship.toml"] :=
        File 420 alias_bytes ]>
  (<[ ["home"; "u"; "gotfiles"; "dotfiles"; ".config"] := Dir 493 ]>
   tree_empty_repo)).

(** The home directory holds [.config/foo]; in the repository, [.config] is
    a regular file, so that no directory [.config] can be made there. *)
Definition tree_blocked : FS :=
  <[ ["home"; "u"; ".config"; "foo"] := File 384 alias_bytes ]>
  (<[ ["home"; "u"; ".config"] := Dir 448 ]>
  (<[ ["home"; "u"; "gotfiles"; "dotfiles"; ".config"] := File 420 [] ]>
   tree_empty_repo)).

(** The home directory holds [.config/foo]; the repository is empty. *)
Definition tree_nested : FS :=
  <[ ["home"; "u"; ".config"; "foo"] := File 384 alias_bytes ]>
  (<[ ["home"; "u"; ".config"] := Dir 448 ]> tree_empty_repo).

(** The new machine with an empty [.config] directory in the home
    directory. *)
Definition tree_new_machine_config : FS :=
  <[ ["home"; "u"; ".config"] := Dir 448 ]> tree_new_machine.

(** The directory [.config] was moved to the repository by an earlier run:
    in the home directory it is a link to the repository's [.config], which
    holds [foo]. *)
Definition tree_config_linked : FS :=
  <[ ["home"; "u"; ".config"] :=
       Symlink true ["home"; "u"; "gotfiles"; "dotfiles"; ".config"] ]>
  (<[ ["home"; "u"; "gotfiles"; "dotfiles"; ".config"; "foo"] :=
        File 384 alias_bytes ]>
  (<[ ["home"; "u"; "gotfiles"; "dotfiles"; ".config"] := Dir 448 ]>
   tree_empty_repo)).

(** A directory [d] in the home directory: a file, and a subdirectory with
    a file. *)
Definition tree_dir : FS :=
  <[ ["home"; "u"; "d"; "sub"; "x"] := File 384 alias_bytes ]>
  (<[ ["home"; "u"; "d"; "sub"] := Dir 448 ]>
  (<[ ["home"; "u"; "d"; "a"] := File 420 alias_bytes ]>
  (<[ ["home"; "u"; "d"] := Dir 511 ]> tree_empty_repo))).


(** ** More trees for the examples *)

(** A [.bashrc] in the home directory, and a regular file where the
    [dotfiles] directory should be. *)
Definition tree_no_directory : FS :=
  <[ ["home"; "u"; ".bashrc"] := File 420 alias_bytes ]>
  (<[ ["home"; "u"; "gotfiles"; "dotfiles"] := File 420 [] ]> tree_bare).

(** The text [{"dotfiles": [".bashrc"]}] of a configuration file. *)
Definition config_text : list Byte.byte :=
  [Byte.x7b; Byte.x22; Byte.x64; Byte.x6f; Byte.x74; Byte.x66; Byte.x69;
   Byte.x6c; Byte.x65; Byte.x73; Byte.x22; Byte.x3a; Byte.x20; Byte.x5b;
   Byte.x22; Byte.x2e; Byte.x62; Byte.x61; Byte.x73; Byte.x68; Byte.x72;
   Byte.x63; Byte.x22; Byte.x5d; Byte.x7d].

(** A decoder for the examples, which knows this one text. *)
Definition decode_example (data : list Byte.byte) (cfg : Config)
    : Config * option error :=
  if decide (data = config_text) then ({| Dotfiles := [".bashrc"] |}, None)
  else (cfg, Some (errorString "unexpected end of JSON input")).

(** [tree_fresh] and [tree_bare] with that configuration file in the
    working directory. *)
Definition tree_fresh_config : FS :=
  <[ ["home"; "u"; "gotfiles"; "config.json"] := File 420 config_text ]>
  tree_fresh.

Definition tree_bare_config : FS :=
  <[ ["home"; "u"; "gotfiles"; "config.json"] := File 420 config_text ]>
  tree_bare.

(** [.bashrc] in the home directory and an older [.bashrc], with another
    mode, in the repository. *)
Definition tree_older_copy : FS :=
  <[ ["home"; "u"; ".bashrc"] := File 420 alias_bytes ]>
  (<[ ["home"; "u"; "gotfiles"; "dotfiles"; ".bashrc"] :=
        File 384 [Byte.x61] ]> tree_empty_repo).

(** A regular file [.config] in the home directory. *)
Definition tree_config_file : FS :=
  <[ ["home"; "u"; ".config"] := File 420 [] ]> tree_new_machine.

(** The directory [d] with a symbolic link [l] to its subdirectory
    [sub]. *)
Definition tree_dir_sublink : FS :=
  <[ ["home"; "u"; "d"; "l"] := Symlink false ["sub"] ]> tree_dir.


(** [.bashrc] and a directory [.config], with a file two levels down, in
    the home directory, and no [dotfiles] directory yet. *)
Definition tree_file_and_directory : FS :=
  <[ ["home"; "u"; ".bashrc"] := File 420 alias_bytes ]>
  (<[ ["home"; "u"; ".config"; "nvim"; "init.vim"] :=
        File 384 [Byte.x76; Byte.x69] ]>
  (<[ ["home"; "u"; ".config"; "nvim"] := Dir 448 ]>
  (<[ ["home"; "u"; ".config"] := Dir 493 ]> tree_bare))).

(** * Properties *)

(** ** File modes *)

Lemma land_perm_bit (p m : Z) :
  Z.land ModePerm m = 0 → Z.land (Z.land p ModePerm) m = 0.
Proof. intros H. rewrite <- Z.land_assoc, H. apply Z.land_0_r. Qed.

(** The test [fi.Mode()&os.ModeSymlink != 0] holds of symbolic links only. *)
Lemma mode_symlink_test (n : node) :
  negb (Z.eqb (Z.land (mode_of n) ModeSymlink) 0) = is_symlink n.
Proof.
  destruct n as [p d|p|a t]; simpl.
  - rewrite land_perm_bit by reflexivity. reflexivity.
  - rewrite Z.land_lor_distr_l, land_perm_bit by reflexivity. reflexivity.
  - reflexivity.
Qed.

(** [fi.IsDir()] holds of directories only. *)
Lemma mode_dir_test (name : string) (n : node) :
  IsDir {| Name := name; Mode := mode_of n |} = is_dir n.
Proof.
  unfold IsDir. destruct n as [p d|p|a t]; simpl.
  - rewrite land_perm_bit by reflexivity. reflexivity.
  - rewrite Z.land_lor_distr_l, land_perm_bit by reflexivity. reflexivity.
  - reflexivity.
Qed.

(** ** Running the program's computations *)

Arguments filepath_Join : simpl never.
Arguments resolve : simpl never.
Arguments os_Lstat : simpl never.
Arguments os_Stat : simpl never.
Arguments os_MkdirAll : simpl never.
Arguments os_Create : simpl never.
Arguments os_Remove : simpl never.
Arguments os_RemoveAll : simpl never.
Arguments os_Symlink : simpl never.
Arguments io_Copy : simpl never.
Arguments copyFile : simpl never.
Arguments copyDir : simpl never.
Arguments String.append : simpl never.
Arguments show_path : simpl never.

Ltac unfold_M :=
  unfold mbind, mret, M_bind, M_ret, read, call, emit in *.

Lemma lstat_found (fs : FS) (p : path) (k : list string) (n : node) :
  resolve fs false p = Found k n →
  os_Lstat fs p = Ok {| Name := List.last p ""; Mode := mode_of n |}.
Proof. unfold os_Lstat. intros ->. reflexivity. Qed.

Lemma stat_found (fs : FS) (p : path) (k : list string) (n : node) :
  resolve fs true p = Found k n →
  os_Stat fs p = Ok {| Name := List.last p ""; Mode := mode_of n |}.
Proof. unfold os_Stat. intros ->. reflexivity. Qed.

Arguments IsDir : simpl never.
Arguments mode_of : simpl never.

(** ** Cleaned paths *)

Lemma proper_cases (c : string) :
  proper c ↔ c ≠ "" ∧ c ≠ "." ∧ c ≠ "..".
Proof.
  unfold proper, special.
  repeat case_bool_decide; simpl; intuition congruence.
Qed.

Lemma clean_go_proper (acc p : list string) :
  Forall proper acc → Forall proper (clean_go acc p).
Proof.
  revert acc. induction p as [|c p IH]; intros acc Hacc; simpl.
  - by apply Forall_rev.
  - repeat case_bool_decide; simpl; apply IH; try done.
    + destruct acc; [done|]. by eapply Forall_cons_1.
    + constructor; [|done]. apply proper_cases. tauto.
Qed.

Lemma clean_go_id (acc p : list string) :
  Forall proper p → clean_go acc p = rev acc ++ p.
Proof.
  revert acc. induction p as [|c p IH]; intros acc Hp; simpl.
  - by rewrite app_nil_r.
  - apply Forall_cons_1 in Hp as [Hc Hp]. apply proper_cases in Hc.
    repeat case_bool_decide; simpl; try tauto.
    rewrite IH by done. simpl. by rewrite <- app_assoc.
Qed.

Lemma Clean_proper (p : path) : Forall proper (filepath_Clean p).
Proof. by apply clean_go_proper. Qed.

Lemma Join_proper (a b : path) : Forall proper (filepath_Join a b).
Proof. apply Clean_proper. Qed.

Lemma Join_snoc (p : path) (c : string) :
  Forall proper p → proper c → filepath_Join p [c] = p ++ [c].
Proof.
  intros Hp Hc. unfold filepath_Join, filepath_Clean.
  rewrite clean_go_id; [done|]. apply Forall_app. split; [done|].
  by constructor.
Qed.

Lemma Dir_snoc (p : path) (c : string) : filepath_Dir (p ++ [c]) = p.
Proof. apply removelast_last. Qed.

(** ** Path resolution *)

Lemma node_at_snoc (fs : FS) (k : list string) (c : string) :
  node_at fs (k ++ [c]) = fs !! (k ++ [c]).
Proof. by destruct k. Qed.

Lemma stands_root (fs : FS) : stands fs [] (Dir root_perm).
Proof. done. Qed.

Lemma walk1_sound (fs : FS) (f : bool) (cur : list string) (n : node)
    (rest : list string) :
  stands fs cur n →
  match walk1 fs f cur n rest with
  | Done r => sound_result fs r
  | Jump cur' n' _ => stands fs cur' n'
  end.
Proof.
  revert cur n. induction rest as [|c rest IH]; intros cur n Hst; simpl.
  - apply Hst.
  - case_bool_decide as H1; simpl; [by apply IH|].
    case_bool_decide as H2; simpl; [by apply IH|].
    case_bool_decide as H3; simpl.
    + destruct (node_at fs (removelast cur)) as [[| |]|] eqn:Hp; try done.
      by apply IH.
    + assert (proper c) as Hc by (apply proper_cases; tauto).
      destruct (fs !! (cur ++ [c])) as [[p d|p|a t]|] eqn:Hl.
      * destruct rest; simpl; [|done]. by rewrite node_at_snoc.
      * apply IH. split; [|done]. by rewrite node_at_snoc.
      * destruct rest, f, a; simpl; try done; by rewrite ?node_at_snoc.
      * destruct rest; simpl; [|done]. split; [done|]. split; [|done].
        destruct Hst as [Hn Hd]. destruct n; try done. eauto.
Qed.

Lemma walk_sound (fs : FS) (b : nat) (f : bool) (cur : list string) (n : node)
    (rest : list string) :
  stands fs cur n → sound_result fs (walk fs b f cur n rest).
Proof.
  revert cur n rest. induction b as [|b IH]; intros cur n rest Hst; simpl;
    pose proof (walk1_sound fs f cur n rest Hst) as H1;
    destruct (walk1 fs f cur n rest) as [r|cur' n' rest']; try done.
  by apply IH.
Qed.

Lemma resolve_sound (fs : FS) (f : bool) (p : path) :
  sound_result fs (resolve fs f p).
Proof. apply walk_sound, stands_root. Qed.

(** [lstat] and [stat] differ on a link in the last position only. *)
Lemma walk1_nofollow_follow (fs : FS) (cur : list string) (n : node)
    (rest : list string) :
  match walk1 fs false cur n rest with
  | Done (Found k nd) =>
      is_symlink nd = false ∨ rest = [] →
      walk1 fs true cur n rest = Done (Found k nd)
  | x => walk1 fs true cur n rest = x
  end.
Proof.
  revert cur n. induction rest as [|c rest IH]; intros cur n; simpl.
  - done.
  - assert (∀ cur n, match walk1 fs false cur n rest with
      | Done (Found k nd) =>
          is_symlink nd = false ∨ c :: rest = [] →
          walk1 fs true cur n rest = Done (Found k nd)
      | x => walk1 fs true cur n rest = x
      end) as IH'.
    { intros cur' n'. specialize (IH cur' n').
      destruct (walk1 fs false cur' n' rest) as [[| |]|]; try done.
      intros [H|H]; [|done]. apply IH. by left. }
    repeat case_bool_decide; simpl; try apply IH'.
    + destruct (node_at fs (removelast cur)) as [[| |]|] eqn:Hp; try done.
      apply IH'.
    + destruct (fs !! (cur ++ [c])) as [[p d|p|a t]|] eqn:Hl.
      * by destruct rest.
      * apply IH'.
      * destruct rest, a; try done; by intros [|].
      * by destruct rest.
Qed.

Lemma walk_nofollow_follow (fs : FS) (b : nat) (cur : list string) (n : node)
    (rest : list string) (k : list string) (nd : node) :
  walk fs b false cur n rest = Found k nd →
  is_symlink nd = false →
  walk fs b true cur n rest = Found k nd.
Proof.
  revert cur n rest. induction b as [|b IH]; intros cur n rest; simpl;
    pose proof (walk1_nofollow_follow fs cur n rest) as H1;
    destruct (walk1 fs false cur n rest) as [[k' nd'| |]|cur' n' rest'];
    try (rewrite H1; by auto).
  - intros [= -> ->] Hs. rewrite H1; auto.
  - intros [= -> ->] Hs. rewrite H1; auto.
Qed.

Lemma walk_nofollow_missing (fs : FS) (b : nat) (cur : list string) (n : node)
    (rest : list string) (kp : list string) (c : string) :
  walk fs b false cur n rest = Missing kp c →
  walk fs b true cur n rest = Missing kp c.
Proof.
  revert cur n rest. induction b as [|b IH]; intros cur n rest; simpl;
    pose proof (walk1_nofollow_follow fs cur n rest) as H1;
    destruct (walk1 fs false cur n rest) as [[k' nd'| |]|cur' n' rest'];
    try done; try (rewrite H1; by auto).
Qed.

(** *** Growing file systems *)

Global Instance node_le_refl : Reflexive node_le.
Proof. by intros [| |]. Qed.

Global Instance node_le_trans : Transitive node_le.
Proof. intros [| |] [| |] [| |]; simpl; congruence. Qed.

Global Instance fs_le_refl : Reflexive fs_le.
Proof. intros fs k n H. by exists n. Qed.

Global Instance fs_le_trans : Transitive fs_le.
Proof.
  intros a b c Hab Hbc k n H.
  destruct (Hab k n H) as (n' & H' & Hn).
  destruct (Hbc k n' H') as (n'' & H'' & Hn').
  exists n''. split; [done|]. by etrans.
Qed.

Lemma fs_le_insert_new (fs : FS) (k : list string) (n : node) :
  fs !! k = None → fs_le fs (<[k := n]> fs).
Proof.
  intros Hk k' n' H. exists n'. split; [|done].
  rewrite lookup_insert_ne; [done|]. congruence.
Qed.

Lemma fs_le_insert_file (fs : FS) (k : list string) (p : Z)
    (d d' : list Byte.byte) :
  fs !! k = Some (File p d) → fs_le fs (<[k := File p d']> fs).
Proof.
  intros Hk k' n' H. destruct (decide (k = k')) as [<-|Hne].
  - rewrite lookup_insert_eq. eexists. split; [done|]. by simplify_eq.
  - rewrite lookup_insert_ne by done. by exists n'.
Qed.

Lemma node_at_le (fs fs' : FS) (k : list string) (n : node) :
  fs_le fs fs' → node_at fs k = Some n →
  ∃ n', node_at fs' k = Some n' ∧ node_le n n'.
Proof.
  intros Hle. destruct k; simpl; [|apply Hle].
  intros [= <-]. by eexists.
Qed.

Lemma node_le_dir (p : Z) (n' : node) : node_le (Dir p) n' → n' = Dir p.
Proof. by destruct n'. Qed.

Lemma node_le_symlink (a : bool) (t : list string) (n' : node) :
  node_le (Symlink a t) n' → n' = Symlink a t.
Proof. by destruct n'. Qed.

Lemma node_le_file (p : Z) (d : list Byte.byte) (n' : node) :
  node_le (File p d) n' → ∃ d', n' = File p d'.
Proof. destruct n'; simpl; try done. intros ->. eauto. Qed.

Lemma walk1_mono (fs fs' : FS) (f : bool) (cur : list string) (n : node)
    (rest : list string) :
  fs_le fs fs' →
  match walk1 fs f cur n rest with
  | Done (Found k nd) =>
      ∃ nd', walk1 fs' f cur n rest = Done (Found k nd') ∧ node_le nd nd'
  | Done _ => True
  | Jump cur' n' rest' => walk1 fs' f cur n rest = Jump cur' n' rest'
  end.
Proof.
  intros Hle. revert cur n. induction rest as [|c rest IH]; intros cur n; simpl.
  - by exists n.
  - repeat case_bool_decide; simpl; try apply IH.
    + destruct (node_at fs (removelast cur)) as [[| |]|] eqn:Hp; try done.
      destruct (node_at_le _ _ _ _ Hle Hp) as (n' & -> & ->%node_le_dir).
      apply IH.
    + destruct (fs !! (cur ++ [c])) as [[p d|p|a t]|] eqn:Hl.
      * destruct (Hle _ _ Hl) as (n' & -> & [d' ->]%node_le_file).
        destruct rest; [|done]. eexists. split; [reflexivity|done].
      * destruct (Hle _ _ Hl) as (n' & -> & ->%node_le_dir). apply IH.
      * destruct (Hle _ _ Hl) as (n' & -> & ->%node_le_symlink).
        destruct rest, f, a; try done; eexists; (split; [reflexivity|done]).
      * by destruct rest.
Qed.

Lemma walk_mono (fs fs' : FS) (b : nat) (f : bool) (cur : list string)
    (n : node) (rest : list string) (k : list string) (nd : node) :
  fs_le fs fs' →
  walk fs b f cur n rest = Found k nd →
  ∃ nd', walk fs' b f cur n rest = Found k nd' ∧ node_le nd nd'.
Proof.
  intros Hle. revert cur n rest.
  induction b as [|b IH]; intros cur n rest; simpl;
    pose proof (walk1_mono fs fs' f cur n rest Hle) as H1;
    destruct (walk1 fs f cur n rest) as [[k' nd'| |]|cur' n' rest'];
    try done.
  - intros [= -> ->]. destruct H1 as (nd' & -> & Hn). by exists nd'.
  - intros [= -> ->]. destruct H1 as (nd' & -> & Hn). by exists nd'.
  - rewrite H1. apply IH.
Qed.

Lemma resolve_mono (fs fs' : FS) (f : bool) (p : path) (k : list string)
    (nd : node) :
  fs_le fs fs' →
  resolve fs f p = Found k nd →
  ∃ nd', resolve fs' f p = Found k nd' ∧ node_le nd nd'.
Proof. apply walk_mono. Qed.

(** *** The last component *)

Lemma walk1_jump_dir (fs : FS) (f : bool) (cur : list string) (n : node)
    (rest : list string) (cur' : list string) (n' : node) (rest' : list string) :
  is_dir n = true →
  walk1 fs f cur n rest = Jump cur' n' rest' → is_dir n' = true.
Proof.
  revert cur n. induction rest as [|c rest IH]; intros cur n Hn; simpl; [done|].
  repeat case_bool_decide; simpl; try by apply IH.
  - destruct (node_at fs (removelast cur)) as [[| |]|]; try done. by apply IH.
  - destruct (fs !! (cur ++ [c])) as [[p d|p|a t]|].
    + by destruct rest.
    + by apply IH.
    + destruct rest, f, a; try done; by intros [= <- <- <-].
    + by destruct rest.
Qed.

Lemma walk1_snoc (fs : FS) (f : bool) (cur : list string) (n : node)
    (rest : list string) (c : string) :
  is_dir n = true →
  walk1 fs f cur n (rest ++ [c]) = snoc_stretch fs f c (walk1 fs true cur n rest).
Proof.
  revert cur n. induction rest as [|x rest IH]; intros cur n Hn.
  - destruct n; done.
  - simpl. repeat case_bool_decide; simpl; try by apply IH.
    + destruct (node_at fs (removelast cur)) as [[| |]|]; try done. by apply IH.
    + destruct (fs !! (cur ++ [x])) as [[p d|p|a t]|].
      * by destruct rest.
      * by apply IH.
      * destruct rest, f, a; simpl; by rewrite <- ?app_assoc.
      * by destruct rest.
Qed.

Lemma walk1_last (fs : FS) (f : bool) (k : list string) (m : Z) (c : string) :
  proper c →
  walk1 fs f k (Dir m) [c] =
    match fs !! (k ++ [c]) with
    | None => Done (Missing k c)
    | Some (Symlink a t) =>
        if f then
          if a then Jump [] (Dir root_perm) (t ++ [])
          else Jump k (Dir m) (t ++ [])
        else Done (Found (k ++ [c]) (Symlink a t))
    | Some nd => Done (Found (k ++ [c]) nd)
    end.
Proof.
  intros Hc%proper_cases. simpl.
  repeat case_bool_decide; simpl; try tauto.
  destruct (fs !! (k ++ [c])) as [[p d|p|a t]|]; try done.
Qed.

Lemma walk_snoc (fs : FS) (b : nat) (f : bool) (cur : list string) (n : node)
    (rest : list string) (c : string) (k : list string) (m : Z)
    (r : lookup_result) :
  is_dir n = true →
  walk fs b true cur n rest = Found k (Dir m) →
  walk1 fs f k (Dir m) [c] = Done r →
  walk fs b f cur n (rest ++ [c]) = r.
Proof.
  revert cur n rest. induction b as [|b IH]; intros cur n rest Hn; simpl;
    rewrite walk1_snoc by done;
    pose proof (walk1_jump_dir fs true cur n rest) as Hj;
    destruct (walk1 fs true cur n rest) as [[k' nd'| |]|cur' n' rest'];
    try done.
  - intros [= -> ->]. simpl. by intros ->.
  - intros [= -> ->]. simpl. by intros ->.
  - simpl. intros H1 H2. eapply IH; eauto.
Qed.

(** A path whose last component is missing: its parent resolves to the
    directory in which it is missing. *)
Lemma walk_snoc_missing (fs : FS) (b : nat) (cur : list string) (n : node)
    (rest : list string) (c : string) (kp : list string) (c' : string) :
  is_dir n = true → proper c →
  walk fs b false cur n (rest ++ [c]) = Missing kp c' →
  c' = c ∧ ∃ m, walk fs b true cur n rest = Found kp (Dir m).
Proof.
  intros Hn Hc. revert cur n rest Hn.
  induction b as [|b IH]; intros cur n rest Hn; simpl;
    rewrite walk1_snoc by done;
    pose proof (walk1_jump_dir fs true cur n rest) as Hj;
    destruct (walk1 fs true cur n rest) as [[k' [p d|p|a t]| |]|cur' n' rest'];
    unfold snoc_stretch; try done.
  - rewrite walk1_last by done.
    destruct (fs !! (k' ++ [c])) as [[| |]|]; try done.
    intros [= -> ->]. eauto.
  - rewrite walk1_last by done.
    destruct (fs !! (k' ++ [c])) as [[| |]|]; try done.
    intros [= -> ->]. eauto.
  - intros H. eapply IH; eauto.
Qed.

(** *** Resolution after a file is removed *)

Lemma stands_not_file (fs : FS) (cur : list string) (n : node)
    (kx : list string) (p : Z) (d : list Byte.byte) :
  stands fs cur n → kx ≠ [] → fs !! kx = Some (File p d) → cur ≠ kx.
Proof.
  intros [Hn Hd] Hx Hf ->. destruct kx; [done|]. simpl in Hn.
  rewrite Hf in Hn. by simplify_eq.
Qed.

Lemma walk1_delete (fs : FS) (f : bool) (cur : list string) (n : node)
    (rest : list string) (kx : list string) (p : Z) (d : list Byte.byte) :
  fs !! kx = Some (File p d) → kx ≠ [] → stands fs cur n →
  match walk1 fs f cur n rest with
  | Done (Found k nd) =>
      if decide (k = kx) then
        ∃ kp c, kx = kp ++ [c] ∧
          walk1 (delete kx fs) f cur n rest = Done (Missing kp c)
      else walk1 (delete kx fs) f cur n rest = Done (Found k nd)
  | Done (Missing kp c) =>
      walk1 (delete kx fs) f cur n rest = Done (Missing kp c)
  | Done (Fail _) => True
  | Jump cur' n' rest' => walk1 (delete kx fs) f cur n rest = Jump cur' n' rest'
  end.
Proof.
  intros Hx Hne. revert cur n.
  induction rest as [|c rest IH]; intros cur n Hst; simpl.
  - rewrite decide_False; [done|]. by eapply stands_not_file.
  - repeat case_bool_decide; simpl; try by apply IH.
    + destruct (node_at fs (removelast cur)) as [[|q|]|] eqn:Hp; try done.
      assert (node_at (delete kx fs) (removelast cur) = Some (Dir q)) as ->.
      { destruct (removelast cur) eqn:Hr; [done|]. simpl in *.
        rewrite lookup_delete_ne; [done|]. intros ->. congruence. }
      by apply IH.
    + destruct (fs !! (cur ++ [c])) as [[q e|q|a t]|] eqn:Hl.
      * destruct (decide (cur ++ [c] = kx)) as [<-|Hk].
        -- rewrite lookup_delete_eq. destruct rest; [|done].
           rewrite decide_True by done. eauto.
        -- rewrite lookup_delete_ne by done. rewrite Hl.
           destruct rest; [|done]. by rewrite decide_False.
      * rewrite lookup_delete_ne by congruence. rewrite Hl.
        apply IH. split; [|done]. by rewrite node_at_snoc.
      * rewrite lookup_delete_ne by congruence. rewrite Hl.
        destruct rest, f, a; try done.
        all: rewrite decide_False; [done|congruence].
      * assert (delete kx fs !! (cur ++ [c]) = None) as ->.
        { apply lookup_delete_None. by right. }
        by destruct rest.
Qed.

Lemma walk_delete (fs : FS) (b : nat) (f : bool) (cur : list string) (n : node)
    (rest : list string) (kx : list string) (p : Z) (d : list Byte.byte)
    (k : list string) (nd : node) :
  fs !! kx = Some (File p d) → kx ≠ [] → stands fs cur n →
  walk fs b f cur n rest = Found k nd →
  if decide (k = kx) then
    ∃ kp c, kx = kp ++ [c] ∧ walk (delete kx fs) b f cur n rest = Missing kp c
  else walk (delete kx fs) b f cur n rest = Found k nd.
Proof.
  intros Hx Hne. revert cur n rest.
  induction b as [|b IH]; intros cur n rest Hst; simpl;
    pose proof (walk1_delete fs f cur n rest kx p d Hx Hne Hst) as H1;
    pose proof (walk1_sound fs f cur n rest Hst) as H2;
    destruct (walk1 fs f cur n rest) as [[k' nd'| |]|cur' n' rest'];
    try done.
  - intros [= -> ->]. destruct (decide (k = kx)).
    + destruct H1 as (kp & c & -> & ->). eauto.
    + by rewrite H1.
  - intros [= -> ->]. destruct (decide (k = kx)).
    + destruct H1 as (kp & c & -> & ->). eauto.
    + by rewrite H1.
  - rewrite H1. by apply IH.
Qed.

(** *** Creating the missing last component *)

Lemma walk1_insert_missing (fs : FS) (f : bool) (cur : list string) (n : node)
    (rest : list string) (kp : list string) (c : string) (nd : node) :
  fs !! (kp ++ [c]) = None →
  f = false ∨ is_symlink nd = false →
  match walk1 fs f cur n rest with
  | Done (Missing kp' c') =>
      kp' = kp → c' = c →
      walk1 (<[kp ++ [c] := nd]> fs) f cur n rest
        = Done (Found (kp ++ [c]) nd)
  | Done _ => True
  | Jump cur' n' rest' =>
      walk1 (<[kp ++ [c] := nd]> fs) f cur n rest = Jump cur' n' rest'
  end.
Proof.
  intros Hnew Hf. revert cur n.
  induction rest as [|x rest IH]; intros cur n; simpl; [done|].
  repeat case_bool_decide; simpl; try by apply IH.
  - destruct (node_at fs (removelast cur)) as [[|q|]|] eqn:Hp; try done.
    assert (node_at (<[kp ++ [c] := nd]> fs) (removelast cur) = Some (Dir q))
      as ->.
    { destruct (removelast cur) eqn:Hr; [done|]. simpl in *.
      rewrite lookup_insert_ne; [done|]. intros Heq. congruence. }
    by apply IH.
  - destruct (fs !! (cur ++ [x])) as [[q e|q|a t]|] eqn:Hl.
    + by destruct rest.
    + rewrite lookup_insert_ne by congruence. rewrite Hl. by apply IH.
    + rewrite lookup_insert_ne by congruence. rewrite Hl.
      by destruct rest, f, a.
    + destruct rest; [|done]. intros -> ->. rewrite lookup_insert_eq.
      destruct nd; try done. by destruct Hf as [->|?].
Qed.

Lemma walk_insert_missing (fs : FS) (b : nat) (f : bool) (cur : list string)
    (n : node) (rest : list string) (kp : list string) (c : string)
    (nd : node) :
  fs !! (kp ++ [c]) = None →
  f = false ∨ is_symlink nd = false →
  walk fs b f cur n rest = Missing kp c →
  walk (<[kp ++ [c] := nd]> fs) b f cur n rest = Found (kp ++ [c]) nd.
Proof.
  intros Hnew Hf. revert cur n rest.
  induction b as [|b IH]; intros cur n rest; simpl;
    pose proof (walk1_insert_missing fs f cur n rest kp c nd Hnew Hf) as H1;
    destruct (walk1 fs f cur n rest) as [[k' nd'| |]|cur' n' rest'];
    try done.
  - intros [= -> ->]. by rewrite H1.
  - intros [= -> ->]. by rewrite H1.
  - rewrite H1. apply IH.
Qed.

(** ** Trees *)

Lemma wf_lookup (fs : FS) (k : list string) (n : node) :
  wf fs → fs !! k = Some n →
  k ≠ [] ∧ Forall proper k ∧ ∃ p, node_at fs (removelast k) = Some (Dir p).
Proof.
  intros Hwf Hk. destruct (Hwf k n Hk) as (H1 & H2 & H3).
  split; [done|]. split; [done|].
  destruct (node_at fs (removelast k)) as [[| |]|]; try done. eauto.
Qed.

Lemma wf_root (fs : FS) : wf fs → fs !! [] = None.
Proof.
  intros Hwf. destruct (fs !! []) eqn:H; [|done].
  by destruct (wf_lookup _ _ _ Hwf H) as [? _].
Qed.

Lemma wf_parent (fs : FS) (k : list string) (c : string) (n : node) :
  wf fs → fs !! (k ++ [c]) = Some n → ∃ p, node_at fs k = Some (Dir p).
Proof.
  intros Hwf Hk. destruct (wf_lookup _ _ _ Hwf Hk) as (_ & _ & H).
  by rewrite removelast_last in H.
Qed.

Lemma wf_proper_dir (fs : FS) (k : list string) (n : node) :
  wf fs → node_at fs k = Some n → Forall proper k.
Proof.
  intros Hwf. destruct k as [|c k]; [done|]. simpl. intros H.
  by destruct (wf_lookup _ _ _ Hwf H) as (_ & ? & _).
Qed.

Lemma node_at_ne (fs : FS) (k : list string) :
  k ≠ [] → node_at fs k = fs !! k.
Proof. by destruct k. Qed.

(** Nothing is stored below a path that holds nothing, or holds a file. *)
Lemma wf_below_none (fs : FS) (k r : list string) :
  wf fs → k ≠ [] → fs !! k = None → fs !! (k ++ r) = None.
Proof.
  intros Hwf Hk Hn. induction r as [|c r IH] using rev_ind.
  - by rewrite app_nil_r.
  - destruct (fs !! (k ++ r ++ [c])) eqn:H; [|done].
    rewrite app_assoc in H. destruct (wf_parent _ _ _ _ Hwf H) as [p Hp].
    rewrite node_at_ne in Hp by (by destruct k). congruence.
Qed.

Lemma wf_below_file (fs : FS) (k r : list string) (p : Z) (d : list Byte.byte) :
  wf fs → fs !! k = Some (File p d) → r ≠ [] → fs !! (k ++ r) = None.
Proof.
  intros Hwf Hk. induction r as [|c r IH] using rev_ind; [done|]. intros _.
  destruct (fs !! (k ++ r ++ [c])) eqn:H; [|done].
  rewrite app_assoc in H. destruct (wf_parent _ _ _ _ Hwf H) as [q Hq].
  destruct (wf_lookup _ _ _ Hwf Hk) as (Hne & _).
  rewrite node_at_ne in Hq by (by destruct k).
  destruct (decide (r = [])) as [->|Hr].
  - rewrite app_nil_r in Hq. congruence.
  - rewrite IH in Hq; done.
Qed.

Lemma node_at_insert_ne (fs : FS) (k k' : list string) (n : node) :
  k ≠ k' → node_at (<[k := n]> fs) k' = node_at fs k'.
Proof. intros H. destruct k'; [done|]. simpl. by rewrite lookup_insert_ne. Qed.

Lemma wf_insert_new (fs : FS) (kp : list string) (c : string) (m : Z)
    (nd : node) :
  wf fs → node_at fs kp = Some (Dir m) → proper c →
  fs !! (kp ++ [c]) = None → wf (<[kp ++ [c] := nd]> fs).
Proof.
  intros Hwf Hp Hc Hn k n. destruct (decide (kp ++ [c] = k)) as [<-|Hne].
  - intros _. split; [by destruct kp|]. split.
    + apply Forall_app. split; [by eapply wf_proper_dir|by constructor].
    + rewrite removelast_last, node_at_insert_ne.
      * by rewrite Hp.
      * intros H. apply (f_equal length) in H. rewrite length_app in H.
        simpl in H. lia.
  - rewrite lookup_insert_ne by done. intros Hk.
    destruct (wf_lookup _ _ _ Hwf Hk) as (H1 & H2 & [p H3]).
    split; [done|]. split; [done|].
    rewrite node_at_insert_ne; [by rewrite H3|].
    intros H. rewrite <- H, node_at_snoc in H3. congruence.
Qed.

Lemma wf_insert_file (fs : FS) (k : list string) (p p' : Z)
    (d d' : list Byte.byte) :
  wf fs → fs !! k = Some (File p d) → wf (<[k := File p' d']> fs).
Proof.
  intros Hwf Hk k' n. destruct (wf_lookup _ _ _ Hwf Hk) as (H1 & H2 & [q H3]).
  assert (∀ k', k' ≠ [] → (∃ q, node_at fs (removelast k') = Some (Dir q)) →
            ∃ q, node_at (<[k := File p' d']> fs) (removelast k') = Some (Dir q))
    as Hpar.
  { intros k0 Hk0 [q0 Hq0]. exists q0. rewrite node_at_insert_ne; [done|].
    intros H. rewrite <- H in Hq0. destruct k; [done|]. simpl in Hq0.
    congruence. }
  destruct (decide (k = k')) as [<-|Hne].
  - intros _. split; [done|]. split; [done|].
    destruct (Hpar k H1) as [q' ->]; eauto.
  - rewrite lookup_insert_ne by done. intros Hk'.
    destruct (wf_lookup _ _ _ Hwf Hk') as (H1' & H2' & H3').
    split; [done|]. split; [done|].
    destruct (Hpar k' H1' H3') as [q' ->]; eauto.
Qed.

(** ** What the library calls do *)

Lemma resolve_snoc (fs : FS) (f : bool) (p : path) (c : string)
    (k : list string) (m : Z) (r : lookup_result) :
  resolve fs true p = Found k (Dir m) →
  walk1 fs f k (Dir m) [c] = Done r →
  resolve fs f (p ++ [c]) = r.
Proof. by apply walk_snoc. Qed.

Lemma resolve_snoc_missing (fs : FS) (p : path) (c : string)
    (kp : list string) (c' : string) :
  proper c →
  resolve fs false (p ++ [c]) = Missing kp c' →
  c' = c ∧ ∃ m, resolve fs true p = Found kp (Dir m).
Proof. by apply walk_snoc_missing. Qed.

Lemma resolve_insert_missing (fs : FS) (f : bool) (p : path)
    (kp : list string) (c : string) (nd : node) :
  f = false ∨ is_symlink nd = false →
  resolve fs f p = Missing kp c →
  resolve (<[kp ++ [c] := nd]> fs) f p = Found (kp ++ [c]) nd.
Proof.
  intros Hf H. apply walk_insert_missing; [|done..].
  pose proof (resolve_sound fs f p) as Hs. rewrite H in Hs. apply Hs.
Qed.

Lemma resolve_delete (fs : FS) (f : bool) (path : path) (kx : list string)
    (p : Z) (d : list Byte.byte) (k : list string) (nd : node) :
  fs !! kx = Some (File p d) → kx ≠ [] →
  resolve fs f path = Found k nd →
  if decide (k = kx) then
    ∃ kp c, kx = kp ++ [c] ∧ resolve (delete kx fs) f path = Missing kp c
  else resolve (delete kx fs) f path = Found k nd.
Proof. intros Hx Hne. by apply walk_delete with p d. Qed.

(** A resolution in a grown file system finds the same key; the node is
    the one stored there. *)
Lemma resolve_grown (fs fs' : FS) (f : bool) (p : path) (k : list string)
    (nd : node) :
  fs_le fs fs' →
  resolve fs f p = Found k nd →
  ∃ nd', resolve fs' f p = Found k nd' ∧ node_at fs' k = Some nd' ∧
         node_le nd nd'.
Proof.
  intros Hle H. destruct (resolve_mono _ _ _ _ _ _ Hle H) as (nd' & H' & Hn).
  exists nd'. split; [done|]. split; [|done].
  pose proof (resolve_sound fs' f p) as Hs. by rewrite H' in Hs.
Qed.

Section CallSpecs.

Variable umask : Z.

Lemma os_Mkdir_le (fs : FS) (p : path) (perm : Z) :
  fs_le fs (os_Mkdir umask fs p perm).1.
Proof.
  unfold os_Mkdir. pose proof (resolve_sound fs false p) as Hs.
  destruct (resolve fs false p) as [k nd|kp c|e]; simpl; try done.
  apply fs_le_insert_new, Hs.
Qed.

Lemma MkdirAll_rev_le (fs : FS) (rp : list string) (perm : Z) :
  fs_le fs (MkdirAll_rev umask fs rp perm).1.
Proof.
  revert fs. induction rp as [|c rp IH]; intros fs; simpl.
  - destruct (os_Stat fs []) as [dir|e]; [by destruct (IsDir dir)|].
    pose proof (os_Mkdir_le fs [] perm) as Hm.
    destruct (os_Mkdir umask fs [] perm) as [fs2 [e'|]]; [|done].
    destruct (os_Lstat fs2 []) as [dir|e'']; [|done].
    by destruct (IsDir dir).
  - destruct (os_Stat fs (rev rp ++ [c])) as [dir|e];
      [by destruct (IsDir dir)|].
    specialize (IH fs).
    destruct (MkdirAll_rev umask fs rp perm) as [fs1 [e1|]]; [done|].
    pose proof (os_Mkdir_le fs1 (rev rp ++ [c]) perm) as Hm.
    destruct (os_Mkdir umask fs1 (rev rp ++ [c]) perm) as [fs2 [e'|]];
      simpl in *.
    + destruct (os_Lstat fs2 (rev rp ++ [c])) as [dir|e''].
      * destruct (IsDir dir); simpl; by etrans.
      * simpl. by etrans.
    + by etrans.
Qed.

Lemma os_MkdirAll_le (fs : FS) (p : path) (perm : Z) :
  fs_le fs (os_MkdirAll umask fs p perm).1.
Proof. apply MkdirAll_rev_le. Qed.

Lemma os_Create_le (fs : FS) (p : path) :
  fs_le fs (os_Create umask fs p).1.
Proof.
  unfold os_Create. pose proof (resolve_sound fs true p) as Hs.
  destruct (resolve fs true p) as [k [q d|q|a t]|kp c|e]; simpl; try done.
  - destruct k; [done|]. by eapply fs_le_insert_file.
  - apply fs_le_insert_new, Hs.
Qed.

Lemma io_Copy_le (fs : FS) (output input : list string) :
  fs_le fs (io_Copy fs output input).1.
Proof.
  unfold io_Copy. destruct (node_at fs input) as [[q d|q|a t]|]; try done.
  destruct (fs !! output) as [[q' d'|q'|a' t']|] eqn:Ho; try done.
  simpl. by eapply fs_le_insert_file.
Qed.

End CallSpecs.

Section CopyGrows.

Variable E : env.

Lemma copyFile_le (src dst : path) (s : state) :
  fs_le (fs s) (fs (copyFile E src dst s).2).
Proof.
  unfold copyFile. unfold_M. simpl.
  destruct (os_Open (fs s) src) as [input|e]; simpl; [|done].
  pose proof (os_MkdirAll_le (env_umask E) (fs s) (filepath_Dir dst) 493) as H1.
  destruct (os_MkdirAll (env_umask E) (fs s) (filepath_Dir dst) 493)
    as [fs1 [e|]]; simpl in *; [done|].
  pose proof (os_Create_le (env_umask E) fs1 dst) as H2.
  destruct (os_Create (env_umask E) fs1 dst) as [fs2 [output|e]];
    simpl in *; [|by etrans].
  pose proof (io_Copy_le fs2 output input) as H3.
  destruct (io_Copy fs2 output input) as [fs3 err]; simpl in *.
  etrans; [done|]. by etrans.
Qed.

Lemma range_le {A} (l : list A) (body : A → M (option error)) :
  (∀ x s, fs_le (fs s) (fs (body x s).2)) →
  ∀ s, fs_le (fs s) (fs (range l body s).2).
Proof.
  intros Hb. induction l as [|x l IH]; intros s; simpl; [done|].
  unfold mbind, M_bind. specialize (Hb x s).
  destruct (body x s) as [[e|] s1]; simpl in *; [done|].
  etrans; [done|]. apply IH.
Qed.

Lemma copyDir_at_le (depth : nat) (src dst : path) (s : state) :
  fs_le (fs s) (fs (copyDir_at E depth src dst s).2).
Proof.
  revert src dst s. induction depth as [|depth IH]; intros src dst s; simpl;
    [done|].
  unfold_M. simpl.
  destruct (os_Stat (fs s) src) as [srcInfo|e]; simpl; [|done].
  pose proof (os_MkdirAll_le (env_umask E) (fs s) dst (Mode srcInfo)) as H1.
  destruct (os_MkdirAll (env_umask E) (fs s) dst (Mode srcInfo))
    as [fs1 [e|]]; simpl in *; [done|].
  destruct (ioutil_ReadDir fs1 src) as [entries|e]; simpl; [|done].
  etrans; [done|].
  apply (range_le entries _) with (s := {| fs := fs1; out := out s |}).
  intros entry s'. destruct (IsDir entry); [apply IH|apply copyFile_le].
Qed.

Lemma copyDir_le (src dst : path) (s : state) :
  fs_le (fs s) (fs (copyDir E src dst s).2).
Proof. apply copyDir_at_le. Qed.

End CopyGrows.

Lemma stat_err (fs : FS) (p : path) (e : errno) (k : list string) (nd : node) :
  os_Stat fs p = Err e → resolve fs true p ≠ Found k nd.
Proof. unfold os_Stat. intros H Heq. by rewrite Heq in H. Qed.

Lemma lstat_err (fs : FS) (p : path) (e : errno) (k : list string) (nd : node) :
  os_Lstat fs p = Err e → resolve fs false p ≠ Found k nd.
Proof. unfold os_Lstat. intros H Heq. by rewrite Heq in H. Qed.

Lemma is_dir_Dir (nd : node) : is_dir nd = true → ∃ m, nd = Dir m.
Proof. destruct nd; try done. eauto. Qed.

Section MkdirAllSpec.

Variable umask : Z.

(** A successful [os.MkdirAll] leaves a tree that extends the old one, in
    which the path is a directory; if anything was created, that
    directory is new and empty. *)
Lemma MkdirAll_rev_spec (fs : FS) (rp : list string) (perm : Z) (fs' : FS) :
  wf fs → Forall proper rp →
  MkdirAll_rev umask fs rp perm = (fs', None) →
  wf fs' ∧ fs ⊆ fs' ∧
  ∃ k m, resolve fs' true (rev rp) = Found k (Dir m) ∧
    (fs' = fs ∨ (fs !! k = None ∧ k ≠ [] ∧ ∀ c, fs' !! (k ++ [c]) = None)).
Proof.
  intros Hwf. revert fs'. induction rp as [|c rp IH]; intros fs' Hp.
  - simpl. unfold os_Stat. change (resolve fs true []) with
      (Found [] (Dir root_perm)). simpl. intros [= <-].
    split; [done|]. split; [done|]. exists [], root_perm. by split; [|left].
  - apply Forall_cons_1 in Hp as [Hc Hp].
    cbn [MkdirAll_rev]. change (rev (c :: rp)) with (rev rp ++ [c]).
    destruct (os_Stat fs (rev rp ++ [c])) as [dir|e] eqn:Hst.
    + unfold os_Stat in Hst.
      destruct (resolve fs true (rev rp ++ [c])) as [k nd| |] eqn:Hr;
        try done.
      simpl in Hst. injection Hst as <-. rewrite mode_dir_test.
      destruct (is_dir nd) eqn:Hd; [|done].
      intros [= <-]. apply is_dir_Dir in Hd as [m ->].
      split; [done|]. split; [done|]. exists k, m. by split; [|left].
    + destruct (MkdirAll_rev umask fs rp perm) as [fs1 [e1|]] eqn:Hrec;
        [done|].
      destruct (IH fs1 Hp eq_refl) as (Hwf1 & Hsub & kp & m & Hkp & Hnew).
      pose proof (resolve_sound fs1 true (rev rp)) as Hs1.
      rewrite Hkp in Hs1. simpl in Hs1.
      unfold os_Mkdir, os_Lstat.
      destruct (fs1 !! (kp ++ [c])) as [nd|] eqn:Hl.
      * (* the entry exists already *)
        assert (resolve fs1 false (rev rp ++ [c]) = Found (kp ++ [c]) nd)
          as Hfound.
        { eapply resolve_snoc; [done|]. rewrite walk1_last by done.
          rewrite Hl. by destruct nd. }
        rewrite Hfound. simpl. rewrite Hfound. simpl.
        rewrite mode_dir_test.
        destruct (is_dir nd) eqn:Hd; [|done].
        apply is_dir_Dir in Hd as [q ->]. intros _. exfalso.
        destruct Hnew as [->|(_ & _ & Hempty)].
        -- eapply stat_err; [exact Hst|].
           eapply resolve_snoc; [done|]. rewrite walk1_last by done.
           by rewrite Hl.
        -- rewrite Hempty in Hl. done.
      * (* the entry is made *)
        assert (resolve fs1 false (rev rp ++ [c]) = Missing kp c) as ->.
        { eapply resolve_snoc; [done|]. rewrite walk1_last by done.
          by rewrite Hl. }
        intros [= <-].
        set (nd := Dir (Z.land (Z.land perm ModePerm) (Z.lnot umask))).
        split; [by eapply wf_insert_new|].
        split; [etrans; [done|]; by apply insert_subseteq|].
        exists (kp ++ [c]), (Z.land (Z.land perm ModePerm) (Z.lnot umask)).
        split.
        -- destruct (resolve_grown fs1 (<[kp ++ [c] := nd]> fs1) true
                      (rev rp) kp (Dir m)) as (nd' & H1 & _ & H2);
             [by apply fs_le_insert_new|done|].
           apply node_le_dir in H2 as ->.
           eapply resolve_snoc; [done|]. rewrite walk1_last by done.
           by rewrite lookup_insert_eq.
        -- right. split; [by eapply lookup_weaken_None|].
           split; [by destruct kp|]. intros c'.
           rewrite lookup_insert_ne.
           ++ apply wf_below_none; [done|by destruct kp|done].
           ++ intros H. apply (f_equal length) in H.
              rewrite !length_app in H. simpl in H. lia.
Qed.

End MkdirAllSpec.

(** ** Copying a file to a place that holds nothing *)

Lemma resolve_root (fs : FS) (f : bool) : resolve fs f [] = Found [] (Dir root_perm).
Proof. done. Qed.

Lemma found_file_ne (fs : FS) (f : bool) (p : path) (k : list string)
    (q : Z) (d : list Byte.byte) :
  resolve fs f p = Found k (File q d) → k ≠ [] ∧ fs !! k = Some (File q d).
Proof.
  intros H. pose proof (resolve_sound fs f p) as Hs. rewrite H in Hs.
  simpl in Hs. destruct k; [done|]. by split.
Qed.

Section CopyFileSpec.

Variable E : env.

Lemma copyFile_fresh (src dst : path) (s s' : state) (ks : list string)
    (p : Z) (d : list Byte.byte) (e : errno) :
  wf (fs s) → Forall proper dst →
  resolve (fs s) true src = Found ks (File p d) →
  os_Stat (fs s) dst = Err e →
  copyFile E src dst s = (None, s') →
  ∃ fs1 kd,
    fs s ⊆ fs1 ∧ fs1 !! kd = None ∧ kd ≠ [] ∧
    fs s' = <[kd := File (created_perm E) d]> fs1 ∧
    out s' = out s ∧ wf (fs s') ∧
    resolve (fs s') true dst = Found kd (File (created_perm E) d).
Proof.
  intros Hwf Hdst Hsrc Hst. unfold copyFile. unfold_M. simpl.
  unfold os_Open. rewrite Hsrc. simpl.
  destruct (os_MkdirAll (env_umask E) (fs s) (filepath_Dir dst) 493)
    as [fs1 [e1|]] eqn:Hmk; simpl; [done|].
  unfold os_MkdirAll in Hmk.
  apply MkdirAll_rev_spec in Hmk as (Hwf1 & Hsub & kdir & m & Hdir & Hnew);
    [|done|apply Forall_rev; unfold filepath_Dir;
            destruct dst as [|c dst] using rev_ind;
            [done|rewrite removelast_last; by apply Forall_app in Hdst as [? _]]].
  rewrite rev_involutive in Hdir.
  (* the destination is missing after the directories are made *)
  assert (∃ kp c, resolve fs1 true dst = Missing kp c ∨
                  ∃ e, resolve fs1 true dst = Fail e) as Hres.
  { destruct dst as [|c dst _] using rev_ind.
    - by apply stat_err with (k := []) (nd := Dir root_perm) in Hst.
    - unfold filepath_Dir in *. rewrite removelast_last in *.
      apply Forall_app in Hdst as [_ [Hc _]%Forall_cons_1].
      destruct Hnew as [->|(_ & _ & Hempty)].
      + destruct (resolve (fs s) true (dst ++ [c])) as [k nd|kp c'|e'] eqn:Hr.
        * by apply stat_err with (k := k) (nd := nd) in Hst.
        * exists kp, c'. by left.
        * exists [], "". right. eauto.
      + exists kdir, c. left. eapply resolve_snoc; [done|].
        rewrite walk1_last by done. by rewrite Hempty. }
  destruct Hres as (kp & c & [Hres|[e' Hres]]);
    unfold os_Create; rewrite Hres; simpl; [|done].
  pose proof (resolve_sound fs1 true dst) as Hs. rewrite Hres in Hs.
  destruct Hs as (Hnone & [q Hq] & Hc).
  apply found_file_ne in Hsrc as [Hks Hks'].
  assert (fs1 !! ks = Some (File p d)) as Hks1 by by eapply lookup_weaken.
  unfold io_Copy. rewrite node_at_insert_ne by congruence.
  rewrite node_at_ne, Hks1, lookup_insert_eq by done. simpl.
  intros [= <-]. simpl. exists fs1, (kp ++ [c]).
  rewrite insert_insert_eq.
  split; [done|]. split; [done|]. split; [by destruct kp|].
  split; [done|]. split; [done|].
  split; [by eapply wf_insert_new|].
  apply resolve_insert_missing; [by right|done].
Qed.

End CopyFileSpec.

(** ** Computations that agree on the file system *)

Section Sim.

Context (R : relation (list output)).

Lemma sim_ret {A} (a : A) : sim R (mret a) (mret a).
Proof. intros s s' H. simpl. auto. Qed.

Lemma sim_read {A} (f : FS → A) : sim R (read f) (read f).
Proof. intros s s' [H1 H2]. unfold read, agree. simpl. rewrite H1. auto. Qed.

Lemma sim_call {A} (f : FS → FS * A) : sim R (call f) (call f).
Proof.
  intros s s' [H1 H2]. unfold call, agree. rewrite H1.
  destruct (f (fs s')) as [f1 a]. simpl. auto.
Qed.

Lemma sim_emit (o o' : output) : adds R o o' → sim R (emit o) (emit o').
Proof.
  intros Ho s s' [H1 H2]. unfold emit, agree. simpl. auto.
Qed.

Lemma sim_bind {A B : Type} (m m' : M A) (f f' : A → M B) :
  sim R m m' → (∀ a, sim R (f a) (f' a)) → sim R (m ≫= f) (m' ≫= f').
Proof.
  intros Hm Hf s s' H. unfold mbind, M_bind.
  destruct (Hm s s' H) as [Ha Hs].
  destruct (m s) as [a s1], (m' s') as [a' s1']. simpl in *. subst a'.
  apply Hf, Hs.
Qed.

Lemma sim_range {A} (l : list A) (body body' : A → M (option error)) :
  (∀ x, sim R (body x) (body' x)) → sim R (range l body) (range l body').
Proof.
  intros Hb. induction l as [|x l IH]; simpl.
  - apply sim_ret.
  - apply sim_bind; [apply Hb|]. intros [e|]; [apply sim_ret|apply IH].
Qed.

Lemma sim_range_ {A} (l : list A) (body body' : A → M unit) :
  (∀ x, sim R (body x) (body' x)) → sim R (range_ l body) (range_ l body').
Proof.
  intros Hb. induction l as [|x l IH]; simpl.
  - apply sim_ret.
  - apply sim_bind; [apply Hb|]. intros _. apply IH.
Qed.

(** A first statement that reads the file system, run on one state. *)
Lemma sim_read_bind {A B : Type} (f : FS → A) (g g' : A → M B)
    (s s' : state) :
  agree R s s' →
  sim R (g (f (fs s))) (g' (f (fs s))) →
  ((read f ≫= g) s).1 = ((read f ≫= g') s').1 ∧
  agree R ((read f ≫= g) s).2 ((read f ≫= g') s').2.
Proof.
  intros H Hg. unfold mbind, M_bind, read.
  destruct H as [H1 H2]. rewrite <- H1. apply Hg. by split.
Qed.

End Sim.

Lemma adds_any (o o' : output) : adds any_output o o'.
Proof. done. Qed.

Lemma adds_wording (o o' : output) :
  wording o o' → adds (Forall2 wording) o o'.
Proof. intros H l l' Hl. apply Forall2_app; [done|]. by constructor. Qed.

Lemma adds_wording_same (o : output) : adds (Forall2 wording) o o.
Proof. apply adds_wording. by left. Qed.

Create HintDb sim.

Global Hint Resolve sim_ret sim_read sim_call sim_emit adds_any
  adds_wording_same : sim.

Ltac sim_step :=
  match goal with
  | |- sim _ (mbind _ _) (mbind _ _) => apply sim_bind; [|intros ?]
  | |- sim _ (range _ _) (range _ _) => apply sim_range; intros ?
  | |- sim _ (range_ _ _) (range_ _ _) => apply sim_range_; intros ?
  | |- sim _ (match ?x with _ => _ end) (match ?x with _ => _ end) =>
      destruct x
  | |- sim _ (if ?x then _ else _) (if ?x then _ else _) => destruct x
  | |- sim _ _ _ => solve [auto with sim]
  end.

Section Agreement.

Variable E : env.
Context (R : relation (list output)).

Lemma copyFile_sim (src dst : path) :
  sim R (copyFile E src dst) (copyFile E src dst).
Proof. unfold copyFile. repeat sim_step. Qed.

Lemma copyDir_at_sim (depth : nat) (src dst : path) :
  sim R (copyDir_at E depth src dst) (copyDir_at E depth src dst).
Proof.
  revert src dst. induction depth as [|depth IH]; intros src dst; simpl.
  - apply sim_ret.
  - repeat sim_step; auto using copyFile_sim.
Qed.

Lemma copyDir_sim (src dst : path) :
  sim R (copyDir E src dst) (copyDir E src dst).
Proof. apply copyDir_at_sim. Qed.

End Agreement.

(** The flag [isSync] does not steer [processPath]. *)
Lemma processPath_sim (E : env) (item homeDir repo : path) :
  sim (Forall2 wording) (processPath E item homeDir repo true)
                        (processPath E item homeDir repo false).
Proof.
  unfold processPath.
  repeat (sim_step; auto using copyFile_sim, copyDir_sim).
  - apply sim_emit, adds_wording. right.
    exists "directory ", (show_path item). done.
  - apply sim_emit, adds_wording. right.
    exists "file ", (show_path item). done.
Qed.

(** What [processPath] does to the file system depends on the file system
    only. *)
Lemma processPath_any_output (E : env) (item homeDir repo : path) (b b' : bool) :
  sim any_output (processPath E item homeDir repo b)
                 (processPath E item homeDir repo b').
Proof.
  unfold processPath.
  repeat (sim_step; auto using copyFile_sim, copyDir_sim);
    destruct b, b'; auto with sim.
Qed.

Lemma processFile_any_output (E : env) (item homeDir repo : path) (b b' : bool) :
  sim any_output (MainGo.processFile E item homeDir repo b)
                 (MainGo.processFile E item homeDir repo b').
Proof.
  unfold MainGo.processFile.
  repeat (sim_step; auto using copyFile_sim);
    destruct b, b'; auto with sim.
Qed.

(** ** The loop over the items *)

Arguments processPath : simpl never.

Lemma range__cons {A} (x : A) (l : list A) (body : A → M unit) (s : state) :
  range_ (x :: l) body s = range_ l body (body x s).2.
Proof.
  cbn [range_]. unfold mbind, M_bind. by destruct (body x s) as [[] s1].
Qed.

(** The loop over the items: its effect on the file system depends on the
    file system only. *)
Lemma items_loop_fs (E : env) (items : list path) (homeDir repo : path)
    (b : bool) (s s' : state) :
  fs s = fs s' →
  fs (range_ items (λ item, processPath E item homeDir repo b) s).2 =
    fs (range_ items (λ item, processPath E item homeDir repo b) s').2.
Proof.
  intros H.
  apply (sim_range_ any_output items _ _
           (λ item, processPath_any_output E item homeDir repo b b) s s').
  by split.
Qed.

(** ** Removing a file *)

Arguments os_Readlink : simpl never.
Arguments ioutil_ReadFile : simpl never.

Lemma subseteq_fs_le (fs fs' : FS) : fs ⊆ fs' → fs_le fs fs'.
Proof.
  intros H k n Hk. exists n. split; [|done]. by eapply lookup_weaken.
Qed.

Lemma os_Remove_file (fs : FS) (p : path) (k : list string) (q : Z)
    (d : list Byte.byte) :
  resolve fs false p = Found k (File q d) → os_Remove fs p = (delete k fs, None).
Proof.
  intros H. destruct (found_file_ne _ _ _ _ _ _ H) as [Hk _].
  unfold os_Remove. rewrite H. by destruct k.
Qed.

(** ** Removing, then linking *)

Lemma os_Symlink_cases (fs : FS) (oldname newname : path) :
  (os_Symlink fs oldname newname).1 = fs ∨
  ∃ k, (os_Symlink fs oldname newname).1 = <[k := Symlink true oldname]> fs.
Proof.
  unfold os_Symlink. destruct (resolve fs false newname); simpl; eauto.
Qed.

Lemma os_RemoveAll_found (fs : FS) (p : path) (k : list string) (nd : node) :
  resolve fs false p = Found k nd → (os_RemoveAll fs p).1 = remove_tree fs k.
Proof. unfold os_RemoveAll. intros ->. by destruct k. Qed.

Lemma remove_tree_lookup (fs : FS) (k k' : list string) :
  k `prefix_of` k' → remove_tree fs k !! k' = None.
Proof.
  intros H. unfold remove_tree. apply map_lookup_filter_None. right.
  intros n _ Hn. by apply Hn.
Qed.

Lemma only_link_symlink (fs : FS) (ks : list string) (deep : bool)
    (target newname : path) :
  (∀ k, (if deep then ks `prefix_of` k else k = ks) → fs !! k = None) →
  only_link (os_Symlink fs target newname).1 ks deep target.
Proof.
  intros Hnone k n Hk.
  destruct (os_Symlink_cases fs target newname) as [->|[kk ->]].
  - by rewrite Hnone.
  - destruct (decide (kk = k)) as [->|Hne].
    + rewrite lookup_insert_eq. congruence.
    + rewrite lookup_insert_ne by done. by rewrite Hnone.
Qed.

Lemma only_link_none (fs : FS) (ks : list string) (deep : bool)
    (target : path) :
  (∀ k, (if deep then ks `prefix_of` k else k = ks) → fs !! k = None) →
  only_link fs ks deep target.
Proof. intros Hnone k n Hk. by rewrite Hnone. Qed.

(** The last step of [processPath], from a state in which the place of
    the original holds nothing. *)
Ltac link_step_cases Hnone :=
  match goal with
  | |- only_link (fs ((if os_IsNotExist (result_error (os_Lstat ?f ?src))
                       then _ else _) _).2) ?ks ?deep ?dst =>
      destruct (os_IsNotExist (result_error (os_Lstat f src))); simpl;
      [|by apply only_link_none];
      destruct (os_Stat f dst); simpl; [|by apply only_link_none];
      let Hl := fresh "Hl" in
      pose proof (only_link_symlink f ks deep dst src Hnone) as Hl;
      destruct (os_Symlink f dst src) as [? [?|]]; simpl in *; apply Hl
  end.

(** ** Items that are links already *)

Lemma processPath_skip (E : env) (item homeDir repo : path)
    (isSync : bool) (s : state) (k : list string) (a : bool) (t : list string) :
  resolve (fs s) false (filepath_Join homeDir item) = Found k (Symlink a t) →
  processPath E item homeDir repo isSync s =
    (tt, {| fs := fs s; out := out s ++ [skip_line item] |}).
Proof.
  intros H. unfold processPath. unfold_M. simpl.
  pose proof (lstat_found _ _ _ _ H) as L.
  rewrite L. simpl. rewrite L. reflexivity.
Qed.

Lemma skip_loop (E : env) (items : list path) (homeDir repo : path)
    (isSync : bool) (s : state) :
  Forall (λ item, lstat_symlink (fs s) (filepath_Join homeDir item) = true)
    items →
  range_ items (λ item, processPath E item homeDir repo isSync) s =
    (tt, {| fs := fs s; out := out s ++ map skip_line items |}).
Proof.
  revert s. induction items as [|item items IH]; intros s Hall.
  - simpl. unfold mret, M_ret. rewrite app_nil_r. by destruct s.
  - apply Forall_cons_1 in Hall as [Hitem Hall].
    rewrite range__cons.
    unfold lstat_symlink in Hitem.
    destruct (resolve (fs s) false (filepath_Join homeDir item))
      as [k [| |a t]| |] eqn:Hr; try done.
    rewrite (processPath_skip _ _ _ _ _ _ _ _ _ Hr). simpl.
    rewrite IH by done. simpl. by rewrite <- app_assoc.
Qed.

Lemma MkdirAll_existing (umask : Z) (fs : FS) (p : path) (perm : Z)
    (k : list string) (m : Z) :
  resolve fs true p = Found k (Dir m) →
  os_MkdirAll umask fs p perm = (fs, None).
Proof.
  intros H. unfold os_MkdirAll.
  rewrite <- (rev_involutive p) in H.
  destruct (rev p); simpl in *; [done|].
  by rewrite (stat_found _ _ _ _ H), mode_dir_test.
Qed.

(** ** Directory entries *)

Lemma entry_of_Some (k : list string) (kv : list string * node)
    (c : string) (n : node) :
  entry_of k kv = Some (c, n) ↔ kv = (k ++ [c], n).
Proof.
  unfold entry_of. destruct kv as [p n']. simpl. split.
  - case_decide as Ht; [|done].
    destruct (drop (length k) p) as [|c' [|]] eqn:Hd; try done.
    intros [= -> ->]. f_equal.
    by rewrite <- (take_drop (length k) p), Ht, Hd.
  - intros [= -> ->]. rewrite take_app_length, decide_True by done.
    by rewrite drop_app_length.
Qed.

Lemma elem_of_children (fs : FS) (k : list string) (c : string) (n : node) :
  (c, n) ∈ children fs k ↔ fs !! (k ++ [c]) = Some n.
Proof.
  unfold children. rewrite merge_sort_Permutation, list_elem_of_omap. split.
  - intros (kv & Hkv & ->%entry_of_Some). by apply elem_of_map_to_list.
  - intros H. exists (k ++ [c], n). split; [by apply elem_of_map_to_list|].
    by apply entry_of_Some.
Qed.

Lemma NoDup_entries (k : list string) (l : list (list string * node)) :
  NoDup l.*1 → NoDup (omap (entry_of k) l).*1.
Proof.
  induction l as [|[p n] l IH]; simpl; [constructor|].
  intros [Hp Hl]%NoDup_cons. specialize (IH Hl).
  destruct (entry_of k (p, n)) as [[c n']|] eqn:He; [|done].
  apply entry_of_Some in He as [= -> ->]. simpl. constructor; [|done].
  intros ([c' n''] & -> & (kv & Hkv & ->%entry_of_Some)%list_elem_of_omap)
    %list_elem_of_fmap.
  apply Hp. simpl. apply list_elem_of_fmap. by exists (k ++ [c'], n'').
Qed.

Lemma NoDup_children (fs : FS) (k : list string) : NoDup (children fs k).*1.
Proof.
  unfold children. rewrite merge_sort_Permutation.
  apply NoDup_entries, NoDup_fst_map_to_list.
Qed.

(** ** The copy of a tree *)

Lemma land_dir_perm (p : Z) :
  Z.land (mode_of (Dir p)) ModePerm = Z.land p ModePerm.
Proof.
  unfold mode_of. rewrite Z.land_lor_distr_l.
  rewrite <- Z.land_assoc. change (Z.land ModePerm ModePerm) with ModePerm.
  change (Z.land ModeDir ModePerm) with 0. apply Z.lor_0_l.
Qed.

Lemma resolve_nofollow_missing (fs : FS) (p : path) (kp : list string)
    (c : string) :
  resolve fs false p = Missing kp c → resolve fs true p = Missing kp c.
Proof. apply walk_nofollow_missing. Qed.

Section Fresh.

Variable E : env.

(** [os.MkdirAll] of a path whose parent exists and whose last component
    is missing. *)
Lemma MkdirAll_missing (fs : FS) (dst : path) (perm : Z)
    (kp : list string) (c : string) :
  Forall proper dst →
  resolve fs false dst = Missing kp c →
  os_MkdirAll (env_umask E) fs dst perm =
    (<[kp ++ [c] := Dir (Z.land (Z.land perm ModePerm)
                                    (Z.lnot (env_umask E)))]> fs, None).
Proof.
  intros Hp Hr. destruct dst as [|c' dst _] using rev_ind; [done|].
  apply Forall_app in Hp as [_ [Hc _]%Forall_cons_1].
  destruct (resolve_snoc_missing _ _ _ _ _ Hc Hr) as [<- [m Hpar]].
  unfold os_MkdirAll. rewrite rev_app_distr. simpl.
  rewrite rev_involutive.
  unfold os_Stat at 1. rewrite (resolve_nofollow_missing _ _ _ _ Hr). simpl.
  fold (os_MkdirAll (env_umask E) fs dst perm).
  rewrite (MkdirAll_existing _ _ _ _ _ _ Hpar).
  unfold os_Mkdir. by rewrite Hr.
Qed.

(** [copyFile] of a regular file to a path whose parent exists and whose
    last component is missing. *)
Lemma copyFile_missing (src dst : path) (s : state) (ks : list string)
    (p : Z) (d : list Byte.byte) (kp : list string) (c : string) :
  Forall proper dst →
  resolve (fs s) true src = Found ks (File p d) →
  resolve (fs s) false dst = Missing kp c →
  copyFile E src dst s =
    (None, {| fs := <[kp ++ [c] := File (created_perm E) d]> (fs s);
              out := out s |}).
Proof.
  intros Hp Hsrc Hdst.
  destruct dst as [|c' dst _] using rev_ind; [done|].
  apply Forall_app in Hp as [_ [Hc _]%Forall_cons_1].
  destruct (resolve_snoc_missing _ _ _ _ _ Hc Hdst) as [<- [m Hpar]].
  pose proof (resolve_sound (fs s) false (dst ++ [c])) as Hs.
  rewrite Hdst in Hs. destruct Hs as (Hnone & _ & _).
  destruct (found_file_ne _ _ _ _ _ _ Hsrc) as [Hks Hks'].
  unfold copyFile. unfold_M. simpl. unfold os_Open. rewrite Hsrc. simpl.
  unfold filepath_Dir. rewrite removelast_last.
  rewrite (MkdirAll_existing _ _ _ _ _ _ Hpar). simpl.
  unfold os_Create. rewrite (resolve_nofollow_missing _ _ _ _ Hdst). simpl.
  unfold io_Copy. rewrite node_at_insert_ne by congruence.
  rewrite node_at_ne, Hks', lookup_insert_eq by done. simpl.
  by rewrite insert_insert_eq.
Qed.

End Fresh.

Lemma prefix_disjoint (ks kd k : list string) :
  ¬ ks `prefix_of` kd → ¬ kd `prefix_of` ks →
  ks `prefix_of` k → ¬ kd `prefix_of` k.
Proof.
  intros H1 H2 Hk Hk'. destruct (prefix_weak_total _ _ _ Hk Hk'); auto.
Qed.

Lemma prefix_disjoint_snoc (ks kd : list string) (c c' : string) :
  ¬ ks `prefix_of` kd → ¬ kd `prefix_of` ks →
  ¬ (ks ++ [c]) `prefix_of` (kd ++ [c']).
Proof.
  intros H1 H2 H.
  assert (ks `prefix_of` kd ++ [c']) as Hk.
  { etrans; [|done]. by apply prefix_app_r. }
  destruct (prefix_weak_total _ _ _ Hk (prefix_app_r kd kd [c']
              (reflexivity _))); auto.
Qed.

Lemma prefix_snoc_not (k : list string) (c : string) (r : list string) :
  ¬ (k ++ c :: r) `prefix_of` k.
Proof.
  intros H. apply prefix_length in H. rewrite length_app in H. simpl in H. lia.
Qed.

Section CopyDirSpec.

Variable E : env.

Lemma shallow_child (fs : FS) (ks : list string) (c : string) (depth : nat) :
  shallow fs ks (S depth) → shallow fs (ks ++ [c]) depth.
Proof.
  intros H k n Hk Hpre. rewrite length_app. simpl.
  assert (ks `prefix_of` k) as Hpre'.
  { etrans; [|done]. by apply prefix_app_r. }
  specialize (H k n Hk Hpre'). simpl in H. lia.
Qed.

Lemma copy_loop (depth : nat) (src dst : path) (ks kd : list string)
    (ms md : Z) (fsA : FS) :
  copyDir_spec E depth →
  wf fsA → Forall proper src → Forall proper dst →
  resolve fsA true src = Found ks (Dir ms) →
  resolve fsA true dst = Found kd (Dir md) →
  plain_tree fsA ks → shallow fsA ks (S depth) →
  ¬ ks `prefix_of` kd → ¬ kd `prefix_of` ks →
  ∀ (es : list (string * node)) (s : state),
    NoDup es.*1 →
    (∀ c n, (c, n) ∈ es → fsA !! (ks ++ [c]) = Some n) →
    copying (env_umask E) fsA (fs s) ks kd es →
    ∃ fs', range (map entry_info es) (λ entry,
               let srcPath := filepath_Join src [Name entry] in
               let dstPath := filepath_Join dst [Name entry] in
               if IsDir entry then copyDir_at E depth srcPath dstPath
               else copyFile E srcPath dstPath) s
             = (None, {| fs := fs'; out := out s |}) ∧
           copying (env_umask E) fsA fs' ks kd [].
Proof.
  intros IH HwfA Hsrcp Hdstp Hsrc Hdst Hplain Hshallow Hn1 Hn2.
  induction es as [|[c n] es IHes]; intros s Hnd Hes Hinv.
  - simpl. unfold mret, M_ret. exists (fs s). by destruct s.
  - rewrite fmap_cons in Hnd. apply NoDup_cons in Hnd as [Hc Hnd].
    cbn [fst] in Hc.
    assert (fsA !! (ks ++ [c]) = Some n) as Hcn by (apply Hes; left).
    destruct Hinv as (Hwf & Hsub & Hout & Hin).
    destruct (wf_lookup _ _ _ HwfA Hcn) as (_ & [_ [Hcp _]%Forall_cons_1]%Forall_app & _).
    (* the two directories in the current state *)
    destruct (resolve_grown _ _ _ _ _ _ (subseteq_fs_le _ _ Hsub) Hsrc)
      as (? & Hsrc' & _ & ->%node_le_dir).
    destruct (resolve_grown _ _ _ _ _ _ (subseteq_fs_le _ _ Hsub) Hdst)
      as (? & Hdst' & _ & ->%node_le_dir).
    assert (fs s !! (ks ++ [c]) = Some n) as Hcn' by by eapply lookup_weaken.
    assert (fs s !! (kd ++ [c]) = None) as Hdc.
    { rewrite (Hin c []), decide_True; [done|]. simpl. by left. }
    assert (resolve (fs s) false (dst ++ [c]) = Missing kd c) as Hdmiss.
    { eapply resolve_snoc; [done|]. rewrite walk1_last by done.
      by rewrite Hdc. }
    assert (is_symlink n = false) as Hsym.
    { by apply (Hplain (ks ++ [c]) n Hcn), prefix_app_r. }
    cbn [map range]. unfold mbind, M_bind. cbn [entry_info fst snd Name].
    rewrite !Join_snoc by done.
    change (IsDir (entry_info (c, n))) with
      (IsDir {| Name := c; Mode := mode_of n |}).
    rewrite mode_dir_test.
    (* the step: a state in which [c] is copied *)
    assert (∃ fs1,
      (if is_dir n then copyDir_at E depth (src ++ [c]) (dst ++ [c])
       else copyFile E (src ++ [c]) (dst ++ [c])) s
        = (None, {| fs := fs1; out := out s |}) ∧
      copying (env_umask E) fsA fs1 ks kd es) as (fs1 & Hstep & Hinv1).
    { destruct n as [p d|p|a t]; [| |done]; simpl.
      - (* a regular file *)
        erewrite copyFile_missing; [|by apply Forall_app; split; [|constructor]| |done].
        2:{ eapply resolve_snoc; [done|]. rewrite walk1_last by done.
            by rewrite Hcn'. }
        eexists. split; [done|].
        pose proof (resolve_sound (fs s) true dst) as Hs.
        rewrite Hdst' in Hs.
        split; [by eapply wf_insert_new|].
        split; [etrans; [done|]; by apply insert_subseteq|].
        split.
        + intros k Hk. rewrite lookup_insert_ne; [by apply Hout|].
          intros <-. apply Hk. by apply prefix_app_r.
        + intros c' r. destruct (decide (kd ++ [c] = kd ++ c' :: r)) as [Heq|Hne].
          * apply app_inv_head in Heq as [= <- <-].
            rewrite lookup_insert_eq, decide_False, Hcn by done. done.
          * rewrite lookup_insert_ne by done. rewrite Hin.
            destruct (decide (c' = c)) as [->|Hcc].
            -- rewrite decide_True by (simpl; by left).
               rewrite decide_False by done.
               destruct r as [|x r]; [done|].
               change (ks ++ c :: x :: r) with (ks ++ [c] ++ x :: r).
               rewrite app_assoc.
               by rewrite (wf_below_file _ _ _ _ _ HwfA Hcn).
            -- apply decide_ext. rewrite fmap_cons, elem_of_cons. simpl.
               tauto.
      - (* a directory *)
        destruct (IH (src ++ [c]) (dst ++ [c]) s (ks ++ [c]) p kd c)
          as (fs1 & Hrun & Hwf1 & Hcopy & Hframe); try done.
        + apply Forall_app. split; [done|by constructor].
        + apply Forall_app. split; [done|by constructor].
        + eapply resolve_snoc; [done|]. rewrite walk1_last by done.
          by rewrite Hcn'.
        + intros k n' Hk Hpre. rewrite Hout in Hk.
          * by apply (Hplain k n' Hk); etrans; [apply prefix_app_r|].
          * eapply prefix_disjoint; [done..|].
            etrans; [|done]. by apply prefix_app_r.
        + apply shallow_child. intros k n' Hk Hpre.
          destruct (decide (kd `prefix_of` k)) as [Hkd|Hkd].
          * exfalso. by eapply (prefix_disjoint ks kd k).
          * rewrite Hout in Hk by done. by apply (Hshallow k n').
        + by apply prefix_disjoint_snoc.
        + exists fs1. split; [done|].
          split; [done|]. split.
          { etrans; [done|]. apply map_subseteq_spec. intros k n' Hk.
            destruct (decide ((kd ++ [c]) `prefix_of` k)) as [[r ->]|Hk'].
            - rewrite <- app_assoc in Hk. simpl in Hk.
              rewrite Hin, decide_True in Hk; [done|]. simpl. by left.
            - by rewrite Hframe. }
          split.
          * intros k Hk. rewrite Hframe; [by apply Hout|].
            intros Hk'. apply Hk. etrans; [|done]. by apply prefix_app_r.
          * intros c' r. destruct (decide (c' = c)) as [->|Hcc].
            -- rewrite decide_False by done.
               change (kd ++ c :: r) with (kd ++ [c] ++ r).
               change (ks ++ c :: r) with (ks ++ [c] ++ r).
               rewrite !app_assoc, Hcopy. f_equal. apply Hout.
               eapply prefix_disjoint; [done..|].
               rewrite <- app_assoc. by apply prefix_app_r.
            -- rewrite Hframe.
               ++ rewrite Hin. apply decide_ext.
                  rewrite fmap_cons, elem_of_cons. simpl. tauto.
               ++ intros [r' Hr']. rewrite <- app_assoc in Hr'.
                  apply app_inv_head in Hr'. simpl in Hr'. congruence. }
    rewrite Hstep.
    destruct (IHes {| fs := fs1; out := out s |}) as (fs' & Hrun & Hinv');
      [done| |done|].
    { intros c' n' Hc'. apply Hes. by right. }
    exists fs'. by split.
Qed.

End CopyDirSpec.

Section CopyDirCorrect.

Variable E : env.

Lemma copyDir_at_correct (depth : nat) : copyDir_spec E depth.
Proof.
  induction depth as [|depth IH];
    intros src dst s ks ms kp c Hwf Hsrcp Hdstp Hsrc Hplain Hshallow Hdst Hn1.
  { (* the source alone is one level *)
    exfalso. pose proof (resolve_sound (fs s) true src) as Hs.
    rewrite Hsrc in Hs. simpl in Hs.
    destruct ks as [|x ks]; [apply Hn1, prefix_nil|].
    specialize (Hshallow _ _ Hs (reflexivity _)). lia. }
  set (kd := kp ++ [c]) in *.
  set (md := Z.land (Z.land ms ModePerm) (Z.lnot (env_umask E))).
  set (fsA := <[kd := Dir md]> (fs s)).
  pose proof (resolve_sound (fs s) true src) as Hs.
  rewrite Hsrc in Hs. simpl in Hs.
  pose proof (resolve_sound (fs s) false dst) as Hd.
  rewrite Hdst in Hd. destruct Hd as (Hnone & [mp Hpar] & Hc). fold kd in Hnone.
  assert (ks ≠ []) as Hks.
  { intros ->. apply Hn1, prefix_nil. }
  rewrite node_at_ne in Hs by done.
  assert (kd ≠ []) as Hkd by (unfold kd; by destruct kp).
  assert (¬ kd `prefix_of` ks) as Hn2.
  { intros [r ->]. by rewrite (wf_below_none _ _ _ Hwf Hkd Hnone) in Hs. }
  assert (wf fsA) as HwfA by by eapply wf_insert_new.
  assert (fs_le (fs s) fsA) as Hle by by apply fs_le_insert_new.
  assert (∀ k, ks `prefix_of` k → fsA !! k = fs s !! k) as Hsame.
  { intros k Hk. unfold fsA. rewrite lookup_insert_ne; [done|].
    intros <-. by apply Hn1. }
  destruct (resolve_grown _ _ _ _ _ _ Hle Hsrc)
    as (? & HsrcA & _ & ->%node_le_dir).
  assert (resolve fsA true dst = Found kd (Dir md)) as HdstA.
  { apply resolve_insert_missing; [by right|].
    by apply resolve_nofollow_missing. }
  (* the loop *)
  destruct (copy_loop E depth src dst ks kd ms md fsA IH HwfA Hsrcp Hdstp
              HsrcA HdstA) with (es := children fsA ks)
                                (s := {| fs := fsA; out := out s |})
    as (fs' & Hrun & Hwf' & Hsub' & Hout' & Hin'); try done.
  - intros k n Hk Hpre. rewrite Hsame in Hk by done. by apply (Hplain k n).
  - intros k n Hk Hpre. rewrite Hsame in Hk by done. by apply (Hshallow k n).
  - apply NoDup_children.
  - intros c' n' H. by apply elem_of_children.
  - split; [done|]. split; [done|]. split; [done|]. intros c' r.
    cbn [fs].
    assert (fsA !! (kd ++ c' :: r) = None) as ->.
    { unfold fsA. rewrite lookup_insert_ne.
      - by apply wf_below_none.
      - intros H. apply (f_equal length) in H. rewrite length_app in H.
        simpl in H. lia. }
    case_decide as Hel; [done|].
    assert (fsA !! (ks ++ [c']) = None) as Hnc.
    { destruct (fsA !! (ks ++ [c'])) as [n'|] eqn:Hl; [|done].
      exfalso. apply Hel. apply list_elem_of_fmap. exists (c', n').
      split; [done|]. by apply elem_of_children. }
    change (ks ++ c' :: r) with (ks ++ [c'] ++ r). rewrite app_assoc.
    rewrite (wf_below_none _ _ _ HwfA); [done|by destruct ks|done].
  - (* the result *)
    exists fs'. split.
    + cbn [copyDir_at]. unfold mbind at 1, M_bind at 1, read at 1.
      rewrite (stat_found _ _ _ _ Hsrc).
      unfold mbind at 1, M_bind at 1, call at 1. cbn [Mode].
      rewrite (MkdirAll_missing _ _ _ _ _ _ Hdstp Hdst), land_dir_perm.
      fold kd md fsA.
      unfold mbind at 1, M_bind at 1, read at 1. cbn [fs].
      unfold ioutil_ReadDir. rewrite HsrcA. exact Hrun.
    + split; [done|]. split.
      * intros [|c' r].
        -- rewrite !app_nil_r, Hs. simpl. fold md.
           eapply lookup_weaken; [|done]. apply lookup_insert_eq.
        -- rewrite Hin', decide_False by (simpl; apply not_elem_of_nil).
           f_equal. apply Hsame. by apply prefix_app_r.
      * intros k Hk. rewrite Hout' by done. unfold fsA.
        rewrite lookup_insert_ne; [done|]. intros <-. by apply Hk.
Qed.

End CopyDirCorrect.

(** ** The items of the configuration *)

Lemma components_nonempty (s : string) : components s ≠ [].
Proof.
  induction s as [|c s IH]; simpl; [done|].
  destruct (Ascii.eqb c "/"%char); [done|]. by destruct (components s).
Qed.

Lemma concat_cons2 (sep x y : string) (l : list string) :
  String.concat sep (x :: y :: l) = x +:+ sep +:+ String.concat sep (y :: l).
Proof. reflexivity. Qed.

(** Printing an item gives back the string of the configuration. *)
Lemma show_path_components (s : string) : show_path (components s) = s.
Proof.
  unfold show_path. induction s as [|c s IH]; [done|].
  cbn [components].
  destruct (components s) as [|x xs] eqn:Hs; [by apply components_nonempty in Hs|].
  destruct (Ascii.eqb c "/"%char) eqn:Hc.
  - apply Ascii.eqb_eq in Hc. subst c. by rewrite concat_cons2, IH.
  - destruct xs as [|y xs].
    + simpl in *. by rewrite IH.
    + rewrite concat_cons2 in *. rewrite <- IH. reflexivity.
Qed.


(** ** What the computations write *)

Section Writes.

Context (P : output → Prop).

Lemma writes_ret {A} (a : A) : writes P (mret a).
Proof. intros s. exists []. by rewrite app_nil_r. Qed.

Lemma writes_read {A} (f : FS → A) : writes P (read f).
Proof. intros s. exists []. by rewrite app_nil_r. Qed.

Lemma writes_call {A} (f : FS → FS * A) : writes P (call f).
Proof.
  intros s. exists []. unfold call. destruct (f (fs s)). simpl.
  by rewrite app_nil_r.
Qed.

Lemma writes_emit (o : output) : P o → writes P (emit o).
Proof. intros Ho s. exists [o]. split; [done|]. by constructor. Qed.

Lemma writes_bind {A B : Type} (m : M A) (f : A → M B) :
  writes P m → (∀ a, writes P (f a)) → writes P (m ≫= f).
Proof.
  intros Hm Hf s. unfold mbind, M_bind.
  destruct (Hm s) as (l1 & H1 & HP1). destruct (m s) as [a s1]. simpl in H1.
  destruct (Hf a s1) as (l2 & H2 & HP2). exists (l1 ++ l2).
  rewrite H2, H1, app_assoc. split; [done|]. by apply Forall_app.
Qed.

Lemma writes_range {A} (l : list A) (body : A → M (option error)) :
  (∀ x, writes P (body x)) → writes P (range l body).
Proof.
  intros Hb. induction l as [|x l IH]; simpl; [apply writes_ret|].
  apply writes_bind; [done|]. intros [e|]; [apply writes_ret|done].
Qed.

Lemma writes_range_ {A} (l : list A) (body : A → M unit) :
  (∀ x, writes P (body x)) → writes P (range_ l body).
Proof.
  intros Hb. induction l as [|x l IH]; simpl; [apply writes_ret|].
  apply writes_bind; [done|]. by intros [].
Qed.

End Writes.

Create HintDb writes.

Global Hint Resolve writes_ret writes_read writes_call writes_emit : writes.

Ltac writes_step :=
  match goal with
  | |- writes _ (mbind _ _) => apply writes_bind; [|intros ?]
  | |- writes _ (range _ _) => apply writes_range; intros ?
  | |- writes _ (range_ _ _) => apply writes_range_; intros ?
  | |- writes _ (match ?x with _ => _ end) => destruct x
  | |- writes _ (if ?x then _ else _) => destruct x
  | |- writes _ _ => solve [auto with writes]
  end.

Lemma writes_nothing {A} (m : M A) (s : state) :
  writes (λ _, False) m → out (m s).2 = out s.
Proof.
  intros H. destruct (H s) as (l & -> & Hl).
  destruct l as [|o l]; [by rewrite app_nil_r|]. by inversion Hl.
Qed.

Lemma processes_lines (l : list output) : Forall line l → processes l = [].
Proof.
  induction 1 as [|o l Ho _ IH]; [done|]. destruct o; [exact IH|exact IH|done].
Qed.

Lemma processes_app (l l' : list output) :
  processes (l ++ l') = processes l ++ processes l'.
Proof. apply omap_app. Qed.

Section WritesProgram.

Variable E : env.
Context (P : output → Prop).

Lemma copyFile_writes (src dst : path) : writes P (copyFile E src dst).
Proof. unfold copyFile. repeat writes_step. Qed.

Lemma copyDir_at_writes (depth : nat) (src dst : path) :
  writes P (copyDir_at E depth src dst).
Proof.
  revert src dst. induction depth as [|depth IH]; intros src dst; simpl.
  - apply writes_ret.
  - repeat writes_step; auto using copyFile_writes.
Qed.

Lemma copyDir_writes (src dst : path) : writes P (copyDir E src dst).
Proof. apply copyDir_at_writes. Qed.

End WritesProgram.

Lemma processPath_writes (E : env) (item homeDir repoDir : path) (isSync : bool) :
  writes line (processPath E item homeDir repoDir isSync).
Proof.
  unfold processPath.
  repeat (writes_step; auto using copyFile_writes, copyDir_writes);
    apply writes_emit; exact I.
Qed.

Lemma processFile_writes (E : env) (item homeDir repoDir : path) (isSync : bool) :
  writes line (MainGo.processFile E item homeDir repoDir isSync).
Proof.
  unfold MainGo.processFile.
  repeat (writes_step; auto using copyFile_writes);
    apply writes_emit; exact I.
Qed.

(** ** The commands *)

Lemma items_loop_writes (E : env) (items : list path) (homeDir repoDir : path)
    (isSync : bool) :
  writes line (range_ items (λ item, processPath E item homeDir repoDir isSync)).
Proof. apply writes_range_. intros item. apply processPath_writes. Qed.

Lemma files_loop_writes (E : env) (items : list path) (homeDir repoDir : path)
    (isSync : bool) :
  writes line
    (range_ items (λ item, MainGo.processFile E item homeDir repoDir isSync)).
Proof. apply writes_range_. intros item. apply processFile_writes. Qed.

Ltac git_steps_tac Hrun Hw :=
  match type of Hrun with
  | context [range_ ?items ?body ?s1] =>
      let l := fresh "l" in
      let Hl := fresh "Hl" in
      let Hlines := fresh "Hlines" in
      destruct (Hw s1) as (l & Hl & Hlines);
      destruct (range_ items body s1) as [[] ?s]; simpl in Hl;
      unfold runGitCommand in Hrun; unfold_M; simpl in Hrun;
      repeat match type of Hrun with
             | context [env_git ?E ?args] => destruct (env_git E args)
             end;
      simpl in Hrun; injection Hrun as <- <-; simpl;
      rewrite ?processes_app, Hl, processes_app,
        (processes_lines l Hlines);
      unfold git_steps, processes; simpl;
      rewrite ?app_nil_r, <- ?app_assoc; reflexivity
  end.

(** ** [os.MkdirAll] that fails *)

Lemma os_Mkdir_fail (umask : Z) (fs : FS) (p : path) (perm : Z) (fs' : FS)
    (e : errno) :
  os_Mkdir umask fs p perm = (fs', Some e) → fs' = fs.
Proof.
  unfold os_Mkdir. destruct (resolve fs false p); intros [= <-]; done.
Qed.

(** A failed [os.MkdirAll] has made no directory. *)
Lemma MkdirAll_rev_fail (umask : Z) (fs : FS) (rp : list string) (perm : Z)
    (fs' : FS) (e : errno) :
  wf fs → Forall proper rp →
  MkdirAll_rev umask fs rp perm = (fs', Some e) → fs' = fs.
Proof.
  intros Hwf. revert fs' e. induction rp as [|c rp IH]; intros fs' e Hp.
  - simpl. unfold os_Stat. change (resolve fs true []) with
      (Found [] (Dir root_perm)). simpl. done.
  - apply Forall_cons_1 in Hp as [Hc Hp].
    cbn [MkdirAll_rev]. change (rev (c :: rp)) with (rev rp ++ [c]).
    destruct (os_Stat fs (rev rp ++ [c])) as [dir|e0] eqn:Hst.
    + destruct (IsDir dir); by intros [= <-].
    + destruct (MkdirAll_rev umask fs rp perm) as [fs1 [e1|]] eqn:Hrec.
      * intros [= <- <-]. by eapply IH.
      * destruct (MkdirAll_rev_spec umask fs rp perm fs1 Hwf Hp Hrec)
          as (Hwf1 & Hsub & kp & m & Hkp & Hnew).
        destruct (os_Mkdir umask fs1 (rev rp ++ [c]) perm) as [fs2 [e2|]]
          eqn:Hmk; [|done].
        apply os_Mkdir_fail in Hmk as Heq. subst fs2.
        assert (fs' = fs1 → fs' = fs) as Hgoal.
        { intros ->. destruct Hnew as [->|(_ & _ & Hempty)]; [done|].
          exfalso. unfold os_Mkdir in Hmk.
          assert (resolve fs1 false (rev rp ++ [c]) = Missing kp c) as Hm.
          { eapply resolve_snoc; [done|]. rewrite walk1_last by done.
            by rewrite Hempty. }
          by rewrite Hm in Hmk. }
        destruct (os_Lstat fs1 (rev rp ++ [c])) as [dir|e3].
        -- destruct (IsDir dir); intros [= <-]; auto.
        -- intros [= <-]. auto.
Qed.

Lemma os_MkdirAll_fail (umask : Z) (fs : FS) (p : path) (perm : Z)
    (fs' : FS) (e : errno) :
  wf fs → Forall proper p →
  os_MkdirAll umask fs p perm = (fs', Some e) → fs' = fs.
Proof.
  intros Hwf Hp. apply MkdirAll_rev_fail; [done|]. by apply Forall_rev.
Qed.

Lemma IsNotExist_stat (st : result FileInfo) :
  os_IsNotExist (result_error st) = true ↔ st = Err ENOENT.
Proof.
  destruct st as [fi|[]]; simpl; split; intros H; try done.
Qed.

(** ** What the commands return *)

Ltac git_result Hrun :=
  unfold mbind at 1, M_bind at 1 in Hrun;
  destruct (range_ _ _ _) as [[] ?s];
  unfold runGitCommand in Hrun; unfold_M; simpl in Hrun;
  repeat match type of Hrun with
         | context [env_git ?E ?args] => destruct (env_git E args)
         end; by injection Hrun as <- _.

Lemma syncCmd_stops (E : env) (items : list path) (s : state)
    (homeDir repoDir : path) :
  env_home E = Some homeDir → env_cwd E = Some repoDir →
  os_Stat (fs s) (filepath_Join repoDir ["dotfiles"]) = Err ENOENT →
  syncCmd E items s =
    (Some (errorString
       "dotfiles repository directory does not exist. Run 'gotfiles init' first"),
     s).
Proof.
  intros Hh Hc Hst. unfold syncCmd, os_UserHomeDir, os_Getwd.
  rewrite Hh, Hc. unfold_M. simpl. rewrite Hst. reflexivity.
Qed.

Lemma syncCmd_goes_on (E : env) (items : list path) (s : state)
    (homeDir repoDir : path) :
  env_home E = Some homeDir → env_cwd E = Some repoDir →
  os_Stat (fs s) (filepath_Join repoDir ["dotfiles"]) ≠ Err ENOENT →
  (syncCmd E items s).1 = None.
Proof.
  intros Hh Hc Hst. destruct (syncCmd E items s) as [r s'] eqn:Hrun. simpl.
  unfold syncCmd, os_UserHomeDir, os_Getwd in Hrun. rewrite Hh, Hc in Hrun.
  unfold mbind at 1, M_bind at 1, read at 1 in Hrun.
  destruct (os_IsNotExist _) eqn:Hne; simpl in Hrun.
  - by apply IsNotExist_stat in Hne.
  - git_result Hrun.
Qed.

Lemma initCmd_stops (E : env) (items : list path) (s : state)
    (homeDir repoDir : path) (e : errno) :
  wf (fs s) →
  env_home E = Some homeDir → env_cwd E = Some repoDir →
  (os_MkdirAll (env_umask E) (fs s) (filepath_Join repoDir ["dotfiles"]) 493).2
    = Some e →
  initCmd E items s = (Some (Errno e), s).
Proof.
  intros Hwf Hh Hc Hmk. unfold initCmd, os_UserHomeDir, os_Getwd.
  rewrite Hh, Hc. unfold mbind at 1, M_bind at 1, call at 1.
  destruct (os_MkdirAll _ _ _ _) as [fs1 err] eqn:Hrun. simpl in Hmk.
  subst err. apply os_MkdirAll_fail in Hrun as ->; [|done|apply Join_proper].
  by destruct s.
Qed.

Lemma initCmd_goes_on (E : env) (items : list path) (s : state)
    (homeDir repoDir : path) :
  env_home E = Some homeDir → env_cwd E = Some repoDir →
  (os_MkdirAll (env_umask E) (fs s) (filepath_Join repoDir ["dotfiles"]) 493).2
    = None →
  (initCmd E items s).1 = None.
Proof.
  intros Hh Hc Hmk. destruct (initCmd E items s) as [r s'] eqn:Hrun. simpl.
  unfold initCmd, os_UserHomeDir, os_Getwd in Hrun. rewrite Hh, Hc in Hrun.
  unfold mbind at 1, M_bind at 1, call at 1 in Hrun.
  destruct (os_MkdirAll _ _ _ _) as [fs1 err]. simpl in Hmk. subst err.
  git_result Hrun.
Qed.

Lemma initCmd_error (E : env) (items : list path) (s : state)
    (homeDir repoDir : path) (e : errno) :
  env_home E = Some homeDir → env_cwd E = Some repoDir →
  (os_MkdirAll (env_umask E) (fs s) (filepath_Join repoDir ["dotfiles"]) 493).2
    = Some e →
  (initCmd E items s).1 = Some (Errno e).
Proof.
  intros Hh Hc Hmk. unfold initCmd, os_UserHomeDir, os_Getwd.
  rewrite Hh, Hc. unfold mbind at 1, M_bind at 1, call at 1.
  destruct (os_MkdirAll _ _ _ _) as [fs1 err]. simpl in Hmk. by subst err.
Qed.

(** ** What [os.MkdirAll] leaves alone *)

Section MkdirAllKeeps.

Variable umask : Z.

Lemma os_Mkdir_subseteq (fs : FS) (p : path) (perm : Z) :
  fs ⊆ (os_Mkdir umask fs p perm).1.
Proof.
  unfold os_Mkdir. pose proof (resolve_sound fs false p) as Hs.
  destruct (resolve fs false p) as [k nd|kp c|e]; simpl; try done.
  apply insert_subseteq, Hs.
Qed.

Lemma MkdirAll_rev_subseteq (fs : FS) (rp : list string) (perm : Z) :
  fs ⊆ (MkdirAll_rev umask fs rp perm).1.
Proof.
  revert fs. induction rp as [|c rp IH]; intros fs; simpl.
  - destruct (os_Stat fs []) as [dir|e]; [by destruct (IsDir dir)|].
    pose proof (os_Mkdir_subseteq fs [] perm) as Hm.
    destruct (os_Mkdir umask fs [] perm) as [fs2 [e'|]]; [|done].
    destruct (os_Lstat fs2 []) as [dir|e'']; [|done].
    by destruct (IsDir dir).
  - destruct (os_Stat fs (rev rp ++ [c])) as [dir|e];
      [by destruct (IsDir dir)|].
    specialize (IH fs).
    destruct (MkdirAll_rev umask fs rp perm) as [fs1 [e1|]]; [done|].
    pose proof (os_Mkdir_subseteq fs1 (rev rp ++ [c]) perm) as Hm.
    destruct (os_Mkdir umask fs1 (rev rp ++ [c]) perm) as [fs2 [e'|]];
      simpl in *.
    + destruct (os_Lstat fs2 (rev rp ++ [c])) as [dir|e''].
      * destruct (IsDir dir); simpl; by etrans.
      * simpl. by etrans.
    + by etrans.
Qed.

Lemma os_MkdirAll_subseteq (fs : FS) (p : path) (perm : Z) :
  fs ⊆ (os_MkdirAll umask fs p perm).1.
Proof. apply MkdirAll_rev_subseteq. Qed.

End MkdirAllKeeps.

(** ** A copy that returns no error *)

Lemma node_at_subseteq (fs fs' : FS) (k : list string) (n : node) :
  fs ⊆ fs' → node_at fs k = Some n → node_at fs' k = Some n.
Proof.
  intros Hsub. destruct k; [done|]. simpl. intros H. by eapply lookup_weaken.
Qed.

Lemma copyFile_None (E : env) (src dst : path) (s s' : state) :
  copyFile E src dst s = (None, s') →
  ∃ ks kd p q d,
    resolve (fs s) true src = Found ks (File p d) ∧
    resolve (fs s') true dst
      = Found kd (File q (if decide (ks = kd) then [] else d)) ∧
    out s' = out s.
Proof.
  unfold copyFile. unfold_M. simpl. unfold os_Open.
  pose proof (resolve_sound (fs s) true src) as Hsrc.
  destruct (resolve (fs s) true src) as [ks nd| |] eqn:Hrs; simpl; try done.
  cbn [sound_result] in Hsrc.
  pose proof (os_MkdirAll_subseteq (env_umask E) (fs s) (filepath_Dir dst) 493)
    as Hsub.
  destruct (os_MkdirAll (env_umask E) (fs s) (filepath_Dir dst) 493)
    as [fs1 [e1|]]; simpl in Hsub; simpl; [done|].
  apply (node_at_subseteq _ _ _ _ Hsub) in Hsrc.
  unfold os_Create. pose proof (resolve_sound fs1 true dst) as Hdst.
  destruct (resolve fs1 true dst) as [k [q old|q|a t]|kp c|e] eqn:Hrd;
    cbn [sound_result] in Hdst; simpl; try done.
  - (* the destination exists: it is truncated *)
    assert (k ≠ []) as Hk by (by destruct k).
    rewrite node_at_ne in Hdst by done.
    unfold io_Copy. rewrite lookup_insert_eq.
    destruct (decide (ks = k)) as [->|Hne].
    + rewrite node_at_ne, lookup_insert_eq by done. simpl.
      intros [= <-]. simpl. rewrite node_at_ne in Hsrc by done.
      rewrite Hsrc in Hdst. injection Hdst as ->.
      exists k, k, q, q, old. rewrite decide_True by done.
      split; [done|]. split; [|done].
      rewrite insert_insert_eq.
      destruct (resolve_grown fs1 (<[k := File q []]> fs1) true dst k
                  (File q old)) as (nd' & -> & Hnd & _);
        [by eapply fs_le_insert_file|done|].
      rewrite node_at_ne, lookup_insert_eq in Hnd by done. by simplify_eq.
    + rewrite node_at_insert_ne by done. rewrite Hsrc.
      destruct nd as [p d|p|a t]; simpl; try done.
      intros [= <-]. simpl.
      exists ks, k, p, q, d. rewrite decide_False by done.
      split; [done|]. split; [|done].
      rewrite insert_insert_eq.
      destruct (resolve_grown fs1 (<[k := File q d]> fs1) true dst k
                  (File q old)) as (nd' & -> & Hnd & _);
        [by eapply fs_le_insert_file|done|].
      rewrite node_at_ne, lookup_insert_eq in Hnd by done. by simplify_eq.
  - (* the destination is made *)
    destruct Hdst as (Hnone & _ & _).
    assert (ks ≠ kp ++ [c]) as Hne.
    { intros ->. rewrite node_at_snoc in Hsrc. congruence. }
    unfold io_Copy. rewrite node_at_insert_ne by done. rewrite Hsrc.
    rewrite lookup_insert_eq.
    destruct nd as [p d|p|a t]; simpl; try done.
    intros [= <-]. simpl.
    exists ks, (kp ++ [c]), p, (Z.land 438 (Z.lnot (env_umask E))), d.
    rewrite decide_False by done.
    split; [done|]. split; [|done].
    rewrite insert_insert_eq.
    apply resolve_insert_missing; [by right|done].
Qed.

(** ** The directory of a path that leads somewhere *)

Lemma walk_snoc_parent (fs : FS) (b : nat) (f : bool) (cur : list string)
    (n : node) (rest : list string) (c : string) (k : list string) (nd : node) :
  is_dir n = true →
  walk fs b f cur n (rest ++ [c]) = Found k nd →
  ∃ kp m, walk fs b true cur n rest = Found kp (Dir m).
Proof.
  revert cur n rest. induction b as [|b IH]; intros cur n rest Hn; simpl;
    rewrite walk1_snoc by done;
    pose proof (walk1_jump_dir fs true cur n rest) as Hj;
    destruct (walk1 fs true cur n rest) as [[k' [p d|p|a t]| |]|cur' n' rest'];
    unfold snoc_stretch; try done; eauto.
Qed.

Lemma resolve_snoc_parent (fs : FS) (f : bool) (p : path) (c : string)
    (k : list string) (nd : node) :
  resolve fs f (p ++ [c]) = Found k nd →
  ∃ kp m, resolve fs true p = Found kp (Dir m).
Proof. by apply walk_snoc_parent. Qed.

(** The directory of a path that leads to a file exists: [os.MkdirAll]
    has nothing to make. *)
Lemma MkdirAll_Dir_of_file (umask : Z) (fs : FS) (dst : path) (perm : Z)
    (k : list string) (q : Z) (d : list Byte.byte) :
  resolve fs true dst = Found k (File q d) →
  os_MkdirAll umask fs (filepath_Dir dst) perm = (fs, None).
Proof.
  intros Hdst. destruct dst as [|c dst _] using rev_ind.
  - by rewrite resolve_root in Hdst.
  - rewrite Dir_snoc.
    apply resolve_snoc_parent in Hdst as (kp & m & Hp).
    by eapply MkdirAll_existing.
Qed.

(** ** Copying to a file that exists *)

Lemma copyFile_existing (E : env) (src dst : path) (s : state)
    (ks kd : list string) (p q : Z) (d old : list Byte.byte) :
  resolve (fs s) true src = Found ks (File p d) →
  resolve (fs s) true dst = Found kd (File q old) →
  copyFile E src dst s =
    (None, {| fs := <[kd := File q (if decide (ks = kd) then [] else d)]> (fs s);
              out := out s |}).
Proof.
  intros Hsrc Hdst. unfold copyFile. unfold_M. simpl.
  unfold os_Open. rewrite Hsrc. simpl.
  rewrite (MkdirAll_Dir_of_file _ _ _ _ _ _ _ Hdst). simpl.
  unfold os_Create. rewrite Hdst. simpl.
  apply found_file_ne in Hsrc as [Hks Hks'].
  apply found_file_ne in Hdst as [Hkd Hkd'].
  unfold io_Copy. rewrite lookup_insert_eq.
  destruct (decide (ks = kd)) as [->|Hne].
  - rewrite node_at_ne, lookup_insert_eq by done. simpl.
    by rewrite insert_insert_eq.
  - rewrite node_at_insert_ne by done. rewrite node_at_ne, Hks' by done.
    simpl. by rewrite insert_insert_eq.
Qed.

(** ** A regular file whose repository copy exists *)

Lemma processPath_file (E : env) (item homeDir repoDir : path) (isSync : bool)
    (s : state) (ks kd : list string) (p q : Z) (d old : list Byte.byte) :
  resolve (fs s) false (filepath_Join homeDir item) = Found ks (File p d) →
  resolve (fs s) true (filepath_Join repoDir item) = Found kd (File q old) →
  processPath E item homeDir repoDir isSync s =
    (tt,
     if decide (ks = kd) then
       {| fs := delete ks (fs s);
          out := (out s ++ [copied_line "file " item isSync])
                 ++ [Log ("No backup for " +:+ show_path item
                          +:+ " found in repository.")] |}
     else
       {| fs := <[ks := Symlink true (filepath_Join repoDir item)]>
                  (<[kd := File q d]> (fs s));
          out := (out s ++ [copied_line "file " item isSync])
                 ++ [Stdout ("Created symlink for " +:+ show_path item
                             +:+ ".")] |}).
Proof.
  set (source := filepath_Join homeDir item).
  set (dest := filepath_Join repoDir item).
  intros Hsrc Hdst.
  assert (resolve (fs s) true source = Found ks (File p d)) as Hsrc'
    by by apply walk_nofollow_follow.
  pose proof (copyFile_existing E source dest s ks kd p q d old Hsrc' Hdst)
    as Hcp.
  destruct (found_file_ne _ _ _ _ _ _ Hsrc) as [Hks Hks'].
  destruct (found_file_ne _ _ _ _ _ _ Hdst) as [Hkd Hkd'].
  set (fs1 := <[kd := File q (if decide (ks = kd) then [] else d)]> (fs s))
    in *.
  assert (fs_le (fs s) fs1) as Hle by by eapply fs_le_insert_file.
  assert (∃ d1, fs1 !! ks = Some (File p d1)) as [d1 Hks1].
  { destruct (Hle ks _ Hks') as (n' & Hn' & [d1 ->]%node_le_file). eauto. }
  assert (resolve fs1 false source = Found ks (File p d1)) as Hsrc1.
  { destruct (resolve_grown _ _ _ _ _ _ Hle Hsrc) as (nd' & H1 & H2 & _).
    rewrite node_at_ne, Hks1 in H2 by done. by simplify_eq. }
  assert (∃ d2, resolve fs1 true dest = Found kd (File q d2)) as [d2 Hdst1].
  { destruct (resolve_grown _ _ _ _ _ _ Hle Hdst)
      as (nd' & H1 & _ & [d2 ->]%node_le_file). eauto. }
  pose proof (resolve_delete _ _ _ _ _ _ _ _ Hks1 Hks Hsrc1) as Hdel.
  rewrite decide_True in Hdel by done. destruct Hdel as (kp & c & Hkpc & Hdel).
  pose proof (resolve_delete _ _ _ _ _ _ _ _ Hks1 Hks Hdst1) as Hdel'.
  unfold processPath. fold source dest. unfold_M. simpl.
  rewrite (lstat_found _ _ _ _ Hsrc). simpl.
  rewrite mode_symlink_test, mode_dir_test. simpl.
  rewrite Hcp. simpl.
  destruct (decide (ks = kd)) as [<-|Hne].
  - rewrite decide_True in Hdel' by done.
    destruct Hdel' as (kp' & c' & _ & Hdel').
    unfold fs1 in *.
    destruct isSync; simpl; rewrite (os_Remove_file _ _ _ _ _ Hsrc1); simpl;
      unfold os_Lstat; rewrite Hdel; simpl;
      unfold os_Stat; rewrite Hdel'; simpl;
      by rewrite delete_insert_eq.
  - rewrite decide_False in Hdel' by congruence.
    destruct isSync; simpl; rewrite (os_Remove_file _ _ _ _ _ Hsrc1); simpl;
      unfold os_Lstat; rewrite Hdel; simpl;
      rewrite (stat_found _ _ _ _ Hdel'); simpl;
      unfold os_Symlink; rewrite Hdel; simpl;
      by rewrite <- Hkpc, insert_delete_eq.
Qed.

(** ** A directory as the source of [copyFile] *)

Lemma copyFile_directory_fails (E : env) (src dst : path) (s : state)
    (k : list string) (m : Z) :
  resolve (fs s) true src = Found k (Dir m) →
  (copyFile E src dst s).1 ≠ None.
Proof.
  intros Hsrc Hnone. destruct (copyFile E src dst s) as [r s'] eqn:Hcp.
  simpl in Hnone. subst r.
  apply copyFile_None in Hcp as (ks & kd & p & q & d & Hr & _). congruence.
Qed.

(** A loop stops with an error when the body fails for one of the
    elements, in every state the loop can be in. *)
Lemma range_fails {A} (I : state → Prop) (l : list A)
    (body : A → M (option error)) (x : A) :
  x ∈ l →
  (∀ y s, I s → I (body y s).2) →
  (∀ s, I s → (body x s).1 ≠ None) →
  ∀ s, I s → (range l body s).1 ≠ None.
Proof.
  intros Hx Hkeep Hfail. induction l as [|y l IH]; intros s Hs.
  - by apply elem_of_nil in Hx.
  - simpl. unfold mbind, M_bind.
    pose proof (Hkeep y s Hs) as Hy.
    destruct (body y s) as [[e|] s1] eqn:Hb; simpl in *; [done|].
    apply elem_of_cons in Hx as [->|Hx].
    + specialize (Hfail s Hs). by rewrite Hb in Hfail.
    + by apply IH.
Qed.

Lemma copyDir_at_link_to_directory (E : env) (depth : nat) (src dst : path)
    (s : state) (ks : list string) (ms : Z) (c : string) (a : bool)
    (t : list string) (k : list string) (m : Z) :
  resolve (fs s) true src = Found ks (Dir ms) →
  fs s !! (ks ++ [c]) = Some (Symlink a t) →
  resolve (fs s) true (filepath_Join src [c]) = Found k (Dir m) →
  (copyDir_at E (S depth) src dst s).1 ≠ None.
Proof.
  intros Hsrc Hc Hlink. simpl. unfold_M. simpl.
  rewrite (stat_found _ _ _ _ Hsrc). simpl.
  pose proof (os_MkdirAll_le (env_umask E) (fs s) dst
                (mode_of (Dir ms))) as Hle.
  destruct (os_MkdirAll (env_umask E) (fs s) dst (mode_of (Dir ms)))
    as [fs1 [e|]]; simpl in Hle; simpl; [done|].
  destruct (resolve_grown _ _ _ _ _ _ Hle Hsrc) as (nd & Hsrc1 & _ & ->%node_le_dir).
  unfold ioutil_ReadDir. rewrite Hsrc1.
  destruct (Hle _ _ Hc) as (n' & Hc1 & ->%node_le_symlink).
  apply (range_fails (λ s', fs_le fs1 (fs s')) _ _
           {| Name := c; Mode := mode_of (Symlink a t) |}).
  - apply (list_elem_of_fmap_2 (λ e : string * node,
             {| Name := e.1; Mode := mode_of e.2 |}) _ (c, Symlink a t)).
    by apply elem_of_children.
  - intros entry s' Hs'. etrans; [done|].
    destruct (IsDir entry); [apply copyDir_at_le|apply copyFile_le].
  - intros s' Hs'. rewrite mode_dir_test. simpl.
    assert (fs_le (fs s) (fs s')) as Hle' by by etrans.
    destruct (resolve_grown _ _ _ _ _ _ Hle' Hlink)
      as (nd & Hlink' & _ & ->%node_le_dir).
    by eapply copyFile_directory_fails.
  - done.
Qed.

(** ** Paths that cross no symbolic link *)

(** In a tree, the path of an object leads to that object. *)
Lemma resolve_canonical (fs : FS) (f : bool) (k : list string) (nd : node) :
  wf fs → node_at fs k = Some nd →
  f = false ∨ is_symlink nd = false →
  resolve fs f k = Found k nd.
Proof.
  intros Hwf. revert f nd. induction k as [|c k IH] using rev_ind;
    intros f nd Hk Hf.
  - simpl in Hk. injection Hk as <-. apply resolve_root.
  - rewrite node_at_snoc in Hk.
    destruct (wf_lookup _ _ _ Hwf Hk) as (_ & [_ [Hc _]%Forall_cons_1]%Forall_app & _).
    destruct (wf_parent _ _ _ _ Hwf Hk) as [p Hp].
    eapply resolve_snoc; [by apply IH; [|right]|].
    rewrite walk1_last, Hk by done.
    destruct nd as [q d|q|a t]; [done|done|]. by destruct Hf as [->|].
Qed.

Lemma resolve_canonical_missing (fs : FS) (f : bool) (k : list string)
    (c : string) (m : Z) :
  wf fs → node_at fs k = Some (Dir m) → proper c →
  fs !! (k ++ [c]) = None →
  resolve fs f (k ++ [c]) = Missing k c.
Proof.
  intros Hwf Hk Hc Hn.
  eapply resolve_snoc; [by apply resolve_canonical; [| |right]|].
  by rewrite walk1_last, Hn.
Qed.

(** ** Removing a tree *)

Lemma remove_tree_lookup_ne (fs : FS) (k k' : list string) :
  ¬ k `prefix_of` k' → remove_tree fs k !! k' = fs !! k'.
Proof.
  intros H. unfold remove_tree. destruct (fs !! k') as [n|] eqn:Hk.
  - by apply map_lookup_filter_Some.
  - apply map_lookup_filter_None. by left.
Qed.

Lemma prefix_removelast (k k' : list string) :
  k `prefix_of` removelast k' → k `prefix_of` k'.
Proof.
  intros [r Hr]. destruct k' as [|c k' _] using rev_ind.
  - simpl in Hr. by exists r.
  - rewrite removelast_last in Hr. subst k'. exists (r ++ [c]).
    by rewrite app_assoc.
Qed.

Lemma wf_remove_tree (fs : FS) (k : list string) :
  wf fs → wf (remove_tree fs k).
Proof.
  intros Hwf k' n Hk'. unfold remove_tree in Hk'.
  apply map_lookup_filter_Some in Hk' as [Hk' Hpre]. simpl in Hpre.
  destruct (wf_lookup _ _ _ Hwf Hk') as (H1 & H2 & [p H3]).
  split; [done|]. split; [done|].
  assert (node_at (remove_tree fs k) (removelast k') = Some (Dir p)) as ->;
    [|done].
  destruct (removelast k') as [|x r] eqn:Hr; [done|].
  simpl in *. rewrite remove_tree_lookup_ne; [done|].
  intros H. apply Hpre, prefix_removelast. by rewrite Hr.
Qed.

(** ** Paths with a last component *)

Lemma snoc_cases {A} (l : list A) : l ≠ [] → ∃ l' x, l = l' ++ [x].
Proof. destruct l as [|x l' _] using rev_ind; [done|eauto]. Qed.

(** ** A directory that is moved *)

Lemma processPath_directory (E : env) (item homeDir repoDir : path)
    (isSync : bool) (s : state) (ms : Z) (kp : list string) (c : string) :
  let source := filepath_Join homeDir item in
  let dest := filepath_Join repoDir item in
  wf (fs s) →
  resolve (fs s) false source = Found source (Dir ms) →
  plain_tree (fs s) source → shallow (fs s) source PATH_DEPTH →
  resolve (fs s) false dest = Missing kp c → kp ++ [c] = dest →
  ¬ source `prefix_of` dest →
  ∃ fs1,
    copied (env_umask E) (fs s) fs1 source dest ∧
    processPath E item homeDir repoDir isSync s =
      (tt, {| fs := <[source := Symlink true dest]> (remove_tree fs1 source);
              out := (out s ++ [copied_line "directory " item isSync])
                     ++ [Stdout ("Created symlink for " +:+ show_path item
                                 +:+ ".")] |}) ∧
    resolve (<[source := Symlink true dest]> (remove_tree fs1 source)) false
      source = Found source (Symlink true dest).
Proof.
  intros source dest Hwf Hsrc Hplain Hshallow Hdst Hkd Hpre.
  assert (source ≠ []) as Hne.
  { intros H. apply Hpre. rewrite H. apply prefix_nil. }
  assert (resolve (fs s) true source = Found source (Dir ms)) as Hsrc'
    by by apply walk_nofollow_follow.
  destruct (copyDir_at_correct E PATH_DEPTH source dest s source ms kp c)
    as (fs1 & Hcp & Hcopied); try done;
    [apply Join_proper|apply Join_proper|by rewrite Hkd|].
  change (copyDir_at E PATH_DEPTH source dest s)
    with (copyDir E source dest s) in Hcp.
  rewrite Hkd in Hcopied. exists fs1. split; [done|].
  destruct Hcopied as (Hwf1 & Hin & Hout).
  (* the source after the copy *)
  pose proof (resolve_sound (fs s) false source) as Hs.
  rewrite Hsrc in Hs. cbn [sound_result] in Hs. rewrite node_at_ne in Hs by done.
  assert (fs1 !! source = Some (Dir ms)) as Hs1.
  { rewrite Hout; [done|]. intros H. apply Hpre.
    destruct H as [r Hr]. rewrite Hr in Hs.
    pose proof (resolve_sound (fs s) false dest) as Hd.
    rewrite Hdst in Hd. cbn [sound_result] in Hd. rewrite Hkd in Hd.
    destruct Hd as [Hd _].
    destruct r as [|x r]; [rewrite app_nil_r in Hs; congruence|].
    rewrite (wf_below_none _ dest (x :: r) Hwf) in Hs; [done| |done].
    rewrite <- Hkd. by destruct kp. }
  assert (resolve fs1 false source = Found source (Dir ms)) as Hsrc1.
  { apply resolve_canonical; [done| |by left]. by rewrite node_at_ne. }
  (* the tree without the source *)
  set (fs2 := remove_tree fs1 source).
  assert (wf fs2) as Hwf2 by by apply wf_remove_tree.
  destruct (wf_lookup _ _ _ Hwf1 Hs1) as (_ & Hproper & [p Hparent]).
  destruct (snoc_cases source Hne) as (sp & sc & Hsplit).
  rewrite Hsplit, removelast_last in Hparent.
  rewrite Hsplit in Hproper.
  apply Forall_app in Hproper as [_ [Hsc _]%Forall_cons_1].
  assert (resolve fs2 false source = Missing sp sc) as Hmiss.
  { rewrite Hsplit at 1.
    apply resolve_canonical_missing with (m := p); [done| |done|].
    - destruct (decide (sp = [])) as [->|Hsp]; [done|].
      rewrite node_at_ne in * by done. unfold fs2.
      rewrite remove_tree_lookup_ne; [done|].
      rewrite Hsplit. intros [r Hr]. apply (f_equal length) in Hr.
      rewrite !length_app in Hr. simpl in Hr. lia.
    - rewrite <- Hsplit. by apply remove_tree_lookup. }
  assert (∃ md, resolve fs2 true dest = Found dest (Dir md)) as [md Hdst2].
  { eexists. apply resolve_canonical; [done| |by right].
    rewrite node_at_ne by (rewrite <- Hkd; by destruct kp).
    unfold fs2. rewrite remove_tree_lookup_ne by done.
    specialize (Hin []). rewrite !app_nil_r in Hin. rewrite Hin, Hs.
    reflexivity. }
  split.
  - unfold processPath. fold source dest. unfold_M. simpl.
    rewrite (lstat_found _ _ _ _ Hsrc). simpl.
    rewrite mode_symlink_test, mode_dir_test. simpl.
    rewrite Hcp. simpl.
    assert (os_RemoveAll fs1 source = (fs2, None)) as Hrm.
    { unfold os_RemoveAll. rewrite Hsrc1. by destruct source. }
    destruct isSync; simpl; rewrite Hrm; simpl;
      unfold os_Lstat; rewrite Hmiss; simpl;
      rewrite (stat_found _ _ _ _ Hdst2); simpl;
      unfold os_Symlink; rewrite Hmiss; by rewrite <- Hsplit.
  - assert (∀ k, k = sp ++ [sc] →
              resolve (<[k := Symlink true dest]> fs2) false source
                = Found k (Symlink true dest)) as Hlink.
    { intros k ->. by apply resolve_insert_missing; [left|]. }
    by apply Hlink.
Qed.

(** ** An empty directory *)



(** ** A regular file that is not in the repository yet *)

Lemma processPath_fresh_file (E : env) (item homeDir repoDir : path)
    (isSync : bool) (s : state) (ks : list string) (p : Z)
    (d : list Byte.byte) (kp : list string) (c : string) :
  resolve (fs s) false (filepath_Join homeDir item) = Found ks (File p d) →
  resolve (fs s) false (filepath_Join repoDir item) = Missing kp c →
  processPath E item homeDir repoDir isSync s =
    (tt, {| fs := <[ks := Symlink true (filepath_Join repoDir item)]>
                    (<[kp ++ [c] := File (created_perm E) d]> (fs s));
            out := (out s ++ [copied_line "file " item isSync])
                   ++ [Stdout ("Created symlink for " +:+ show_path item
                               +:+ ".")] |}).
Proof.
  set (source := filepath_Join homeDir item).
  set (dest := filepath_Join repoDir item).
  intros Hsrc Hdst.
  assert (resolve (fs s) true source = Found ks (File p d)) as Hsrc'
    by by apply walk_nofollow_follow.
  pose proof (copyFile_missing E source dest s ks p d kp c
                (Join_proper _ _) Hsrc' Hdst) as Hcp.
  destruct (found_file_ne _ _ _ _ _ _ Hsrc) as [Hks Hks'].
  pose proof (resolve_sound (fs s) false dest) as Hd.
  rewrite Hdst in Hd. cbn [sound_result] in Hd. destruct Hd as (Hnone & _ & _).
  assert (ks ≠ kp ++ [c]) as Hne by congruence.
  set (fs1 := <[kp ++ [c] := File (created_perm E) d]> (fs s)) in *.
  assert (fs_le (fs s) fs1) as Hle by by apply fs_le_insert_new.
  assert (fs1 !! ks = Some (File p d)) as Hks1
    by (unfold fs1; by rewrite lookup_insert_ne).
  assert (resolve fs1 false source = Found ks (File p d)) as Hsrc1.
  { destruct (resolve_grown _ _ _ _ _ _ Hle Hsrc) as (nd' & H1 & H2 & _).
    rewrite node_at_ne, Hks1 in H2 by done. by simplify_eq. }
  assert (resolve fs1 true dest = Found (kp ++ [c]) (File (created_perm E) d))
    as Hdst1.
  { apply resolve_insert_missing; [by right|].
    by apply resolve_nofollow_missing. }
  pose proof (resolve_delete _ _ _ _ _ _ _ _ Hks1 Hks Hsrc1) as Hdel.
  rewrite decide_True in Hdel by done.
  destruct Hdel as (kp' & c' & Hkpc & Hdel).
  pose proof (resolve_delete _ _ _ _ _ _ _ _ Hks1 Hks Hdst1) as Hdel'.
  rewrite decide_False in Hdel' by congruence.
  unfold processPath. fold source dest. unfold_M. simpl.
  rewrite (lstat_found _ _ _ _ Hsrc). simpl.
  rewrite mode_symlink_test, mode_dir_test. simpl.
  rewrite Hcp. simpl.
  destruct isSync; simpl; rewrite (os_Remove_file _ _ _ _ _ Hsrc1); simpl;
    unfold os_Lstat; rewrite Hdel; simpl;
    rewrite (stat_found _ _ _ _ Hdel'); simpl;
    unfold os_Symlink; rewrite Hdel; simpl;
    by rewrite <- Hkpc, insert_delete_eq.
Qed.

(** ** A file that is replaced *)

Lemma wf_replace_file (fs : FS) (k : list string) (p : Z)
    (d : list Byte.byte) (nd : node) :
  wf fs → fs !! k = Some (File p d) → wf (<[k := nd]> fs).
Proof.
  intros Hwf Hk k' n. destruct (wf_lookup _ _ _ Hwf Hk) as (H1 & H2 & [q H3]).
  assert (∀ k', k' ≠ [] → (∃ q, node_at fs (removelast k') = Some (Dir q)) →
            ∃ q, node_at (<[k := nd]> fs) (removelast k') = Some (Dir q))
    as Hpar.
  { intros k0 Hk0 [q0 Hq0]. exists q0. rewrite node_at_insert_ne; [done|].
    intros H. rewrite <- H in Hq0. destruct k; [done|]. simpl in Hq0.
    congruence. }
  destruct (decide (k = k')) as [<-|Hne].
  - intros _. split; [done|]. split; [done|].
    destruct (Hpar k H1) as [q' ->]; eauto.
  - rewrite lookup_insert_ne by done. intros Hk'.
    destruct (wf_lookup _ _ _ Hwf Hk') as (H1' & H2' & H3').
    split; [done|]. split; [done|].
    destruct (Hpar k' H1' H3') as [q' ->]; eauto.
Qed.

Lemma snoc_ne_self {A} (l : list A) (x : A) : l ≠ l ++ [x].
Proof.
  intros H. apply (f_equal length) in H. rewrite length_app in H.
  simpl in H. lia.
Qed.

(** ** [sync] over files that only the repository has *)

Lemma processPath_link (E : env) (item homeDir repoDir : path)
    (isSync : bool) (s : state) (kp : list string) (c : string)
    (fi : FileInfo) :
  resolve (fs s) false (filepath_Join homeDir item) = Missing kp c →
  os_Stat (fs s) (filepath_Join repoDir item) = Ok fi →
  processPath E item homeDir repoDir isSync s =
    (tt, {| fs := <[kp ++ [c] := Symlink true (filepath_Join repoDir item)]>
                    (fs s);
            out := (out s
                    ++ [Log (show_path item +:+ " does not exist in home.")])
                   ++ [Stdout ("Created symlink for " +:+ show_path item
                               +:+ ".")] |}).
Proof.
  intros Hsrc Hdst.
  assert (os_Lstat (fs s) (filepath_Join homeDir item) = Err ENOENT) as Hl.
  { unfold os_Lstat. by rewrite Hsrc. }
  unfold processPath. unfold_M. simpl. rewrite Hl. simpl. rewrite Hl. simpl.
  rewrite Hdst. simpl. unfold os_Symlink. rewrite Hsrc. reflexivity.
Qed.

Lemma links_loop (E : env) (homeDir dot : path) (isSync : bool)
    (names : list string) :
  ∀ s : state,
    wf (fs s) →
    (∃ m, node_at (fs s) homeDir = Some (Dir m)) →
    Forall proper dot →
    NoDup names → Forall proper names →
    (∀ n, n ∈ names →
       fs s !! (homeDir ++ [n]) = None ∧ stored (fs s) (dot ++ [n])) →
    let s' := (range_ ((λ n, [n]) <$> names)
                 (λ item, processPath E item homeDir dot isSync) s).2 in
    wf (fs s') ∧
    (∀ n, n ∈ names →
       fs s' !! (homeDir ++ [n]) = Some (Symlink true (dot ++ [n]))) ∧
    (∀ k, (∀ n, n ∈ names → k ≠ homeDir ++ [n]) → fs s' !! k = fs s !! k).
Proof.
  induction names as [|n names IH]; intros s Hwf Hhome Hpd Hnd Hproper Hnames.
  { simpl. split; [done|]. split; [|done]. intros n Hn.
    by apply elem_of_nil in Hn. }
  apply NoDup_cons in Hnd as [Hn Hnd].
  apply Forall_cons_1 in Hproper as [Hpn Hproper].
  destruct Hhome as [mh Hhome].
  pose proof (wf_proper_dir _ _ _ Hwf Hhome) as Hph.
  destruct (Hnames n) as [Hnone Hstored]; [left|].
  unfold stored in Hstored.
  destruct (fs s !! (dot ++ [n])) as [nd|] eqn:Hdst; [|done].
  set (fs1 := <[homeDir ++ [n] := Symlink true (dot ++ [n])]> (fs s)).
  assert (processPath E [n] homeDir dot isSync s =
            (tt, {| fs := fs1;
                    out := (out s ++ [Log (show_path [n]
                                           +:+ " does not exist in home.")])
                           ++ [Stdout ("Created symlink for "
                                       +:+ show_path [n] +:+ ".")] |}))
    as Hstep.
  { pose proof (processPath_link E [n] homeDir dot isSync s homeDir n
                  {| Name := List.last (dot ++ [n]) ""; Mode := mode_of nd |})
      as H.
    rewrite !Join_snoc in H by done. apply H.
    - by eapply resolve_canonical_missing.
    - eapply stat_found. apply resolve_canonical; [done| |by right].
      by rewrite node_at_snoc. }
  intros s'. unfold s'. clear s'. cbn [fmap list_fmap].
  rewrite range__cons. cbv beta. rewrite Hstep. cbn [snd].
  set (s1 := {| fs := fs1; out := _ |}).
  assert (wf fs1) as Hwf1 by by eapply wf_insert_new.
  assert (∀ k, k ≠ homeDir ++ [n] → fs1 !! k = fs s !! k) as Hframe.
  { intros k H1. unfold fs1. by rewrite lookup_insert_ne. }
  destruct (IH s1) as (Hwf' & Hdone & Hrest); try done.
  { exists mh. simpl. unfold fs1. rewrite node_at_insert_ne; [done|].
    intros H. by apply (snoc_ne_self homeDir n). }
  { intros n' Hn'. destruct (Hnames n') as [Hf' Hn0]; [by right|].
    assert (n' ≠ n) as Hnn by (intros ->; done).
    unfold stored in *. simpl.
    rewrite !Hframe; [done|..].
    - intros H. rewrite H, Hnone in Hn0. done.
    - intros [? ?]%app_inj_tail; congruence. }
  split; [done|]. split.
  - intros n' [->|Hn']%elem_of_cons; [|by apply Hdone].
    rewrite Hrest.
    + simpl. apply lookup_insert_eq.
    + intros n' Hn'. intros [? ?]%app_inj_tail; congruence.
  - intros k Hk. rewrite Hrest.
    + simpl. apply Hframe, Hk. left.
    + intros n' Hn'. apply Hk. by right.
Qed.

Lemma syncCmd_fs (E : env) (items : list path) (s : state)
    (homeDir repoDir : path) :
  env_home E = Some homeDir → env_cwd E = Some repoDir →
  os_Stat (fs s) (filepath_Join repoDir ["dotfiles"]) ≠ Err ENOENT →
  fs (syncCmd E items s).2 =
    fs (range_ items (λ item, processPath E item homeDir
                                (filepath_Join repoDir ["dotfiles"]) true)
          s).2.
Proof.
  intros Hh Hc Hst. unfold syncCmd, os_UserHomeDir, os_Getwd.
  rewrite Hh, Hc. unfold mbind at 1, M_bind at 1, read at 1.
  destruct (os_IsNotExist _) eqn:Hne; [by apply IsNotExist_stat in Hne|].
  unfold mbind at 1, M_bind at 1.
  destruct (range_ _ _ _) as [[] s2]. unfold runGitCommand. unfold_M. simpl.
  by destruct (env_git E ["add"; "."]),
              (env_git E ["commit"; "-m"; "Sync dotfiles changes"]),
              (env_git E ["push"]).
Qed.

(** ** Places that lie apart *)

Lemma prefix_snoc_inv {A} (k l : list A) (x : A) :
  k `prefix_of` l ++ [x] → k = l ++ [x] ∨ k `prefix_of` l.
Proof.
  intros [r Hr]. destruct r as [|y r _] using rev_ind.
  - left. by rewrite app_nil_r in Hr.
  - right. rewrite app_assoc in Hr. apply app_inj_tail in Hr as [-> _].
    by exists r.
Qed.

Lemma siblings_apart {A} (h : list A) (n n' : A) (k : list A) :
  n ≠ n' → (h ++ [n]) `prefix_of` k → ¬ (h ++ [n']) `prefix_of` k.
Proof.
  intros Hne [r Hr] [r' Hr']. rewrite Hr, <- !app_assoc in Hr'.
  apply app_inv_head in Hr'. simpl in Hr'. congruence.
Qed.

Lemma not_below_missing (fs : FS) (k kd : list string) :
  wf fs → kd ≠ [] → fs !! kd = None → is_Some (fs !! k) →
  ¬ kd `prefix_of` k.
Proof.
  intros Hwf Hne Hn [nd Hk] [r ->]. rewrite wf_below_none in Hk; done.
Qed.

(** The places of two items with different names: neither the originals
    nor the copies lie in one another. *)
Lemma items_apart (fs : FS) (homeDir dot : list string) (n n' : string) :
  wf fs → n ≠ n' →
  is_Some (fs !! (homeDir ++ [n])) → is_Some (fs !! (homeDir ++ [n'])) →
  fs !! (dot ++ [n]) = None → fs !! (dot ++ [n']) = None →
  ¬ (homeDir ++ [n]) `prefix_of` dot → ¬ (homeDir ++ [n']) `prefix_of` dot →
  ∀ k, (homeDir ++ [n]) `prefix_of` k ∨ (dot ++ [n]) `prefix_of` k →
       ¬ (homeDir ++ [n']) `prefix_of` k ∧ ¬ (dot ++ [n']) `prefix_of` k.
Proof.
  intros Hwf Hne Hs Hs' Hd Hd' Hp Hp' k Hk.
  assert (∀ m m' : string, m ≠ m' →
            is_Some (fs !! (homeDir ++ [m])) → fs !! (dot ++ [m']) = None →
            ¬ (homeDir ++ [m]) `prefix_of` dot →
            (homeDir ++ [m]) `prefix_of` k → ¬ (dot ++ [m']) `prefix_of` k)
    as Hcross.
  { intros m m' Hmm Hsm Hdm Hpm Ha Hb.
    destruct (prefix_weak_total _ _ _ Ha Hb) as [H|H].
    - apply prefix_snoc_inv in H as [H|H]; [|done].
      apply app_inj_tail in H as [_ ?]. done.
    - eapply (not_below_missing fs); [exact Hwf| |exact Hdm|exact Hsm|exact H].
      by destruct dot. }
  destruct Hk as [Hk|Hk]; split.
  - by apply siblings_apart with n.
  - by apply (Hcross n n').
  - intros H. by apply (Hcross n' n) in H.
  - by apply siblings_apart with n.
Qed.

(** ** A file or a plain directory that is moved *)

Lemma processPath_moves (E : env) (homeDir dot : path) (isSync : bool)
    (n : string) (s : state) (mh md : Z) :
  wf (fs s) →
  node_at (fs s) homeDir = Some (Dir mh) →
  node_at (fs s) dot = Some (Dir md) →
  proper n →
  plain_item (fs s) (homeDir ++ [n]) →
  fs s !! (dot ++ [n]) = None →
  ¬ (homeDir ++ [n]) `prefix_of` dot →
  let fs1 := fs (processPath E [n] homeDir dot isSync s).2 in
  wf fs1 ∧
  fs1 !! (homeDir ++ [n]) = Some (Symlink true (dot ++ [n])) ∧
  (∀ r, r ≠ [] → fs1 !! ((homeDir ++ [n]) ++ r) = None) ∧
  (∀ r, fs1 !! ((dot ++ [n]) ++ r)
        = copy_node (env_umask E) <$> fs s !! ((homeDir ++ [n]) ++ r)) ∧
  (∀ k, ¬ (homeDir ++ [n]) `prefix_of` k → ¬ (dot ++ [n]) `prefix_of` k →
        fs1 !! k = fs s !! k).
Proof.
  intros Hwf Hhome Hdot Hpn (Hst & Hplain & Hshallow) Hnone Hpre.
  pose proof (wf_proper_dir _ _ _ Hwf Hhome) as Hph.
  pose proof (wf_proper_dir _ _ _ Hwf Hdot) as Hpd.
  set (source := homeDir ++ [n]) in *. set (dest := dot ++ [n]) in *.
  assert (filepath_Join homeDir [n] = source) as HJs by by apply Join_snoc.
  assert (filepath_Join dot [n] = dest) as HJd by by apply Join_snoc.
  assert (source ≠ []) as Hsne by (unfold source; by destruct homeDir).
  assert (dest ≠ []) as Hdne by (unfold dest; by destruct dot).
  unfold stored in Hst.
  destruct (fs s !! source) as [nd|] eqn:Hsrc; [|done].
  assert (¬ source `prefix_of` dest) as Hsd.
  { intros [H|H]%prefix_snoc_inv; [|done]. fold dest in H.
    rewrite H, Hnone in Hsrc. done. }
  assert (∀ r, ¬ source `prefix_of` dest ++ r) as Hsdr.
  { intros r H.
    destruct (prefix_weak_total _ _ _ H (prefix_app_r dest dest r
                (reflexivity _))) as [H'|H']; [done|].
    eapply (not_below_missing (fs s)); [exact Hwf|exact Hdne|exact Hnone| |exact H'].
    by rewrite Hsrc. }
  assert (∀ r, ¬ dest `prefix_of` source ++ r) as Hdsr.
  { intros r H.
    destruct (prefix_weak_total _ _ _ H (prefix_app_r source source r
                (reflexivity _))) as [H'|H']; [|done].
    eapply (not_below_missing (fs s)); [exact Hwf|exact Hdne|exact Hnone| |exact H'].
    by rewrite Hsrc. }
  assert (resolve (fs s) false dest = Missing dot n) as Hrd
    by by eapply resolve_canonical_missing.
  intros fs1. unfold fs1. clear fs1.
  destruct nd as [p d|ms|a t]; [| |done].
  - (* a regular file *)
    pose proof (processPath_fresh_file E [n] homeDir dot isSync s
                  source p d dot n) as H.
    rewrite HJs, HJd in H. rewrite H; [|
      apply resolve_canonical; [done|by rewrite node_at_ne|by left] |done].
    clear H. cbn [snd fs]. fold dest.
    split; [|split; [|split; [|split]]].
    + eapply wf_replace_file.
      * by eapply wf_insert_new.
      * rewrite lookup_insert_ne; [done|congruence].
    + apply lookup_insert_eq.
    + intros r Hr. rewrite !lookup_insert_ne.
      * by eapply wf_below_file.
      * intros H. apply Hsd. exists r. done.
      * intros H. apply (f_equal length) in H. rewrite length_app in H.
        destruct r; [done|]. simpl in H. lia.
    + intros r. destruct (decide (r = [])) as [->|Hr].
      * rewrite !app_nil_r, lookup_insert_ne by congruence.
        by rewrite lookup_insert_eq, Hsrc.
      * rewrite !lookup_insert_ne.
        -- rewrite wf_below_none by done.
           by erewrite wf_below_file.
        -- intros H. apply (f_equal length) in H. rewrite length_app in H.
           destruct r; [done|]. simpl in H. lia.
        -- intros H. apply (Hdsr []). rewrite app_nil_r. by exists r.
    + intros k H1 H2. rewrite !lookup_insert_ne; [done|..].
      * by intros ->.
      * by intros ->.
  - (* a directory *)
    destruct (processPath_directory E [n] homeDir dot isSync s ms dot n)
      as (fsc & (Hwfc & Hin & Hout) & Hrun & _).
    { done. }
    { rewrite HJs. apply resolve_canonical; [done| |by left].
      by rewrite node_at_ne. }
    { by rewrite HJs. }
    { by rewrite HJs. }
    { by rewrite HJd. }
    { by rewrite HJd. }
    { by rewrite HJs, HJd. }
    rewrite HJs, HJd in *. rewrite Hrun. cbn [snd fs].
    assert (fsc !! source = Some (Dir ms)) as Hsc.
    { rewrite Hout; [done|]. pose proof (Hdsr []) as H.
      by rewrite app_nil_r in H. }
    assert (wf (remove_tree fsc source)) as Hwf2 by by apply wf_remove_tree.
    split; [|split; [|split; [|split]]].
    + unfold source. destruct (wf_parent _ _ _ _ Hwfc Hsc) as [q Hq].
      eapply wf_insert_new; [done| |done|].
      * destruct (decide (homeDir = [])) as [->|Hhne]; [done|].
        rewrite node_at_ne in * by done.
        rewrite remove_tree_lookup_ne; [done|].
        apply prefix_snoc_not.
      * by apply remove_tree_lookup.
    + apply lookup_insert_eq.
    + intros r Hr. rewrite lookup_insert_ne.
      * apply remove_tree_lookup. by apply prefix_app_r.
      * intros H. apply (f_equal length) in H. rewrite length_app in H.
        destruct r; [done|]. simpl in H. lia.
    + intros r. rewrite lookup_insert_ne.
      * rewrite remove_tree_lookup_ne by done. apply Hin.
      * intros H. apply (Hsdr r). by rewrite <- H.
    + intros k H1 H2. rewrite lookup_insert_ne by (by intros ->).
      rewrite remove_tree_lookup_ne by done. by apply Hout.
Qed.

(** ** A run over files and plain directories of the home directory *)

Lemma plain_item_same (fs fs' : FS) (k : list string) :
  (∀ k', k `prefix_of` k' → fs' !! k' = fs !! k') →
  plain_item fs k → plain_item fs' k.
Proof.
  intros Hsame (Hst & Hplain & Hshallow). split; [|split].
  - unfold stored in *. by rewrite Hsame.
  - intros k' nd Hk' Hpre. rewrite Hsame in Hk' by done.
    by apply (Hplain k' nd).
  - intros k' nd Hk' Hpre. rewrite Hsame in Hk' by done.
    by apply (Hshallow k' nd).
Qed.

Lemma plain_item_Some (fs : FS) (k : list string) :
  plain_item fs k → is_Some (fs !! k).
Proof.
  intros [Hst _]. unfold stored in Hst. by destruct (fs !! k).
Qed.

Lemma moves_loop (E : env) (homeDir dot : path) (isSync : bool)
    (names : list string) :
  ∀ s : state,
    wf (fs s) →
    (∃ m, node_at (fs s) homeDir = Some (Dir m)) →
    (∃ m, node_at (fs s) dot = Some (Dir m)) →
    NoDup names → Forall proper names →
    (∀ n, n ∈ names →
       plain_item (fs s) (homeDir ++ [n]) ∧ fs s !! (dot ++ [n]) = None ∧
       ¬ (homeDir ++ [n]) `prefix_of` dot) →
    let s' := (range_ ((λ n, [n]) <$> names)
                 (λ item, processPath E item homeDir dot isSync) s).2 in
    wf (fs s') ∧
    (∀ n, n ∈ names →
       fs s' !! (homeDir ++ [n]) = Some (Symlink true (dot ++ [n])) ∧
       (∀ r, r ≠ [] → fs s' !! ((homeDir ++ [n]) ++ r) = None) ∧
       (∀ r, fs s' !! ((dot ++ [n]) ++ r)
             = copy_node (env_umask E) <$> fs s !! ((homeDir ++ [n]) ++ r))) ∧
    (∀ k, (∀ n, n ∈ names → ¬ (homeDir ++ [n]) `prefix_of` k ∧
                            ¬ (dot ++ [n]) `prefix_of` k) →
       fs s' !! k = fs s !! k).
Proof.
  induction names as [|n names IH]; intros s Hwf Hhome Hdot Hnd Hproper Hnames.
  { simpl. split; [done|]. split; [|done]. intros n Hn.
    by apply elem_of_nil in Hn. }
  apply NoDup_cons in Hnd as [Hn Hnd].
  apply Forall_cons_1 in Hproper as [Hpn Hproper].
  destruct Hhome as [mh Hhome], Hdot as [md Hdot].
  destruct (Hnames n) as (Hitem & Hnone & Hpre); [left|].
  pose proof (plain_item_Some _ _ Hitem) as Hsome.
  (* the first item *)
  destruct (processPath_moves E homeDir dot isSync n s mh md)
    as (Hwf1 & Hlink & Hgone & Hcopy & Hframe); try done.
  intros s'. unfold s'. clear s'. cbn [fmap list_fmap].
  rewrite range__cons. cbv beta.
  destruct (processPath E [n] homeDir dot isSync s) as [[] s1]. cbn [snd] in *.
  (* the places of the other items lie apart from those of the first *)
  assert (∀ n', n' ∈ names →
            ∀ k, (homeDir ++ [n']) `prefix_of` k ∨ (dot ++ [n']) `prefix_of` k →
                 ¬ (homeDir ++ [n]) `prefix_of` k ∧
                 ¬ (dot ++ [n]) `prefix_of` k) as Hapart.
  { intros n' Hn'. destruct (Hnames n') as (Hi' & Hn0 & Hp'); [by right|].
    apply (items_apart (fs s)); try done.
    - by intros ->.
    - by apply plain_item_Some. }
  assert (∀ n', n' ∈ names →
            ∀ k, (homeDir ++ [n]) `prefix_of` k ∨ (dot ++ [n]) `prefix_of` k →
                 ¬ (homeDir ++ [n']) `prefix_of` k ∧
                 ¬ (dot ++ [n']) `prefix_of` k) as Hapart'.
  { intros n' Hn'. destruct (Hnames n') as (Hi' & Hn0 & Hp'); [by right|].
    apply (items_apart (fs s)); try done.
    - by intros <-.
    - by apply plain_item_Some. }
  assert (∀ n', n' ∈ names → ∀ k,
            (homeDir ++ [n']) `prefix_of` k ∨ (dot ++ [n']) `prefix_of` k →
            fs s1 !! k = fs s !! k) as Hsame.
  { intros n' Hn' k Hk. destruct (Hapart n' Hn' k Hk). by apply Hframe. }
  destruct (IH s1) as (Hwf' & Hdone & Hrest); try done.
  { exists mh. destruct (decide (homeDir = [])) as [->|Hhne]; [done|].
    rewrite node_at_ne in * by done. rewrite Hframe; [done| |].
    - apply prefix_snoc_not.
    - eapply (not_below_missing (fs s)); [done| |done|by rewrite Hhome].
      by destruct dot. }
  { exists md. destruct (decide (dot = [])) as [->|Hdne]; [done|].
    rewrite node_at_ne in * by done. rewrite Hframe; [done|done|].
    apply prefix_snoc_not. }
  { intros n' Hn'. destruct (Hnames n') as (Hi' & Hn0 & Hp'); [by right|].
    split; [|split; [|done]].
    - eapply plain_item_same; [|done]. intros k Hk.
      apply (Hsame n' Hn'). by left.
    - rewrite (Hsame n' Hn'); [done|by right]. }
  split; [done|]. split.
  - intros n' [->|Hn']%elem_of_cons.
    + split; [|split].
      * rewrite Hrest; [done|]. intros n' Hn'.
        apply (Hapart' n' Hn'). by left.
      * intros r Hr. rewrite Hrest; [by apply Hgone|]. intros n' Hn'.
        apply (Hapart' n' Hn'). left. by apply prefix_app_r.
      * intros r. rewrite Hrest; [by apply Hcopy|]. intros n' Hn'.
        apply (Hapart' n' Hn'). right. by apply prefix_app_r.
    + destruct (Hdone n' Hn') as (H1 & H2 & H3).
      split; [done|]. split; [done|]. intros r. rewrite H3.
      rewrite (Hsame n' Hn'); [done|]. left. by apply prefix_app_r.
  - intros k Hk. rewrite Hrest.
    + apply Hframe; apply (Hk n); left.
    + intros n' Hn'. apply Hk. by right.
Qed.

(** ** Paths that cross one link *)







(** ** [init] over files and plain directories *)

Lemma initCmd_fs (E : env) (items : list path) (s : state)
    (homeDir repoDir : path) (fs0 : FS) :
  env_home E = Some homeDir → env_cwd E = Some repoDir →
  os_MkdirAll (env_umask E) (fs s) (filepath_Join repoDir ["dotfiles"]) 493
    = (fs0, None) →
  fs (initCmd E items s).2 =
    fs (range_ items (λ item, processPath E item homeDir
                                (filepath_Join repoDir ["dotfiles"]) false)
          {| fs := fs0; out := out s |}).2.
Proof.
  intros Hh Hc Hmk. unfold initCmd, os_UserHomeDir, os_Getwd.
  rewrite Hh, Hc. unfold mbind at 1, M_bind at 1, call at 1. rewrite Hmk.
  unfold mbind at 1, M_bind at 1.
  destruct (range_ _ _ _) as [[] s2]. unfold runGitCommand. unfold_M. simpl.
  by destruct (env_git E ["add"; "."]),
              (env_git E ["commit"; "-m"; "Update dotfiles backup"]),
              (env_git E ["push"]).
Qed.

Lemma initCmd_items_state (E : env) (names : list string) (s : state)
    (homeDir repoDir : path) (mh mr : Z) :
  env_home E = Some homeDir → env_cwd E = Some repoDir →
  wf (fs s) →
  node_at (fs s) homeDir = Some (Dir mh) →
  node_at (fs s) repoDir = Some (Dir mr) →
  dir_or_missing (fs s) (repoDir ++ ["dotfiles"]) →
  NoDup names → Forall proper names →
  Forall (λ n, plain_item (fs s) (homeDir ++ [n]) ∧
               fs s !! (repoDir ++ ["dotfiles"; n]) = None ∧
               ¬ (homeDir ++ [n]) `prefix_of` (repoDir ++ ["dotfiles"]))
    names →
  (initCmd E ((λ n, [n]) <$> names) s).1 = None ∧
  wf (fs (initCmd E ((λ n, [n]) <$> names) s).2) ∧
  (∃ md, fs (initCmd E ((λ n, [n]) <$> names) s).2
           !! (repoDir ++ ["dotfiles"]) = Some (Dir md)) ∧
  ∀ n, n ∈ names →
    fs (initCmd E ((λ n, [n]) <$> names) s).2 !! (homeDir ++ [n])
      = Some (Symlink true (repoDir ++ ["dotfiles"; n])) ∧
    ∀ r, fs (initCmd E ((λ n, [n]) <$> names) s).2
           !! ((repoDir ++ ["dotfiles"; n]) ++ r)
         = copy_node (env_umask E) <$> fs s !! ((homeDir ++ [n]) ++ r).
Proof.
  intros Hh Hc Hwf Hhome Hrepo Hdot Hnd Hproper Hnames.
  set (dot := repoDir ++ ["dotfiles"]) in *.
  assert (∀ n r, repoDir ++ ["dotfiles"; n] ++ r = (dot ++ [n]) ++ r) as Hassoc
    by (intros n r; unfold dot; by rewrite <- !app_assoc).
  assert (filepath_Join repoDir ["dotfiles"] = dot) as HJ.
  { apply Join_snoc; [by eapply wf_proper_dir|done]. }
  assert (dot ≠ []) as Hdne by (unfold dot; by destruct repoDir).
  rewrite Forall_forall in Hnames.
  (* the directory is there, or is made *)
  assert (∃ fs0 md,
            os_MkdirAll (env_umask E) (fs s) dot 493 = (fs0, None) ∧
            wf fs0 ∧ fs0 !! dot = Some (Dir md) ∧
            ∀ k, k ≠ dot → fs0 !! k = fs s !! k)
    as (fs0 & md & Hmk & Hwf0 & Hd0 & Hframe0).
  { unfold dir_or_missing in Hdot.
    destruct (fs s !! dot) as [[| md |]|] eqn:Hl; try done.
    - exists (fs s), md. split; [|done].
      apply (MkdirAll_existing _ _ _ _ dot md).
      apply resolve_canonical; [done| |by right].
      by rewrite node_at_ne.
    - eexists _, _. split; [|split; [|split]].
      + apply (MkdirAll_missing E); [rewrite <- HJ; apply Join_proper|].
        by eapply resolve_canonical_missing.
      + by eapply wf_insert_new.
      + apply lookup_insert_eq.
      + intros k Hk. by rewrite lookup_insert_ne. }
  split.
  { eapply initCmd_goes_on; [done..|]. by rewrite HJ, Hmk. }
  rewrite (initCmd_fs E _ s homeDir repoDir fs0 Hh Hc) by (by rewrite HJ).
  rewrite HJ.
  assert (∀ n, n ∈ names → ∀ k, (homeDir ++ [n]) `prefix_of` k →
            fs0 !! k = fs s !! k) as Hsame.
  { intros n Hn k Hk. destruct (Hnames n Hn) as (_ & _ & Hp).
    apply Hframe0. by intros ->. }
  destruct (moves_loop E homeDir dot false names {| fs := fs0; out := out s |})
    as (Hwf' & Hdone & Hrest); simpl; try done.
  { destruct (decide (homeDir = dot)) as [->|Hne];
      [exists md; by rewrite node_at_ne|].
    exists mh. destruct homeDir as [|x h]; [done|]. simpl in *.
    by rewrite Hframe0. }
  { exists md. by rewrite node_at_ne. }
  { intros n Hn. destruct (Hnames n Hn) as (Hi & Hnone & Hp).
    split; [|split; [|done]].
    - eapply plain_item_same; [|done]. by apply Hsame.
    - specialize (Hassoc n []). rewrite !app_nil_r in Hassoc.
      rewrite Hassoc in Hnone. rewrite Hframe0; [done|].
      intros H. by apply (snoc_ne_self dot n). }
  split; [done|]. split.
  { exists md. rewrite Hrest; [done|]. intros n Hn.
    destruct (Hnames n Hn) as (_ & _ & Hp). split; [done|].
    apply prefix_snoc_not. }
  intros n Hn. destruct (Hdone n Hn) as (H1 & _ & H3).
  assert (repoDir ++ ["dotfiles"; n] = dot ++ [n]) as ->
    by (unfold dot; by rewrite <- !app_assoc).
  split; [done|].
  intros r. rewrite H3. cbn [fs].
  by rewrite (Hsame n Hn) by by apply prefix_app_r.
Qed.

(** ** A second run *)

Lemma initCmd_skips (E : env) (items : list path) (s : state)
    (homeDir repoDir : path) (k : list string) (m : Z) :
  env_home E = Some homeDir → env_cwd E = Some repoDir →
  resolve (fs s) true (filepath_Join repoDir ["dotfiles"]) = Found k (Dir m) →
  Forall (λ item, lstat_symlink (fs s) (filepath_Join homeDir item) = true)
    items →
  (initCmd E items s).1 = None ∧ fs (initCmd E items s).2 = fs s.
Proof.
  intros Hh Hc Hdot Hall.
  pose proof (MkdirAll_existing (env_umask E) _ _ 493 _ _ Hdot) as Hmk.
  split.
  - eapply initCmd_goes_on; [done..|]. by rewrite Hmk.
  - rewrite (initCmd_fs E items s homeDir repoDir (fs s) Hh Hc Hmk).
    rewrite skip_loop; [done|]. done.
Qed.

Lemma syncCmd_skips (E : env) (items : list path) (s : state)
    (homeDir repoDir : path) (k : list string) (m : Z) :
  env_home E = Some homeDir → env_cwd E = Some repoDir →
  resolve (fs s) true (filepath_Join repoDir ["dotfiles"]) = Found k (Dir m) →
  Forall (λ item, lstat_symlink (fs s) (filepath_Join homeDir item) = true)
    items →
  (syncCmd E items s).1 = None ∧ fs (syncCmd E items s).2 = fs s.
Proof.
  intros Hh Hc Hdot Hall.
  assert (os_Stat (fs s) (filepath_Join repoDir ["dotfiles"]) ≠ Err ENOENT)
    as Hst by by rewrite (stat_found _ _ _ _ Hdot).
  split.
  - by eapply syncCmd_goes_on.
  - rewrite (syncCmd_fs E items s homeDir repoDir Hh Hc Hst).
    by rewrite skip_loop.
Qed.

(** ** The two commands over a [dotfiles] directory that exists *)

Lemma older_syncCmd_goes_on (E : env) (items : list path) (s : state)
    (homeDir repoDir : path) :
  env_home E = Some homeDir → env_cwd E = Some repoDir →
  os_Stat (fs s) (filepath_Join repoDir ["dotfiles"]) ≠ Err ENOENT →
  (MainGo.syncCmd E items s).1 = None.
Proof.
  intros Hh Hc Hst. destruct (MainGo.syncCmd E items s) as [r s'] eqn:Hrun.
  simpl. unfold MainGo.syncCmd, os_UserHomeDir, os_Getwd in Hrun.
  rewrite Hh, Hc in Hrun.
  unfold mbind at 1, M_bind at 1, read at 1 in Hrun.
  destruct (os_IsNotExist _) eqn:Hne; simpl in Hrun.
  - by apply IsNotExist_stat in Hne.
  - git_result Hrun.
Qed.

Lemma older_initCmd_goes_on (E : env) (items : list path) (s : state)
    (homeDir repoDir : path) :
  env_home E = Some homeDir → env_cwd E = Some repoDir →
  (os_MkdirAll (env_umask E) (fs s) (filepath_Join repoDir ["dotfiles"]) 493).2
    = None →
  (MainGo.initCmd E items s).1 = None.
Proof.
  intros Hh Hc Hmk. destruct (MainGo.initCmd E items s) as [r s'] eqn:Hrun.
  simpl. unfold MainGo.initCmd, os_UserHomeDir, os_Getwd in Hrun.
  rewrite Hh, Hc in Hrun.
  unfold mbind at 1, M_bind at 1, call at 1 in Hrun.
  destruct (os_MkdirAll _ _ _ _) as [fs1 err]. simpl in Hmk. subst err.
  git_result Hrun.
Qed.

Lemma older_syncCmd_fs (E : env) (items : list path) (s : state)
    (homeDir repoDir : path) :
  env_home E = Some homeDir → env_cwd E = Some repoDir →
  os_Stat (fs s) (filepath_Join repoDir ["dotfiles"]) ≠ Err ENOENT →
  fs (MainGo.syncCmd E items s).2 =
    fs (range_ items (λ item, MainGo.processFile E item homeDir
                                (filepath_Join repoDir ["dotfiles"]) true)
          s).2.
Proof.
  intros Hh Hc Hst. unfold MainGo.syncCmd, os_UserHomeDir, os_Getwd.
  rewrite Hh, Hc. unfold mbind at 1, M_bind at 1, read at 1.
  destruct (os_IsNotExist _) eqn:Hne; [by apply IsNotExist_stat in Hne|].
  unfold mbind at 1, M_bind at 1.
  destruct (range_ _ _ _) as [[] s2]. unfold runGitCommand. unfold_M. simpl.
  by destruct (env_git E ["add"; "."]),
              (env_git E ["commit"; "-m"; "Sync dotfiles changes"]),
              (env_git E ["push"]).
Qed.

Lemma older_initCmd_fs (E : env) (items : list path) (s : state)
    (homeDir repoDir : path) (fs0 : FS) :
  env_home E = Some homeDir → env_cwd E = Some repoDir →
  os_MkdirAll (env_umask E) (fs s) (filepath_Join repoDir ["dotfiles"]) 493
    = (fs0, None) →
  fs (MainGo.initCmd E items s).2 =
    fs (range_ items (λ item, MainGo.processFile E item homeDir
                                (filepath_Join repoDir ["dotfiles"]) false)
          {| fs := fs0; out := out s |}).2.
Proof.
  intros Hh Hc Hmk. unfold MainGo.initCmd, os_UserHomeDir, os_Getwd.
  rewrite Hh, Hc. unfold mbind at 1, M_bind at 1, call at 1. rewrite Hmk.
  unfold mbind at 1, M_bind at 1.
  destruct (range_ _ _ _) as [[] s2]. unfold runGitCommand. unfold_M. simpl.
  by destruct (env_git E ["add"; "."]),
              (env_git E ["commit"; "-m"; "Update dotfiles backup"]),
              (env_git E ["push"]).
Qed.

(** * The claims *)

Ltac decide_now := apply (bool_decide_unpack _); vm_compute; exact I.

(** ** A source that is a symbolic link is skipped *)

(** C2.  When [lstat] finds a symbolic link at the source path of an item,
    [processPath] copies nothing, deletes nothing and creates no link: the
    file system is left as it was, whether called by init ([isSync] false)
    or by sync ([isSync] true); the only effect is the line that reports
    the skip. *)
Theorem processPath_symlink_skip (E : env) (item homeDir repoDir : path)
    (isSync : bool) (s : state) (k : list string) (a : bool) (t : list string) :
  resolve (fs s) false (filepath_Join homeDir item) = Found k (Symlink a t) →
  (processPath E item homeDir repoDir isSync s).2 =
    {| fs := fs s; out := out s ++ [skip_line item] |}.
Proof. intros H. by rewrite (processPath_skip _ _ _ _ _ _ _ _ _ H). Qed.

Lemma processPath_symlink_skip_witness :
  (processPath E0 [".bashrc"] home dotfiles true (start tree_linked)).2 =
    {| fs := tree_linked; out := [skip_line [".bashrc"]] |}.
Proof.
  apply (processPath_symlink_skip E0 [".bashrc"] home dotfiles true
           (start tree_linked) ["home"; "u"; ".bashrc"] true
           ["home"; "u"; "gotfiles"; "dotfiles"; ".bashrc"]).
  vm_compute. reflexivity.
Defined.

(** ** A regular file that is not in the repository yet *)

(** C1, as stated, fails, in two ways.  First: with [.config] a regular
    file in the repository, the copy of [.config/foo] fails, the original
    is removed all the same, and a run of init ends with no link at the
    source path and no copy in the repository.  Second: in a run over
    [.config/foo] and then [.config], the first item is moved and linked,
    and the second item then copies the directory that holds the link:
    the link is opened as the file it points to, that file is truncated as
    the destination of its own copy, and the run ends with an empty file
    in the repository and no link at the source path. *)
Lemma init_does_not_always_move_file :
  let source := ["home"; "u"; ".config"; "foo"] in
  let dest := ["home"; "u"; "gotfiles"; "dotfiles"; ".config"; "foo"] in
  let run1 := initCmd E0 [[".config"; "foo"]] (start tree_blocked) in
  let run2 := initCmd E0 [[".config"; "foo"]; [".config"]] (start tree_nested) in
  (resolve tree_blocked false source = Found source (File 384 alias_bytes) ∧
   os_Stat tree_blocked dest = Err ENOTDIR ∧
   run1.1 = None ∧
   os_Lstat (fs run1.2) source = Err ENOENT ∧
   os_Readlink (fs run1.2) source ≠ Ok (true, dest) ∧
   ioutil_ReadFile (fs run1.2) dest ≠ Ok alias_bytes) ∧
  (resolve tree_nested false source = Found source (File 384 alias_bytes) ∧
   os_Stat tree_nested dest = Err ENOENT ∧
   run2.1 = None ∧
   os_Readlink (fs run2.2) source ≠ Ok (true, dest) ∧
   ioutil_ReadFile (fs run2.2) dest = Ok [] ∧
   ioutil_ReadFile (fs run2.2) dest ≠ Ok alias_bytes).
Proof.
  repeat split; vm_compute; first [reflexivity | discriminate].
Qed.

(** C1, amended.  When [lstat] finds a regular file at the source path of
    an item, there is no repository copy ([stat] of the destination
    fails), and the copy to the repository succeeds, then after
    [processPath], called by init for that item, the source path is a
    symbolic link whose target is the destination path, and the
    destination holds the bytes the file had.  (What later items of the
    same run do to them is not part of the statement.) *)
Theorem processPath_init_moves_file (E : env) (item homeDir repoDir : path)
    (s : state) (ks : list string) (p : Z) (d : list Byte.byte) (e : errno) :
  wf (fs s) →
  resolve (fs s) false (filepath_Join homeDir item) = Found ks (File p d) →
  os_Stat (fs s) (filepath_Join repoDir item) = Err e →
  (copyFile E (filepath_Join homeDir item) (filepath_Join repoDir item) s).1
    = None →
  let s' := (processPath E item homeDir repoDir false s).2 in
  os_Readlink (fs s') (filepath_Join homeDir item)
    = Ok (true, filepath_Join repoDir item) ∧
  ioutil_ReadFile (fs s') (filepath_Join repoDir item) = Ok d.
Proof.
  set (source := filepath_Join homeDir item).
  set (dest := filepath_Join repoDir item).
  intros Hwf Hsrc Hdst Hcopy.
  destruct (copyFile E source dest s) as [err s1] eqn:Hcp. simpl in Hcopy.
  subst err.
  destruct (copyFile_fresh E source dest s s1 ks p d e)
    as (fs1 & kd & Hsub & Hkd & Hkdne & Hfs1 & Hout & Hwf1 & Hres);
    [done|apply Join_proper|by apply walk_nofollow_follow|done|done|].
  destruct (found_file_ne _ _ _ _ _ _ Hsrc) as [Hks Hks'].
  assert (ks ≠ kd) as Hne.
  { intros ->. apply (lookup_weaken _ _ _ _ Hks') in Hsub. congruence. }
  assert (fs s1 !! ks = Some (File p d)) as Hks1.
  { rewrite Hfs1, lookup_insert_ne by done. by eapply lookup_weaken. }
  (* the source still resolves to the file after the copy *)
  assert (resolve (fs s1) false source = Found ks (File p d)) as Hsrc1.
  { destruct (resolve_grown (fs s) (fs s1) false source ks (File p d))
      as (nd' & H1 & H2 & _); [|done|].
    - rewrite Hfs1. etrans; [by apply subseteq_fs_le|].
      by apply fs_le_insert_new.
    - rewrite node_at_ne, Hks1 in H2 by done. by simplify_eq. }
  (* removing it leaves the last component missing *)
  pose proof (resolve_delete _ _ _ _ _ _ _ _ Hks1 Hks Hsrc1) as Hdel.
  rewrite decide_True in Hdel by done. destruct Hdel as (kp & c & Hkpc & Hdel).
  pose proof (resolve_delete _ _ _ _ _ _ _ _ Hks1 Hks Hres) as Hdel'.
  rewrite decide_False in Hdel' by done.
  intros s'.
  assert (fs s' = <[kp ++ [c] := Symlink true dest]> (delete ks (fs s1)))
    as Hfinal.
  { subst s'. unfold processPath. fold source dest. unfold_M. simpl.
    rewrite (lstat_found _ _ _ _ Hsrc). simpl.
    rewrite mode_symlink_test, mode_dir_test. simpl.
    rewrite Hcp. simpl. rewrite (os_Remove_file _ _ _ _ _ Hsrc1). simpl.
    unfold os_Lstat. rewrite Hdel. simpl.
    rewrite (stat_found _ _ _ _ Hdel'). simpl.
    unfold os_Symlink. rewrite Hdel. done. }
  rewrite Hfinal. clear Hfinal s'.
  set (fs2 := delete ks (fs s1)) in *.
  split.
  - unfold os_Readlink.
    by rewrite (resolve_insert_missing _ _ _ _ _ _ (or_introl eq_refl) Hdel).
  - unfold ioutil_ReadFile.
    destruct (resolve_grown fs2 (<[kp ++ [c] := Symlink true dest]> fs2)
                true dest kd (File (created_perm E) d))
      as (nd' & -> & Hnd & _).
    + apply fs_le_insert_new. rewrite <- Hkpc. apply lookup_delete_eq.
    + done.
    + rewrite node_at_ne in Hnd by done.
      rewrite lookup_insert_ne in Hnd by congruence.
      unfold fs2 in Hnd. rewrite lookup_delete_ne in Hnd by done.
      rewrite Hfs1, lookup_insert_eq in Hnd. by simplify_eq.
Qed.

Lemma processPath_init_moves_file_witness :
  let s' := (processPath E0 [".bashrc"] home dotfiles false
               (start tree_fresh)).2 in
  os_Readlink (fs s') (filepath_Join home [".bashrc"])
    = Ok (true, filepath_Join dotfiles [".bashrc"]) ∧
  ioutil_ReadFile (fs s') (filepath_Join dotfiles [".bashrc"])
    = Ok alias_bytes.
Proof.
  apply (processPath_init_moves_file E0 [".bashrc"] home dotfiles
           (start tree_fresh) ["home"; "u"; ".bashrc"] 420 alias_bytes ENOENT).
  - decide_now.
  - vm_compute. reflexivity.
  - vm_compute. reflexivity.
  - vm_compute. reflexivity.
Defined.

(** ** A missing source with a repository copy *)

(** C4, as stated, fails, in two ways.  First: on a machine whose home
    directory has no [.config] directory, sync finds the repository copy
    of [.config/starship.toml] but cannot make the link, and the source
    path still does not exist after the run.  Second: with an empty
    [.config] in the home directory, a sync run over
    [.config/starship.toml] and then [.config] makes the link for the
    first item and then, for the second, copies the directory that holds
    it, removes that directory, and links the directory itself: at the end
    of the run the source path leads to a regular file, not to a link. *)
Lemma sync_does_not_always_link :
  let source := ["home"; "u"; ".config"; "starship.toml"] in
  let dest :=
    ["home"; "u"; "gotfiles"; "dotfiles"; ".config"; "starship.toml"] in
  let run1 :=
    syncCmd E0 [[".config"; "starship.toml"]] (start tree_new_machine) in
  let run2 :=
    syncCmd E0 [[".config"; "starship.toml"]; [".config"]]
      (start tree_new_machine_config) in
  (os_Lstat tree_new_machine source = Err ENOENT ∧
   ioutil_ReadFile tree_new_machine dest = Ok alias_bytes ∧
   run1.1 = None ∧
   fs run1.2 = tree_new_machine ∧
   os_Lstat (fs run1.2) source = Err ENOENT) ∧
  (os_Lstat tree_new_machine_config source = Err ENOENT ∧
   ioutil_ReadFile tree_new_machine_config dest = Ok alias_bytes ∧
   run2.1 = None ∧
   resolve (fs run2.2) false source = Found dest (File 420 []) ∧
   os_Readlink (fs run2.2) source ≠ Ok (true, dest)).
Proof.
  repeat split; vm_compute; first [reflexivity | discriminate].
Qed.

(** C4, amended.  When the source path of an item does not exist but its
    parent directory does ([lstat] finds the directory and no entry for the
    last component), and the repository copy exists ([stat] of the
    destination succeeds), [processPath] called by sync for that item
    makes one change to the file system: a symbolic link at the source
    path whose target is the destination path.  (What later items of the
    same run do to it is not part of the statement.) *)
Theorem processPath_sync_links_missing (E : env) (item homeDir repoDir : path)
    (s : state) (kp : list string) (c : string) (fi : FileInfo) :
  resolve (fs s) false (filepath_Join homeDir item) = Missing kp c →
  os_Stat (fs s) (filepath_Join repoDir item) = Ok fi →
  let s' := (processPath E item homeDir repoDir true s).2 in
  fs s' = <[kp ++ [c] := Symlink true (filepath_Join repoDir item)]> (fs s) ∧
  os_Readlink (fs s') (filepath_Join homeDir item)
    = Ok (true, filepath_Join repoDir item).
Proof.
  intros Hsrc Hdst.
  assert (os_Lstat (fs s) (filepath_Join homeDir item) = Err ENOENT) as Hl.
  { unfold os_Lstat. by rewrite Hsrc. }
  unfold processPath. unfold_M. simpl. rewrite Hl. simpl. rewrite Hl. simpl.
  rewrite Hdst. simpl. unfold os_Symlink. rewrite Hsrc. simpl.
  split; [done|]. unfold os_Readlink.
  by rewrite (resolve_insert_missing _ _ _ _ _ _ (or_introl eq_refl) Hsrc).
Qed.

Lemma processPath_sync_links_missing_witness :
  let s' := (processPath E0 [".bashrc"] home dotfiles true
               (start tree_new_machine)).2 in
  fs s' = <[ ["home"; "u"] ++ [".bashrc"] :=
              Symlink true (filepath_Join dotfiles [".bashrc"]) ]>
            (fs (start tree_new_machine)) ∧
  os_Readlink (fs s') (filepath_Join home [".bashrc"])
    = Ok (true, filepath_Join dotfiles [".bashrc"]).
Proof.
  apply (processPath_sync_links_missing E0 [".bashrc"] home dotfiles
           (start tree_new_machine) ["home"; "u"] ".bashrc"
           {| Name := ".bashrc"; Mode := 420 |}).
  - vm_compute. reflexivity.
  - vm_compute. reflexivity.
Defined.

(** ** Running init again *)




(** ** [sync] without a repository directory *)

(** C5.  When the [dotfiles] directory under the working directory does not
    exist ([stat] answers ENOENT), [syncCmd] returns its descriptive error
    at once: no item is processed, nothing is written, no child process is
    started, and the state is exactly the one it was given. *)
Theorem syncCmd_missing_repository (E : env) (items : list path) (s : state)
    (homeDir repoDir : path) :
  env_home E = Some homeDir →
  env_cwd E = Some repoDir →
  os_Stat (fs s) (filepath_Join repoDir ["dotfiles"]) = Err ENOENT →
  syncCmd E items s =
    (Some (errorString
       "dotfiles repository directory does not exist. Run 'gotfiles init' first"),
     s).
Proof.
  intros Hh Hc Hst. unfold syncCmd, os_UserHomeDir, os_Getwd.
  rewrite Hh, Hc. unfold_M. simpl. rewrite Hst. reflexivity.
Qed.

Lemma syncCmd_missing_repository_witness :
  syncCmd E0 [[".bashrc"]; [".config"; "starship.toml"]] (start tree_bare) =
    (Some (errorString
       "dotfiles repository directory does not exist. Run 'gotfiles init' first"),
     start tree_bare).
Proof.
  apply (syncCmd_missing_repository E0 _ (start tree_bare) home repo).
  - reflexivity.
  - reflexivity.
  - vm_compute. reflexivity.
Defined.

(** ** An item that exists nowhere *)

(** C6.  When the source path of an item does not exist ([lstat] answers
    ENOENT) and there is no repository copy ([stat] of the destination
    fails), [processPath] leaves the file system as it was: no link is
    made, nothing is copied or removed; it logs the two conditions and
    returns.  The loop of [initCmd] and [syncCmd] then goes on with the
    remaining items, which are processed from the unchanged file system. *)
Theorem processPath_nothing_to_do (E : env) (item homeDir repoDir : path)
    (isSync : bool) (s : state) (e : errno) :
  os_Lstat (fs s) (filepath_Join homeDir item) = Err ENOENT →
  os_Stat (fs s) (filepath_Join repoDir item) = Err e →
  (processPath E item homeDir repoDir isSync s).2 =
    {| fs := fs s;
       out := (out s ++ [Log (show_path item +:+ " does not exist in home.")])
              ++ [Log ("No backup for " +:+ show_path item
                       +:+ " found in repository.")] |} ∧
  ∀ rest : list path,
    let body := λ item, processPath E item homeDir repoDir isSync in
    range_ (item :: rest) body s = range_ rest body (body item s).2 ∧
    fs (range_ (item :: rest) body s).2 = fs (range_ rest body s).2.
Proof.
  intros Hl Hs.
  assert ((processPath E item homeDir repoDir isSync s).2 =
    {| fs := fs s;
       out := (out s ++ [Log (show_path item +:+ " does not exist in home.")])
              ++ [Log ("No backup for " +:+ show_path item
                       +:+ " found in repository.")] |}) as Hp.
  { unfold processPath. unfold_M. simpl. rewrite Hl. simpl. rewrite Hl. simpl.
    rewrite Hs. reflexivity. }
  split; [exact Hp|]. intros rest body.
  assert (range_ (item :: rest) body s = range_ rest body (body item s).2) as Hr.
  { apply range__cons. }
  split; [exact Hr|]. rewrite Hr. subst body. cbv beta.
  apply (items_loop_fs E rest homeDir repoDir isSync). rewrite Hp. reflexivity.
Qed.

Lemma processPath_nothing_to_do_witness :
  (processPath E0 [".vimrc"] home dotfiles true (start tree_fresh)).2 =
    {| fs := fs (start tree_fresh);
       out := (out (start tree_fresh)
               ++ [Log (show_path [".vimrc"] +:+ " does not exist in home.")])
              ++ [Log ("No backup for " +:+ show_path [".vimrc"]
                       +:+ " found in repository.")] |} ∧
  ∀ rest : list path,
    let body := λ item, processPath E0 item home dotfiles true in
    range_ ([".vimrc"] :: rest) body (start tree_fresh)
      = range_ rest body (body [".vimrc"] (start tree_fresh)).2 ∧
    fs (range_ ([".vimrc"] :: rest) body (start tree_fresh)).2
      = fs (range_ rest body (start tree_fresh)).2.
Proof.
  apply (processPath_nothing_to_do E0 [".vimrc"] home dotfiles true
           (start tree_fresh) ENOENT).
  - vm_compute. reflexivity.
  - vm_compute. reflexivity.
Defined.

(** ** The copy *)




(** A file copied onto itself.  The home directory's [.config] is a link
    to the repository's [.config]; source and destination of
    [.config/foo] are then one file.  [copyFile] opens it, truncates it as
    its own destination, copies nothing and returns no error; sync then
    removes it as the original.  Nothing of the file is left. *)
Example sync_copies_file_onto_itself :
  let source := ["home"; "u"; ".config"; "foo"] in
  let dest := ["home"; "u"; "gotfiles"; "dotfiles"; ".config"; "foo"] in
  let copy := copyFile E0 source dest (start tree_config_linked) in
  let run := syncCmd E0 [[".config"; "foo"]] (start tree_config_linked) in
  ioutil_ReadFile tree_config_linked source = Ok alias_bytes ∧
  copy.1 = None ∧
  ioutil_ReadFile (fs copy.2) dest = Ok [] ∧
  run.1 = None ∧
  os_Stat (fs run.2) dest = Err ENOENT ∧
  os_Lstat (fs run.2) source = Err ENOENT.
Proof. repeat split; vm_compute; reflexivity. Qed.

(** ** The flag [isSync] *)

(** C8.  From any state, [processPath] with [isSync] true and with [isSync]
    false end with the same file system; their outputs have the same lines
    except that one says "Updated ... in repository." where the other says
    "Copied ... to repository.". *)
Theorem processPath_isSync_only_wording (E : env) (item homeDir repoDir : path)
    (s : state) :
  fs (processPath E item homeDir repoDir true s).2 =
    fs (processPath E item homeDir repoDir false s).2 ∧
  Forall2 wording (out (processPath E item homeDir repoDir true s).2)
                  (out (processPath E item homeDir repoDir false s).2).
Proof.
  apply (processPath_sim E item homeDir repoDir s s). split; [done|].
  apply Forall2_same_length_lookup_2; [done|]. intros i x y ??. left. congruence.
Qed.

(** ** The original is removed whatever the copy did *)

(** C9.  When [lstat] finds a regular file or a directory at the source
    path, [processPath] removes it after the copy step whatever the copy
    step returned, an error included: in the final state the place of the
    original holds nothing, or the symbolic link to the destination that
    the last step made; of a directory, nothing below it is left either.
    A failed copy therefore does not keep the original from being
    removed. *)
Theorem processPath_removes_original (E : env) (item homeDir repoDir : path)
    (isSync : bool) (s : state) (ks : list string) (nd : node) :
  resolve (fs s) false (filepath_Join homeDir item) = Found ks nd →
  is_symlink nd = false →
  only_link (fs (processPath E item homeDir repoDir isSync s).2) ks (is_dir nd)
    (filepath_Join repoDir item).
Proof.
  set (source := filepath_Join homeDir item).
  set (dest := filepath_Join repoDir item).
  intros Hsrc Hsym.
  unfold processPath. fold source dest. unfold_M. simpl.
  rewrite (lstat_found _ _ _ _ Hsrc). simpl.
  rewrite mode_symlink_test, mode_dir_test, Hsym. simpl.
  destruct nd as [p d|p|a t]; [| |done]; simpl.
  - (* a regular file *)
    pose proof (copyFile_le E source dest s) as Hle.
    destruct (copyFile E source dest s) as [err s1]. simpl in Hle.
    destruct (resolve_grown _ _ _ _ _ _ Hle Hsrc)
      as (nd' & Hsrc1 & _ & [d' ->]%node_le_file).
    assert (∀ k, k = ks → delete ks (fs s1) !! k = None) as Hnone.
    { intros k ->. apply lookup_delete_eq. }
    destruct err as [e|], isSync; simpl;
      rewrite (os_Remove_file _ _ _ _ _ Hsrc1); simpl;
      link_step_cases Hnone.
  - (* a directory *)
    pose proof (copyDir_le E source dest s) as Hle.
    destruct (copyDir E source dest s) as [err s1]. simpl in Hle.
    destruct (resolve_grown _ _ _ _ _ _ Hle Hsrc)
      as (nd' & Hsrc1 & _ & ->%node_le_dir).
    assert (∀ k, ks `prefix_of` k → remove_tree (fs s1) ks !! k = None)
      as Hnone.
    { intros k Hk. by apply remove_tree_lookup. }
    pose proof (os_RemoveAll_found _ _ _ _ Hsrc1) as Hrm.
    destruct err as [e|], isSync; simpl;
      destruct (os_RemoveAll (fs s1) source) as [fsr [er|]];
      simpl in Hrm; subst fsr; simpl;
      link_step_cases Hnone.
Qed.

Lemma processPath_removes_original_witness :
  (copyFile E0 (filepath_Join home [".config"; "foo"])
     (filepath_Join dotfiles [".config"; "foo"]) (start tree_blocked)).1
    = Some (Errno ENOTDIR) ∧
  only_link
    (fs (processPath E0 [".config"; "foo"] home dotfiles false
           (start tree_blocked)).2)
    ["home"; "u"; ".config"; "foo"] (is_dir (File 384 alias_bytes))
    (filepath_Join dotfiles [".config"; "foo"]).
Proof.
  split; [vm_compute; reflexivity|].
  apply (processPath_removes_original E0 [".config"; "foo"] home dotfiles
           false (start tree_blocked) ["home"; "u"; ".config"; "foo"]
           (File 384 alias_bytes)).
  - vm_compute. reflexivity.
  - reflexivity.
Defined.

(** ** The two variants of the per-item procedure *)

(** C10.  Unless [lstat] reports a directory at the source path (so: for a
    symbolic link, a missing path, a path that cannot be reached, and a
    regular file), [processFile] of [src/main.go] and [processPath] of
    [src/unnamed/part_000] end with the same file system. *)
Theorem processFile_processPath_agree (E : env) (item homeDir repoDir : path)
    (isSync : bool) (s : state) :
  lstat_dir (fs s) (filepath_Join homeDir item) = false →
  fs (MainGo.processFile E item homeDir repoDir isSync s).2 =
    fs (processPath E item homeDir repoDir isSync s).2.
Proof.
  intros H. unfold lstat_dir in H.
  unfold MainGo.processFile, processPath.
  apply (sim_read_bind any_output); [done|].
  destruct (os_Lstat (fs s) (filepath_Join homeDir item)) as [fi|e].
  - rewrite H.
    repeat (sim_step; auto using copyFile_sim);
      destruct isSync; auto with sim.
  - repeat (sim_step; auto using copyFile_sim).
Qed.

(** On a directory the two do differ: [processFile] leaves an empty file in
    the repository and the directory in place, [processPath] moves the
    tree and links it. *)
Example processFile_differs_on_directory :
  let source := ["home"; "u"; "d"] in
  let dest := ["home"; "u"; "gotfiles"; "dotfiles"; "d"] in
  let old := MainGo.processFile E0 ["d"] home dotfiles false (start tree_dir) in
  let new := processPath E0 ["d"] home dotfiles false (start tree_dir) in
  lstat_dir tree_dir source = true ∧
  resolve (fs old.2) false source = Found source (Dir 511) ∧
  resolve (fs old.2) false dest = Found dest (File 420 []) ∧
  resolve (fs new.2) false source = Found source (Symlink true dest) ∧
  resolve (fs new.2) false dest = Found dest (Dir 493).
Proof. repeat split; vm_compute; reflexivity. Qed.

Lemma processFile_processPath_agree_witness :
  fs (MainGo.processFile E0 [".bashrc"] home dotfiles false
        (start tree_fresh)).2 =
    fs (processPath E0 [".bashrc"] home dotfiles false (start tree_fresh)).2.
Proof.
  apply (processFile_processPath_agree E0 [".bashrc"] home dotfiles false
           (start tree_fresh)).
  vm_compute. reflexivity.
Defined.

(** * Further properties of the program *)

(** ** Runs over items of the home directory *)



(** X2.  After such a run nothing is left to do: a second [init] over the
    same names, and a [sync] over them, return no error and leave the file
    system exactly as the first run produced it. *)
Theorem init_again_changes_nothing (E : env) (names : list string) (s : state)
    (homeDir repoDir : path) (mh mr : Z) :
  env_home E = Some homeDir → env_cwd E = Some repoDir →
  wf (fs s) →
  node_at (fs s) homeDir = Some (Dir mh) →
  node_at (fs s) repoDir = Some (Dir mr) →
  dir_or_missing (fs s) (repoDir ++ ["dotfiles"]) →
  NoDup names → Forall proper names →
  Forall (λ n, plain_item (fs s) (homeDir ++ [n]) ∧
               fs s !! (repoDir ++ ["dotfiles"; n]) = None ∧
               ¬ (homeDir ++ [n]) `prefix_of` (repoDir ++ ["dotfiles"]))
    names →
  let items := (λ n, [n]) <$> names in
  let s1 := (initCmd E items s).2 in
  ((initCmd E items s1).1 = None ∧ fs (initCmd E items s1).2 = fs s1) ∧
  ((syncCmd E items s1).1 = None ∧ fs (syncCmd E items s1).2 = fs s1).
Proof.
  intros Hh Hc Hwf Hhome Hrepo Hdot Hnd Hproper Hnames items s1.
  destruct (initCmd_items_state E names s homeDir repoDir mh mr)
    as (_ & Hwf' & [md Hd'] & Hst); try done.
  fold items in Hwf', Hd', Hst. fold s1 in Hwf', Hd', Hst.
  pose proof (wf_proper_dir _ _ _ Hwf Hhome) as Hph.
  pose proof (wf_proper_dir _ _ _ Hwf Hrepo) as Hpr.
  assert (resolve (fs s1) true (filepath_Join repoDir ["dotfiles"])
            = Found (repoDir ++ ["dotfiles"]) (Dir md)) as Hres.
  { rewrite Join_snoc by done. apply resolve_canonical; [done| |by right].
    rewrite node_at_ne; [done|]. by destruct repoDir. }
  assert (Forall (λ item, lstat_symlink (fs s1) (filepath_Join homeDir item)
                          = true) items) as Hall.
  { unfold items. apply Forall_fmap, Forall_forall. intros n Hn. simpl.
    rewrite Forall_forall in Hproper.
    rewrite Join_snoc by auto. unfold lstat_symlink.
    destruct (Hst n Hn) as [Hlink _].
    rewrite <- node_at_snoc in Hlink.
    by rewrite (resolve_canonical _ false _ _ Hwf' Hlink) by by left. }
  split; [by eapply initCmd_skips|by eapply syncCmd_skips].
Qed.

Lemma init_again_changes_nothing_witness :
  let items := (λ n, [n]) <$> [".bashrc"; ".config"] in
  let s1 := (initCmd E0 items (start tree_file_and_directory)).2 in
  ((initCmd E0 items s1).1 = None ∧ fs (initCmd E0 items s1).2 = fs s1) ∧
  ((syncCmd E0 items s1).1 = None ∧ fs (syncCmd E0 items s1).2 = fs s1).
Proof.
  apply (init_again_changes_nothing E0 [".bashrc"; ".config"]
           (start tree_file_and_directory) home repo 448 493).
  - reflexivity.
  - reflexivity.
  - decide_now.
  - vm_compute. reflexivity.
  - vm_compute. reflexivity.
  - decide_now.
  - decide_now.
  - decide_now.
  - decide_now.
Defined.

(** X3.  The new machine.  The home directory is a directory of a tree,
    given by the path it has in it, and so is [dotfiles] in the working
    directory; the items are names, all different, that the home directory
    does not have and under which [dotfiles] holds a regular file or a
    directory.  Then [sync] returns no error, and after it every one of
    these names is, in the home directory, a symbolic link to its place in
    [dotfiles]; nothing else in the file system has changed. *)
Theorem syncCmd_links_files (E : env) (names : list string) (s : state)
    (homeDir repoDir : path) (mh md : Z) :
  env_home E = Some homeDir → env_cwd E = Some repoDir →
  wf (fs s) →
  node_at (fs s) homeDir = Some (Dir mh) →
  fs s !! (repoDir ++ ["dotfiles"]) = Some (Dir md) →
  NoDup names → Forall proper names →
  Forall (λ n, fs s !! (homeDir ++ [n]) = None ∧
               stored (fs s) (repoDir ++ ["dotfiles"; n])) names →
  (syncCmd E ((λ n, [n]) <$> names) s).1 = None ∧
  (∀ n, n ∈ names →
     os_Readlink (fs (syncCmd E ((λ n, [n]) <$> names) s).2) (homeDir ++ [n])
       = Ok (true, repoDir ++ ["dotfiles"; n])) ∧
  (∀ k, (∀ n, n ∈ names → k ≠ homeDir ++ [n]) →
     fs (syncCmd E ((λ n, [n]) <$> names) s).2 !! k = fs s !! k).
Proof.
  intros Hh Hc Hwf Hhome Hdot Hnd Hproper Hnames.
  set (dot := repoDir ++ ["dotfiles"]) in *.
  assert (∀ n, repoDir ++ ["dotfiles"; n] = dot ++ [n]) as Hassoc
    by (intros n; unfold dot; by rewrite <- app_assoc).
  assert (dot ≠ []) as Hdne by (unfold dot; by destruct repoDir).
  assert (Forall proper dot) as Hpd.
  { apply (wf_proper_dir (fs s) dot (Dir md)); [done|].
    by rewrite node_at_ne. }
  assert (filepath_Join repoDir ["dotfiles"] = dot) as HJ.
  { apply Join_snoc; [|done]. unfold dot in Hpd.
    by apply Forall_app in Hpd as [? _]. }
  assert (os_Stat (fs s) (filepath_Join repoDir ["dotfiles"]) ≠ Err ENOENT)
    as Hst.
  { rewrite HJ. rewrite (stat_found _ _ dot (Dir md)); [done|].
    apply resolve_canonical; [done| |by right]. by rewrite node_at_ne. }
  rewrite Forall_forall in Hnames.
  split; [by eapply syncCmd_goes_on|].
  rewrite (syncCmd_fs E _ s homeDir repoDir Hh Hc Hst), HJ.
  destruct (links_loop E homeDir dot true names s) as (Hwf' & Hdone & Hrest);
    try done; [eauto| |].
  { intros n Hn. destruct (Hnames n Hn) as [? Hs].
    by rewrite Hassoc in Hs. }
  split; [|done]. intros n Hn. rewrite Hassoc. unfold os_Readlink.
  rewrite (resolve_canonical _ false _ (Symlink true (dot ++ [n])) Hwf');
    [done| |by left].
  rewrite node_at_snoc. by apply Hdone.
Qed.

Lemma syncCmd_links_files_witness :
  (syncCmd E0 ((λ n, [n]) <$> [".bashrc"; ".config"])
     (start tree_new_machine)).1 = None ∧
  (∀ n, n ∈ [".bashrc"; ".config"] →
     os_Readlink
       (fs (syncCmd E0 ((λ n, [n]) <$> [".bashrc"; ".config"])
              (start tree_new_machine)).2) (home ++ [n])
       = Ok (true, repo ++ ["dotfiles"; n])) ∧
  (∀ k, (∀ n, n ∈ [".bashrc"; ".config"] → k ≠ home ++ [n]) →
     fs (syncCmd E0 ((λ n, [n]) <$> [".bashrc"; ".config"])
           (start tree_new_machine)).2 !! k
       = fs (start tree_new_machine) !! k).
Proof.
  apply (syncCmd_links_files E0 [".bashrc"; ".config"]
           (start tree_new_machine) home repo 448 493).
  - reflexivity.
  - reflexivity.
  - decide_now.
  - vm_compute. reflexivity.
  - vm_compute. reflexivity.
  - decide_now.
  - decide_now.
  - decide_now.
Defined.

(** ** What [processPath] does with a file or a directory *)



(** X5.  A regular file whose repository copy exists as another regular
    file (the case of an update): [processPath] writes the bytes of the
    source into the repository copy, which keeps its mode, removes the
    source and puts the link to the destination path in its place; it
    reports the copy and the link.  Nothing else changes. *)
Theorem processPath_updates_copy (E : env) (item homeDir repoDir : path)
    (isSync : bool) (s : state) (ks kd : list string) (p q : Z)
    (d old : list Byte.byte) :
  resolve (fs s) false (filepath_Join homeDir item) = Found ks (File p d) →
  resolve (fs s) true (filepath_Join repoDir item) = Found kd (File q old) →
  ks ≠ kd →
  processPath E item homeDir repoDir isSync s =
    (tt, {| fs := <[ks := Symlink true (filepath_Join repoDir item)]>
                    (<[kd := File q d]> (fs s));
            out := (out s ++ [copied_line "file " item isSync])
                   ++ [Stdout ("Created symlink for " +:+ show_path item
                               +:+ ".")] |}).
Proof.
  intros Hsrc Hdst Hne.
  rewrite (processPath_file E item homeDir repoDir isSync s ks kd p q d old
             Hsrc Hdst).
  by rewrite decide_False.
Qed.

Lemma processPath_updates_copy_witness :
  processPath E0 [".bashrc"] home dotfiles true (start tree_older_copy) =
    (tt, {| fs := <[ ["home"; "u"; ".bashrc"] :=
                       Symlink true (filepath_Join dotfiles [".bashrc"]) ]>
                    (<[ ["home"; "u"; "gotfiles"; "dotfiles"; ".bashrc"] :=
                          File 384 alias_bytes ]>
                     (fs (start tree_older_copy)));
            out := (out (start tree_older_copy)
                    ++ [copied_line "file " [".bashrc"] true])
                   ++ [Stdout ("Created symlink for " +:+ show_path [".bashrc"]
                               +:+ ".")] |}).
Proof.
  apply (processPath_updates_copy E0 [".bashrc"] home dotfiles true
           (start tree_older_copy) ["home"; "u"; ".bashrc"]
           ["home"; "u"; "gotfiles"; "dotfiles"; ".bashrc"] 420 384
           alias_bytes [Byte.x61]).
  - vm_compute. reflexivity.
  - vm_compute. reflexivity.
  - discriminate.
Defined.

(** X6.  A regular file that is its own repository copy (the source path
    leads, through a symbolic link above it, to the file at the destination
    path): [processPath] empties the file by copying it onto itself,
    reports a copy, removes the file as the original, and then logs that
    there is no backup.  Nothing of the file is left. *)
Theorem processPath_destroys_own_copy (E : env) (item homeDir repoDir : path)
    (isSync : bool) (s : state) (k : list string) (p : Z)
    (d : list Byte.byte) :
  resolve (fs s) false (filepath_Join homeDir item) = Found k (File p d) →
  resolve (fs s) true (filepath_Join repoDir item) = Found k (File p d) →
  processPath E item homeDir repoDir isSync s =
    (tt, {| fs := delete k (fs s);
            out := (out s ++ [copied_line "file " item isSync])
                   ++ [Log ("No backup for " +:+ show_path item
                            +:+ " found in repository.")] |}).
Proof.
  intros Hsrc Hdst.
  rewrite (processPath_file E item homeDir repoDir isSync s k k p p d d
             Hsrc Hdst).
  by rewrite decide_True.
Qed.

Lemma processPath_destroys_own_copy_witness :
  processPath E0 [".config"; "foo"] home dotfiles true
    (start tree_config_linked) =
    (tt, {| fs := delete ["home"; "u"; "gotfiles"; "dotfiles"; ".config"; "foo"]
                    (fs (start tree_config_linked));
            out := (out (start tree_config_linked)
                    ++ [copied_line "file " [".config"; "foo"] true])
                   ++ [Log ("No backup for " +:+ show_path [".config"; "foo"]
                            +:+ " found in repository.")] |}).
Proof.
  apply (processPath_destroys_own_copy E0 [".config"; "foo"] home dotfiles
           true (start tree_config_linked)
           ["home"; "u"; "gotfiles"; "dotfiles"; ".config"; "foo"] 384
           alias_bytes).
  - vm_compute. reflexivity.
  - vm_compute. reflexivity.
Defined.

(** X7.  A source that [lstat] cannot reach for another reason than ENOENT
    (a regular file in the place of one of its directories, a loop of
    symbolic links): [processPath] logs the error and does nothing else;
    the second [lstat] fails in the same way, so that no link is attempted. *)
Theorem processPath_inaccessible (E : env) (item homeDir repoDir : path)
    (isSync : bool) (s : state) (e : errno) :
  os_Lstat (fs s) (filepath_Join homeDir item) = Err e →
  e ≠ ENOENT →
  processPath E item homeDir repoDir isSync s =
    (tt, {| fs := fs s;
            out := out s ++ [Log ("Error accessing " +:+ show_path item
                                  +:+ ": " +:+ show_errno e)] |}).
Proof.
  intros Hl He. unfold processPath. unfold_M. simpl. rewrite Hl. simpl.
  destruct e; try done; simpl; by rewrite Hl.
Qed.

Lemma processPath_inaccessible_witness :
  processPath E0 [".config"; "starship.toml"] home dotfiles true
    (start tree_config_file) =
    (tt, {| fs := fs (start tree_config_file);
            out := out (start tree_config_file)
                   ++ [Log ("Error accessing "
                            +:+ show_path [".config"; "starship.toml"]
                            +:+ ": " +:+ show_errno ENOTDIR)] |}).
Proof.
  apply (processPath_inaccessible E0 [".config"; "starship.toml"] home
           dotfiles true (start tree_config_file) ENOTDIR).
  - vm_compute. reflexivity.
  - discriminate.
Defined.

(** X8.  [processPath] makes no directory in the home directory.  When the
    directory in which the link is to be made does not exist (the
    resolution of the source path fails with ENOENT before its last
    component) and the repository copy exists, the link cannot be made:
    [processPath] logs the two conditions and leaves the file system as it
    was. *)
Theorem processPath_makes_no_parent (E : env) (item homeDir repoDir : path)
    (isSync : bool) (s : state) (fi : FileInfo) :
  resolve (fs s) false (filepath_Join homeDir item) = Fail ENOENT →
  os_Stat (fs s) (filepath_Join repoDir item) = Ok fi →
  processPath E item homeDir repoDir isSync s =
    (tt, {| fs := fs s;
            out := (out s
                    ++ [Log (show_path item +:+ " does not exist in home.")])
                   ++ [Log ("Error creating symlink for " +:+ show_path item
                            +:+ ": " +:+ show_errno ENOENT)] |}).
Proof.
  intros Hsrc Hdst.
  assert (os_Lstat (fs s) (filepath_Join homeDir item) = Err ENOENT) as Hl.
  { unfold os_Lstat. by rewrite Hsrc. }
  unfold processPath. unfold_M. simpl. rewrite Hl. simpl. rewrite Hl. simpl.
  rewrite Hdst. simpl. unfold os_Symlink. rewrite Hsrc. reflexivity.
Qed.

Lemma processPath_makes_no_parent_witness :
  processPath E0 [".config"; "starship.toml"] home dotfiles true
    (start tree_new_machine) =
    (tt, {| fs := fs (start tree_new_machine);
            out := (out (start tree_new_machine)
                    ++ [Log (show_path [".config"; "starship.toml"]
                             +:+ " does not exist in home.")])
                   ++ [Log ("Error creating symlink for "
                            +:+ show_path [".config"; "starship.toml"]
                            +:+ ": " +:+ show_errno ENOENT)] |}).
Proof.
  apply (processPath_makes_no_parent E0 [".config"; "starship.toml"] home
           dotfiles true (start tree_new_machine)
           {| Name := "starship.toml"; Mode := 420 |}).
  - vm_compute. reflexivity.
  - vm_compute. reflexivity.
Defined.

(** ** The copies *)

(** X9.  When [copyFile] returns no error, the source was a regular file
    and the destination (a cleaned path, as the callers give it) is
    afterwards a regular file with the bytes of the source, with one
    exception: when source and destination are one and the same file, that
    file is left empty, since it is truncated before it is read.  Nothing
    is printed. *)
Theorem copyFile_success (E : env) (src dst : path) (s s' : state) :
  Forall proper dst →
  copyFile E src dst s = (None, s') →
  ∃ ks kd p q d,
    resolve (fs s) true src = Found ks (File p d) ∧
    resolve (fs s') true dst
      = Found kd (File q (if decide (ks = kd) then [] else d)) ∧
    out s' = out s.
Proof. intros _. apply copyFile_None. Qed.

Lemma copyFile_success_witness :
  ∃ ks kd p q d,
    resolve (fs (start tree_older_copy)) true (home ++ [".bashrc"])
      = Found ks (File p d) ∧
    resolve (fs (copyFile E0 (home ++ [".bashrc"]) (dotfiles ++ [".bashrc"])
                   (start tree_older_copy)).2) true (dotfiles ++ [".bashrc"])
      = Found kd (File q (if decide (ks = kd) then [] else d)) ∧
    out (copyFile E0 (home ++ [".bashrc"]) (dotfiles ++ [".bashrc"])
           (start tree_older_copy)).2 = out (start tree_older_copy).
Proof.
  apply (copyFile_success E0 (home ++ [".bashrc"]) (dotfiles ++ [".bashrc"])
           (start tree_older_copy)).
  - decide_now.
  - vm_compute. reflexivity.
Defined.

(** X10.  [copyFile] and [copyDir] remove nothing and print nothing: every
    object that was there before is there afterwards, a directory with its
    mode, a symbolic link with its target, a regular file with its mode
    (its bytes may have been replaced).  A copy into a directory that
    exists therefore keeps what only the destination had. *)
Theorem copies_remove_nothing (E : env) (src dst : path) (s : state) :
  (fs_le (fs s) (fs (copyFile E src dst s).2) ∧
   out (copyFile E src dst s).2 = out s) ∧
  (fs_le (fs s) (fs (copyDir E src dst s).2) ∧
   out (copyDir E src dst s).2 = out s).
Proof.
  split; split.
  - apply copyFile_le.
  - apply writes_nothing, copyFile_writes.
  - apply copyDir_le.
  - apply writes_nothing, copyDir_writes.
Qed.

(** X11.  A directory with an entry that is a symbolic link to a directory
    is not copied: [copyDir] takes every entry that [lstat] does not report
    as a directory for a file, [copyFile] opens the link's target and
    cannot read it, and the copy stops with an error (if it has not stopped
    with one before). *)
Theorem copyDir_link_to_directory (E : env) (src dst : path) (s : state)
    (ks : list string) (ms : Z) (c : string) (a : bool) (t : list string)
    (k : list string) (m : Z) :
  resolve (fs s) true src = Found ks (Dir ms) →
  fs s !! (ks ++ [c]) = Some (Symlink a t) →
  resolve (fs s) true (filepath_Join src [c]) = Found k (Dir m) →
  (copyDir E src dst s).1 ≠ None.
Proof.
  intros Hsrc Hc Hlink. unfold copyDir.
  change PATH_DEPTH with (S (Nat.pred PATH_DEPTH)).
  by eapply copyDir_at_link_to_directory.
Qed.

Lemma copyDir_link_to_directory_witness :
  (copyDir E0 (home ++ ["d"]) (dotfiles ++ ["d"]) (start tree_dir_sublink)).1
    ≠ None.
Proof.
  apply (copyDir_link_to_directory E0 (home ++ ["d"]) (dotfiles ++ ["d"])
           (start tree_dir_sublink) ["home"; "u"; "d"] 511 "l" false ["sub"]
           ["home"; "u"; "d"; "sub"] 448).
  - vm_compute. reflexivity.
  - vm_compute. reflexivity.
  - vm_compute. reflexivity.
Defined.

(** ** The commands *)

(** X12.  Whatever happens to the items, a command that gets as far as its
    loop starts three child processes and no others: [git add .], [git
    commit -m] with the message of the command, and [git push], in this
    order, all of them in the working directory (not in its [dotfiles]
    subdirectory), and each of them whether or not the one before it
    failed.  A command that returns an error has started none.  This holds
    of [initCmd] and [syncCmd] of both variants of the program. *)
Theorem commands_start_git (E : env) (items : list path) (s : state)
    (repoDir : path) :
  env_cwd E = Some repoDir →
  (processes (out (initCmd E items s).2) =
     processes (out s) ++
     match (initCmd E items s).1 with
     | Some _ => []
     | None => git_steps repoDir "Update dotfiles backup"
     end ∧
   processes (out (syncCmd E items s).2) =
     processes (out s) ++
     match (syncCmd E items s).1 with
     | Some _ => []
     | None => git_steps repoDir "Sync dotfiles changes"
     end) ∧
  (processes (out (MainGo.initCmd E items s).2) =
     processes (out s) ++
     match (MainGo.initCmd E items s).1 with
     | Some _ => []
     | None => git_steps repoDir "Update dotfiles backup"
     end ∧
   processes (out (MainGo.syncCmd E items s).2) =
     processes (out s) ++
     match (MainGo.syncCmd E items s).1 with
     | Some _ => []
     | None => git_steps repoDir "Sync dotfiles changes"
     end).
Proof.
  intros Hc. split; split.
  - destruct (initCmd E items s) as [r s'] eqn:Hrun. simpl.
    unfold initCmd, os_UserHomeDir, os_Getwd in Hrun. rewrite Hc in Hrun.
    destruct (env_home E) as [homeDir|]; simpl in Hrun;
      [|injection Hrun as <- <-; by rewrite app_nil_r].
    unfold mbind at 1, M_bind at 1, call at 1 in Hrun.
    destruct (os_MkdirAll _ _ _ _) as [fs1 [e|]]; simpl in Hrun;
      [injection Hrun as <- <-; by rewrite app_nil_r|].
    unfold mbind at 1, M_bind at 1 in Hrun.
    git_steps_tac Hrun (items_loop_writes E items homeDir
                          (filepath_Join repoDir ["dotfiles"]) false).
  - destruct (syncCmd E items s) as [r s'] eqn:Hrun. simpl.
    unfold syncCmd, os_UserHomeDir, os_Getwd in Hrun. rewrite Hc in Hrun.
    destruct (env_home E) as [homeDir|]; simpl in Hrun;
      [|injection Hrun as <- <-; by rewrite app_nil_r].
    unfold mbind at 1, M_bind at 1, read at 1 in Hrun.
    destruct (os_IsNotExist _); simpl in Hrun;
      [injection Hrun as <- <-; by rewrite app_nil_r|].
    unfold mbind at 1, M_bind at 1 in Hrun.
    git_steps_tac Hrun (items_loop_writes E items homeDir
                          (filepath_Join repoDir ["dotfiles"]) true).
  - destruct (MainGo.initCmd E items s) as [r s'] eqn:Hrun. simpl.
    unfold MainGo.initCmd, os_UserHomeDir, os_Getwd in Hrun.
    rewrite Hc in Hrun.
    destruct (env_home E) as [homeDir|]; simpl in Hrun;
      [|injection Hrun as <- <-; by rewrite app_nil_r].
    unfold mbind at 1, M_bind at 1, call at 1 in Hrun.
    destruct (os_MkdirAll _ _ _ _) as [fs1 [e|]]; simpl in Hrun;
      [injection Hrun as <- <-; by rewrite app_nil_r|].
    unfold mbind at 1, M_bind at 1 in Hrun.
    git_steps_tac Hrun (files_loop_writes E items homeDir
                          (filepath_Join repoDir ["dotfiles"]) false).
  - destruct (MainGo.syncCmd E items s) as [r s'] eqn:Hrun. simpl.
    unfold MainGo.syncCmd, os_UserHomeDir, os_Getwd in Hrun.
    rewrite Hc in Hrun.
    destruct (env_home E) as [homeDir|]; simpl in Hrun;
      [|injection Hrun as <- <-; by rewrite app_nil_r].
    unfold mbind at 1, M_bind at 1, read at 1 in Hrun.
    destruct (os_IsNotExist _); simpl in Hrun;
      [injection Hrun as <- <-; by rewrite app_nil_r|].
    unfold mbind at 1, M_bind at 1 in Hrun.
    git_steps_tac Hrun (files_loop_writes E items homeDir
                          (filepath_Join repoDir ["dotfiles"]) true).
Qed.

Lemma commands_start_git_witness :
  (processes (out (initCmd E0 [[".bashrc"]] (start tree_fresh)).2) =
     processes (out (start tree_fresh)) ++
     match (initCmd E0 [[".bashrc"]] (start tree_fresh)).1 with
     | Some _ => []
     | None => git_steps repo "Update dotfiles backup"
     end ∧
   processes (out (syncCmd E0 [[".bashrc"]] (start tree_fresh)).2) =
     processes (out (start tree_fresh)) ++
     match (syncCmd E0 [[".bashrc"]] (start tree_fresh)).1 with
     | Some _ => []
     | None => git_steps repo "Sync dotfiles changes"
     end) ∧
  (processes (out (MainGo.initCmd E0 [[".bashrc"]] (start tree_fresh)).2) =
     processes (out (start tree_fresh)) ++
     match (MainGo.initCmd E0 [[".bashrc"]] (start tree_fresh)).1 with
     | Some _ => []
     | None => git_steps repo "Update dotfiles backup"
     end ∧
   processes (out (MainGo.syncCmd E0 [[".bashrc"]] (start tree_fresh)).2) =
     processes (out (start tree_fresh)) ++
     match (MainGo.syncCmd E0 [[".bashrc"]] (start tree_fresh)).1 with
     | Some _ => []
     | None => git_steps repo "Sync dotfiles changes"
     end).
Proof.
  apply (commands_start_git E0 [[".bashrc"]] (start tree_fresh) repo).
  reflexivity.
Defined.

(** X13.  [syncCmd] returns an error in three cases only: the home
    directory is not known, the working directory is not known, or [stat]
    finds no [dotfiles] in the working directory.  In each of them the
    state is the one it was given: nothing is printed, changed or started.
    Otherwise it returns no error, whatever happens to the items and to the
    [git] steps; so it does when [dotfiles] is a regular file and when
    [stat] fails for another reason than ENOENT. *)
Theorem syncCmd_fails_before_the_items (E : env) (items : list path)
    (s : state) :
  ((syncCmd E items s).1 = None ↔
     ∃ homeDir repoDir,
       env_home E = Some homeDir ∧ env_cwd E = Some repoDir ∧
       os_Stat (fs s) (filepath_Join repoDir ["dotfiles"]) ≠ Err ENOENT) ∧
  ((syncCmd E items s).1 ≠ None → (syncCmd E items s).2 = s).
Proof.
  destruct (env_home E) as [homeDir|] eqn:Hh; cycle 1.
  { unfold syncCmd, os_UserHomeDir. rewrite Hh. simpl.
    split; [split; [done|]|done]. by intros (? & ? & ? & _). }
  destruct (env_cwd E) as [repoDir|] eqn:Hc; cycle 1.
  { unfold syncCmd, os_UserHomeDir, os_Getwd. rewrite Hh, Hc. simpl.
    split; [split; [done|]|done]. by intros (? & ? & _ & ? & _). }
  destruct (os_IsNotExist (result_error
              (os_Stat (fs s) (filepath_Join repoDir ["dotfiles"])))) eqn:Hne;
    [apply IsNotExist_stat in Hne as Hst|
     assert (os_Stat (fs s) (filepath_Join repoDir ["dotfiles"]) ≠ Err ENOENT)
       as Hst by (intros H%IsNotExist_stat; congruence)].
  - rewrite (syncCmd_stops E items s homeDir repoDir Hh Hc Hst). simpl.
    split; [split; [done|]|done]. intros (? & ? & _ & [= <-] & H). done.
  - rewrite (syncCmd_goes_on E items s homeDir repoDir Hh Hc Hst).
    split; [|done]. split; [|done]. intros _. by exists homeDir, repoDir.
Qed.

(** X14.  [initCmd] returns an error in three cases only: the home
    directory is not known, the working directory is not known, or the
    [dotfiles] directory cannot be made.  In each of them the state is the
    one it was given: a failed [os.MkdirAll] has made no directory, and
    nothing is printed or started.  Otherwise it returns no error, whatever
    happens to the items and to the [git] steps. *)
Theorem initCmd_fails_before_the_items (E : env) (items : list path)
    (s : state) :
  wf (fs s) →
  ((initCmd E items s).1 = None ↔
     ∃ homeDir repoDir,
       env_home E = Some homeDir ∧ env_cwd E = Some repoDir ∧
       (os_MkdirAll (env_umask E) (fs s)
          (filepath_Join repoDir ["dotfiles"]) 493).2 = None) ∧
  ((initCmd E items s).1 ≠ None → (initCmd E items s).2 = s).
Proof.
  intros Hwf.
  destruct (env_home E) as [homeDir|] eqn:Hh; cycle 1.
  { unfold initCmd, os_UserHomeDir. rewrite Hh. simpl.
    split; [split; [done|]|done]. by intros (? & ? & ? & _). }
  destruct (env_cwd E) as [repoDir|] eqn:Hc; cycle 1.
  { unfold initCmd, os_UserHomeDir, os_Getwd. rewrite Hh, Hc. simpl.
    split; [split; [done|]|done]. by intros (? & ? & _ & ? & _). }
  destruct (os_MkdirAll (env_umask E) (fs s)
              (filepath_Join repoDir ["dotfiles"]) 493).2 as [e|] eqn:Hmk.
  - rewrite (initCmd_stops E items s homeDir repoDir e Hwf Hh Hc Hmk). simpl.
    split; [split; [done|]|done]. intros (? & ? & _ & [= <-] & H).
    by rewrite Hmk in H.
  - rewrite (initCmd_goes_on E items s homeDir repoDir Hh Hc Hmk).
    split; [|done]. split; [|done]. intros _. by exists homeDir, repoDir.
Qed.

Lemma initCmd_fails_before_the_items_witness :
  ((initCmd E0 [[".bashrc"]] (start tree_no_directory)).1 = None ↔
     ∃ homeDir repoDir,
       env_home E0 = Some homeDir ∧ env_cwd E0 = Some repoDir ∧
       (os_MkdirAll (env_umask E0) (fs (start tree_no_directory))
          (filepath_Join repoDir ["dotfiles"]) 493).2 = None) ∧
  ((initCmd E0 [[".bashrc"]] (start tree_no_directory)).1 ≠ None →
   (initCmd E0 [[".bashrc"]] (start tree_no_directory)).2
     = start tree_no_directory).
Proof.
  apply (initCmd_fails_before_the_items E0 [[".bashrc"]]
           (start tree_no_directory)).
  decide_now.
Defined.

(** X15.  [init] with nothing to track, in a working directory that has no
    [dotfiles] yet: the run makes that one directory, with the mode 0755
    less the mask, and returns no error. *)
Theorem initCmd_makes_directory (E : env) (s : state) (homeDir repoDir : path)
    (kp : list string) (c : string) :
  env_home E = Some homeDir → env_cwd E = Some repoDir →
  resolve (fs s) false (filepath_Join repoDir ["dotfiles"]) = Missing kp c →
  (initCmd E [] s).1 = None ∧
  fs (initCmd E [] s).2 =
    <[kp ++ [c] := Dir (Z.land 493 (Z.lnot (env_umask E)))]> (fs s).
Proof.
  intros Hh Hc Hmiss.
  split; [eapply initCmd_goes_on; eauto;
          by rewrite (MkdirAll_missing E _ _ _ _ _ (Join_proper _ _) Hmiss)|].
  unfold initCmd, os_UserHomeDir, os_Getwd. rewrite Hh, Hc.
  unfold mbind at 1, M_bind at 1, call at 1.
  rewrite (MkdirAll_missing E _ _ _ _ _ (Join_proper _ _) Hmiss).
  unfold runGitCommand. unfold_M. simpl.
  by destruct (env_git E ["add"; "."]),
              (env_git E ["commit"; "-m"; "Update dotfiles backup"]),
              (env_git E ["push"]).
Qed.

Lemma initCmd_makes_directory_witness :
  (initCmd E0 [] (start tree_bare)).1 = None ∧
  fs (initCmd E0 [] (start tree_bare)).2 =
    <[repo ++ ["dotfiles"] := Dir (Z.land 493 (Z.lnot (env_umask E0)))]>
      (fs (start tree_bare)).
Proof.
  apply (initCmd_makes_directory E0 (start tree_bare) home repo repo
           "dotfiles").
  - reflexivity.
  - reflexivity.
  - vm_compute. reflexivity.
Defined.

(** X16.  Where [dotfiles] in the working directory is a directory already,
    the two commands do the same to the file system, whatever the items are
    and whatever becomes of them: [sync] leaves the file system that [init]
    leaves, and neither returns an error.  They differ in the lines they
    print and in the message of the commit.  This holds of both variants of
    the program. *)
Theorem sync_does_what_init_does (E : env) (items : list path) (s : state)
    (homeDir repoDir : path) (k : list string) (m : Z) :
  env_home E = Some homeDir → env_cwd E = Some repoDir →
  resolve (fs s) true (filepath_Join repoDir ["dotfiles"]) = Found k (Dir m) →
  ((initCmd E items s).1 = None ∧ (syncCmd E items s).1 = None ∧
   fs (syncCmd E items s).2 = fs (initCmd E items s).2) ∧
  ((MainGo.initCmd E items s).1 = None ∧
   (MainGo.syncCmd E items s).1 = None ∧
   fs (MainGo.syncCmd E items s).2 = fs (MainGo.initCmd E items s).2).
Proof.
  intros Hh Hc Hdot.
  pose proof (MkdirAll_existing (env_umask E) _ _ 493 _ _ Hdot) as Hmk.
  assert (os_Stat (fs s) (filepath_Join repoDir ["dotfiles"]) ≠ Err ENOENT)
    as Hst by by rewrite (stat_found _ _ _ _ Hdot).
  split; split.
  - eapply initCmd_goes_on; [done..|]. by rewrite Hmk.
  - split; [by eapply syncCmd_goes_on|].
    rewrite (syncCmd_fs E items s homeDir repoDir Hh Hc Hst).
    rewrite (initCmd_fs E items s homeDir repoDir (fs s) Hh Hc Hmk).
    destruct (sim_range_ any_output items _ _
                (λ item, processPath_any_output E item homeDir
                           (filepath_Join repoDir ["dotfiles"]) true false)
                s {| fs := fs s; out := out s |}) as [_ [H _]];
      [by split|exact H].
  - eapply older_initCmd_goes_on; [done..|]. by rewrite Hmk.
  - split; [by eapply older_syncCmd_goes_on|].
    rewrite (older_syncCmd_fs E items s homeDir repoDir Hh Hc Hst).
    rewrite (older_initCmd_fs E items s homeDir repoDir (fs s) Hh Hc Hmk).
    destruct (sim_range_ any_output items _ _
                (λ item, processFile_any_output E item homeDir
                           (filepath_Join repoDir ["dotfiles"]) true false)
                s {| fs := fs s; out := out s |}) as [_ [H _]];
      [by split|exact H].
Qed.

Lemma sync_does_what_init_does_witness :
  ((initCmd E0 [[".bashrc"]] (start tree_older_copy)).1 = None ∧
   (syncCmd E0 [[".bashrc"]] (start tree_older_copy)).1 = None ∧
   fs (syncCmd E0 [[".bashrc"]] (start tree_older_copy)).2
     = fs (initCmd E0 [[".bashrc"]] (start tree_older_copy)).2) ∧
  ((MainGo.initCmd E0 [[".bashrc"]] (start tree_older_copy)).1 = None ∧
   (MainGo.syncCmd E0 [[".bashrc"]] (start tree_older_copy)).1 = None ∧
   fs (MainGo.syncCmd E0 [[".bashrc"]] (start tree_older_copy)).2
     = fs (MainGo.initCmd E0 [[".bashrc"]] (start tree_older_copy)).2).
Proof.
  apply (sync_does_what_init_does E0 [[".bashrc"]] (start tree_older_copy)
           home repo dotfiles 493).
  - reflexivity.
  - reflexivity.
  - vm_compute. reflexivity.
Defined.

(** ** The caller of the commands *)

(** X17.  Without a configuration no command runs.  When the working
    directory is known and the configuration file cannot be read, or cannot
    be decoded, [main] logs the error with the path of the file and exits
    with status 1, for every command line of two words or more, [init] and
    [sync] included: nothing is changed, and no child process is started. *)
Theorem main_needs_configuration (E : env)
    (json_Unmarshal : list Byte.byte → Config → Config * option error)
    (Args : list string) (s : state) (repoDir : path) (e : error) :
  (2 ≤ length Args)%nat →
  env_cwd E = Some repoDir →
  (∃ e0, ioutil_ReadFile (fs s) (filepath_Join repoDir ["config.json"])
           = Err e0 ∧ e = Errno e0) ∨
  (∃ data cfg,
     ioutil_ReadFile (fs s) (filepath_Join repoDir ["config.json"]) = Ok data ∧
     json_Unmarshal data {| Dotfiles := [] |} = (cfg, Some e)) →
  main E json_Unmarshal Args s =
    (1, {| fs := fs s;
           out := out s ++
             [Log ("Error loading config file ("
                   +:+ show_abs (filepath_Join repoDir ["config.json"])
                   +:+ "): " +:+ show_error e)] |}).
Proof.
  intros Hlen Hc Hcfg. unfold main.
  destruct (Nat.ltb_spec (length Args) 2) as [|_]; [lia|].
  unfold os_Getwd. rewrite Hc. unfold loadConfig. unfold_M. simpl.
  destruct Hcfg as [(e0 & Hrd & ->)|(data & cfg & Hrd & Hdec)].
  - rewrite Hrd. reflexivity.
  - rewrite Hrd, Hdec. reflexivity.
Qed.

Lemma main_needs_configuration_witness :
  main E0 decode_example ["gotfiles"; "init"] (start tree_fresh) =
    (1, {| fs := fs (start tree_fresh);
           out := out (start tree_fresh) ++
             [Log ("Error loading config file ("
                   +:+ show_abs (filepath_Join repo ["config.json"])
                   +:+ "): " +:+ show_error (Errno ENOENT))] |}).
Proof.
  apply (main_needs_configuration E0 decode_example ["gotfiles"; "init"]
           (start tree_fresh) repo (Errno ENOENT)).
  - simpl. lia.
  - reflexivity.
  - left. exists ENOENT. split; [vm_compute; reflexivity|reflexivity].
Defined.

(** X18.  Unless the second word of the command line is [init] or [sync],
    [main] exits with status 1 and has changed nothing: all it does is to
    print one line.  For a command line of less than two words that line is
    the usage, printed before the working directory and the configuration
    are looked at; an unknown command is reported only after the
    configuration has been loaded. *)
Theorem main_without_command (E : env)
    (json_Unmarshal : list Byte.byte → Config → Config * option error)
    (Args : list string) (s : state) :
  nth 1 Args "" ≠ "init" → nth 1 Args "" ≠ "sync" →
  let r := main E json_Unmarshal Args s in
  r.1 = 1 ∧ fs r.2 = fs s ∧
  (∃ o, out r.2 = out s ++ [o] ∧ line o) ∧
  ((length Args < 2)%nat →
   out r.2 = out s ++ [Stdout "Usage: gotfiles <init|sync>"]) ∧
  (∀ repoDir data cfg,
     (2 ≤ length Args)%nat → env_cwd E = Some repoDir →
     ioutil_ReadFile (fs s) (filepath_Join repoDir ["config.json"]) = Ok data →
     json_Unmarshal data {| Dotfiles := [] |} = (cfg, None) →
     out r.2 = out s ++ [Stdout ("Unknown command: " +:+ nth 1 Args "")]).
Proof.
  intros Hi Hs. unfold main.
  destruct (Nat.ltb_spec (length Args) 2) as [Hlen|Hlen].
  { simpl. repeat split; try done; try (by eexists); intros; lia. }
  unfold os_Getwd. destruct (env_cwd E) as [repoDir|].
  2: { simpl. repeat split; try done; try (by eexists); intros; lia. }
  unfold loadConfig. unfold_M. simpl.
  destruct (ioutil_ReadFile _ _) as [data|e0] eqn:Hrd; simpl.
  2: { repeat split; try done; try (by eexists); try (intros; lia).
       intros ??? _ [= <-] ?. congruence. }
  destruct (json_Unmarshal data _) as [cfg [e|]] eqn:Hdec; simpl.
  { repeat split; try done; try (by eexists); try (intros; lia).
    intros ??? _ [= <-] ??. congruence. }
  rewrite decide_False by done. rewrite decide_False by done. simpl.
  repeat split; try done; try (by eexists); intros; lia.
Qed.

Lemma main_without_command_witness :
  let r := main E0 decode_example ["gotfiles"; "status"]
             (start tree_fresh_config) in
  r.1 = 1 ∧ fs r.2 = fs (start tree_fresh_config) ∧
  (∃ o, out r.2 = out (start tree_fresh_config) ++ [o] ∧ line o) ∧
  ((length ["gotfiles"; "status"] < 2)%nat →
   out r.2 = out (start tree_fresh_config)
             ++ [Stdout "Usage: gotfiles <init|sync>"]) ∧
  (∀ repoDir data cfg,
     (2 ≤ length ["gotfiles"; "status"])%nat → env_cwd E0 = Some repoDir →
     ioutil_ReadFile (fs (start tree_fresh_config))
       (filepath_Join repoDir ["config.json"]) = Ok data →
     decode_example data {| Dotfiles := [] |} = (cfg, None) →
     out r.2 = out (start tree_fresh_config)
               ++ [Stdout ("Unknown command: "
                           +:+ nth 1 ["gotfiles"; "status"] "")]).
Proof.
  apply (main_without_command E0 decode_example ["gotfiles"; "status"]
           (start tree_fresh_config)); simpl; discriminate.
Defined.

(** X19.  The exit status tells whether the command got as far as its loop,
    and nothing else.  With the home directory and the working directory
    known and the configuration loaded, [main] called with [init] exits
    with status 0 exactly when the [dotfiles] directory exists or could be
    made, and [main] called with [sync] exits with status 0 exactly when
    [stat] does not answer ENOENT for [dotfiles]: no failure of an item and
    no failure of a [git] step changes the status. *)
Theorem main_exit_status (E : env)
    (json_Unmarshal : list Byte.byte → Config → Config * option error)
    (prog : string) (rest : list string) (s : state) (homeDir repoDir : path)
    (data : list Byte.byte) (cfg : Config) :
  env_home E = Some homeDir → env_cwd E = Some repoDir →
  ioutil_ReadFile (fs s) (filepath_Join repoDir ["config.json"]) = Ok data →
  json_Unmarshal data {| Dotfiles := [] |} = (cfg, None) →
  ((main E json_Unmarshal (prog :: "init" :: rest) s).1 = 0 ↔
     (os_MkdirAll (env_umask E) (fs s)
        (filepath_Join repoDir ["dotfiles"]) 493).2 = None) ∧
  ((main E json_Unmarshal (prog :: "sync" :: rest) s).1 = 0 ↔
     os_Stat (fs s) (filepath_Join repoDir ["dotfiles"]) ≠ Err ENOENT).
Proof.
  intros Hh Hc Hrd Hdec. split.
  - unfold main. change (length (prog :: "init" :: rest) <? 2)%nat with false.
    unfold os_Getwd. rewrite Hc. unfold loadConfig. unfold_M.
    cbv beta iota. rewrite Hrd, Hdec. cbv beta iota. simpl nth.
    rewrite decide_True by done.
    destruct (os_MkdirAll (env_umask E) (fs s)
                (filepath_Join repoDir ["dotfiles"]) 493).2 as [e|] eqn:Hmk.
    + pose proof (initCmd_error E (components <$> Dotfiles cfg) s
                    homeDir repoDir e Hh Hc Hmk) as Hr.
      destruct (initCmd E _ s) as [r s']. simpl in Hr. subst r. simpl.
      split; discriminate.
    + pose proof (initCmd_goes_on E (components <$> Dotfiles cfg) s
                    homeDir repoDir Hh Hc Hmk) as Hr.
      destruct (initCmd E _ s) as [r s']. simpl in Hr. subst r. done.
  - unfold main. change (length (prog :: "sync" :: rest) <? 2)%nat with false.
    unfold os_Getwd. rewrite Hc. unfold loadConfig. unfold_M.
    cbv beta iota. rewrite Hrd, Hdec. cbv beta iota. simpl nth.
    rewrite decide_False by done. rewrite decide_True by done.
    destruct (os_IsNotExist (result_error
                (os_Stat (fs s) (filepath_Join repoDir ["dotfiles"]))))
      eqn:Hne.
    + apply IsNotExist_stat in Hne.
      rewrite (syncCmd_stops E _ s homeDir repoDir Hh Hc Hne). simpl.
      split; [discriminate|done].
    + assert (os_Stat (fs s) (filepath_Join repoDir ["dotfiles"]) ≠ Err ENOENT)
        as Hst by (intros H%IsNotExist_stat; congruence).
      pose proof (syncCmd_goes_on E (components <$> Dotfiles cfg) s
                    homeDir repoDir Hh Hc Hst) as Hr.
      destruct (syncCmd E _ s) as [r s']. simpl in Hr. subst r. done.
Qed.

Lemma main_exit_status_witness :
  ((main E0 decode_example ["gotfiles"; "init"] (start tree_bare_config)).1 = 0
   ↔ (os_MkdirAll (env_umask E0) (fs (start tree_bare_config))
        (filepath_Join repo ["dotfiles"]) 493).2 = None) ∧
  ((main E0 decode_example ["gotfiles"; "sync"] (start tree_bare_config)).1 = 0
   ↔ os_Stat (fs (start tree_bare_config)) (filepath_Join repo ["dotfiles"])
       ≠ Err ENOENT).
Proof.
  apply (main_exit_status E0 decode_example "gotfiles" [] (start tree_bare_config)
           home repo config_text {| Dotfiles := [".bashrc"] |}).
  - reflexivity.
  - reflexivity.
  - vm_compute. reflexivity.
  - vm_compute. reflexivity.
Defined.



(** ** The older variant on a directory *)

(** X21.  [processFile] of [src/main.go] does not move a directory that has
    an entry: [copyFile] fails on it, [os.Remove] refuses to remove it, and
    since the source is still there no link is made.  The directory and all
    that was in the file system are kept (the failed copy may have left an
    empty file at the destination); both errors are logged. *)
Theorem processFile_keeps_directory (E : env) (item homeDir repoDir : path)
    (isSync : bool) (s : state) (ks : list string) (m : Z) (c : string)
    (n : node) :
  resolve (fs s) false (filepath_Join homeDir item) = Found ks (Dir m) →
  ks ≠ [] →
  fs s !! (ks ++ [c]) = Some n →
  let s' := (MainGo.processFile E item homeDir repoDir isSync s).2 in
  fs_le (fs s) (fs s') ∧
  resolve (fs s') false (filepath_Join homeDir item) = Found ks (Dir m) ∧
  ∃ e, out s' =
         (out s ++ [Log ("Error copying " +:+ show_path item +:+ ": "
                         +:+ show_error e)])
         ++ [Log ("Error removing original file " +:+ show_path item
                  +:+ ": " +:+ show_errno ENOTEMPTY)].
Proof.
  set (source := filepath_Join homeDir item).
  set (dest := filepath_Join repoDir item).
  intros Hsrc Hks Hc.
  assert (resolve (fs s) true source = Found ks (Dir m)) as Hsrc'
    by by apply walk_nofollow_follow.
  pose proof (copyFile_directory_fails E source dest s ks m Hsrc') as Hfail.
  pose proof (copyFile_le E source dest s) as Hle.
  pose proof (writes_nothing (copyFile E source dest) s
                (copyFile_writes E _ source dest)) as Hout.
  unfold MainGo.processFile. fold source dest. unfold_M. simpl.
  rewrite (lstat_found _ _ _ _ Hsrc). simpl.
  rewrite mode_symlink_test. simpl.
  destruct (copyFile E source dest s) as [[e|] s1]; [|done]. simpl in *.
  destruct (resolve_grown _ _ _ _ _ _ Hle Hsrc)
    as (nd & Hsrc1 & _ & ->%node_le_dir).
  destruct (Hle _ _ Hc) as (n' & Hc1 & _).
  assert (os_Remove (fs s1) source = (fs s1, Some ENOTEMPTY)) as ->.
  { unfold os_Remove. rewrite Hsrc1. destruct ks as [|x ks]; [done|].
    apply elem_of_children in Hc1.
    destruct (children (fs s1) (x :: ks)); [by apply elem_of_nil in Hc1|done]. }
  simpl. rewrite (lstat_found _ _ _ _ Hsrc1). simpl.
  split; [done|]. split; [done|]. exists e. by rewrite Hout.
Qed.

Lemma processFile_keeps_directory_witness :
  let s' := (MainGo.processFile E0 ["d"] home dotfiles false
               (start tree_dir)).2 in
  fs_le (fs (start tree_dir)) (fs s') ∧
  resolve (fs s') false (filepath_Join home ["d"])
    = Found ["home"; "u"; "d"] (Dir 511) ∧
  ∃ e, out s' =
         (out (start tree_dir)
          ++ [Log ("Error copying " +:+ show_path ["d"] +:+ ": "
                   +:+ show_error e)])
         ++ [Log ("Error removing original file " +:+ show_path ["d"]
                  +:+ ": " +:+ show_errno ENOTEMPTY)].
Proof.
  apply (processFile_keeps_directory E0 ["d"] home dotfiles false
           (start tree_dir) ["home"; "u"; "d"] 511 "a"
           (File 420 alias_bytes)).
  - vm_compute. reflexivity.
  - discriminate.
  - vm_compute. reflexivity.
Defined.


